(** * ai-subtitle-splitter: the SRT codec and the split-duration reallocation

    A shallow embedding of [services/srtService.ts] (time codec, parser and
    serializer), of the re-timing loop of [App.tsx] (the body of
    [handleTransform]) and of the second parser kept under
    [src/services/srtService.ts], followed by the properties of the
    specification that were checked against them.  With them come what
    [processSubtitlesBatch] makes of the answer of the service, the
    printing of [geminiProcessSrt] and the naming of the processed file in
    [handleFileChange], and further properties of all of these.

    Conventions of the embedding.
    - A JavaScript string is the list of its code units; the code units are
      those of the Latin-1 range, so a code unit is an [ascii].
    - A JavaScript [number] that the program keeps in an entry (an id, a time
      in milliseconds) is an integer or [NaN].  Integers are exact in a double
      up to 2^53, and the statements below are about that range.  An
      expression whose intermediate value is a fraction
      ([Math.round (d * (w / W))]) is evaluated in binary64, with the
      operations of [SpecFloat]. *)

From Stdlib Require Import ZArith Ascii String List Bool Lia.
From Stdlib Require Import DecimalString DecimalPos SpecFloat.
From Equations Require Import Equations.
Import ListNotations.
Local Open Scope Z_scope.

(* ================================================================== *)
(** * JavaScript values and built-ins used by the program *)
(* ================================================================== *)

Module JS.

Definition jsstring := list ascii.

Definition str (s : string) : jsstring := list_ascii_of_string s.

Definition LF : ascii := "010"%char.
Definition CR : ascii := "013"%char.

(** ** Numbers *)

Inductive number : Type :=
| NaN
| Num (z : Z).

Definition isNaN (n : number) : bool :=
  match n with NaN => true | Num _ => false end.

Definition lift2 (f : Z -> Z -> Z) (a b : number) : number :=
  match a, b with
  | Num x, Num y => Num (f x y)
  | _, _ => NaN
  end.

Definition nadd := lift2 Z.add.
Definition nsub := lift2 Z.sub.
Definition nmul := lift2 Z.mul.

(** [a % b]: the remainder has the sign of the dividend. *)
Definition nrem := lift2 Z.rem.

(** [a > b]; every comparison with [NaN] is false. *)
Definition ngtb (a b : number) : bool :=
  match a, b with
  | Num x, Num y => y <? x
  | _, _ => false
  end.

(** SameValueZero, the key equality of [Map]. *)
Definition sameValueZero (a b : number) : bool :=
  match a, b with
  | NaN, NaN => true
  | Num x, Num y => x =? y
  | _, _ => false
  end.

(** [Math.floor (a / b)] for a divisor that is a positive integer (a
    constant or an array length at every call site).  One correctly rounded
    division of integers below 2^53 cannot reach the next integer, so the
    floor of the double is the floor of the quotient. *)
Definition floorDiv (a : number) (b : Z) : number :=
  match a with
  | NaN => NaN
  | Num x => Num (x / b)
  end.

(** [n || 0] on numbers: [NaN] and [0] are falsy. *)
Definition orZero (n : number) : number :=
  match n with
  | NaN => Num 0
  | Num z => Num z
  end.

(** ** binary64 *)

Definition prec : Z := 53.
Definition emax : Z := 1024.

(** The double nearest to an integer. *)
Definition ofInt (z : Z) : spec_float := binary_normalize prec emax z 0 false.

Definition toFloat (n : number) : spec_float :=
  match n with
  | NaN => S754_nan
  | Num z => ofInt z
  end.

(** [Math.round]: the integer nearest to the argument, a tie going up,
    that is [floor (x + 1/2)] computed exactly.  An infinite argument, which
    no integers of the exact range produce, has no integer value and is
    returned as [NaN]. *)
Definition Math_round (x : spec_float) : number :=
  match x with
  | S754_nan => NaN
  | S754_infinity _ => NaN
  | S754_zero _ => Num 0
  | S754_finite s m e =>
      let v := if s then Z.neg m else Z.pos m in
      match e with
      | Z0 => Num v
      | Zpos p => Num (v * 2 ^ Zpos p)
      | Zneg p => Num ((2 * v + 2 ^ Zpos p) / 2 ^ (Zpos p + 1))
      end
  end.

(** ** Characters *)

(** [\s], and what [trim] removes: white space and line terminators. *)
Definition isWhiteSpace (c : ascii) : bool :=
  match N_of_ascii c with
  | 9 | 10 | 11 | 12 | 13 | 32 | 160 => true
  | _ => false
  end%N.

(** [\d] *)
Definition isDigit (c : ascii) : bool :=
  ((48 <=? N_of_ascii c) && (N_of_ascii c <=? 57))%N.

Definition digitValue (c : ascii) : Z := Z.of_N (N_of_ascii c) - 48.

(** ** Strings *)

Fixpoint dropWhile {A} (p : A -> bool) (l : list A) : list A :=
  match l with
  | [] => []
  | x :: r => if p x then dropWhile p r else l
  end.

Fixpoint takeWhile {A} (p : A -> bool) (l : list A) : list A :=
  match l with
  | [] => []
  | x :: r => if p x then x :: takeWhile p r else []
  end.

Definition trimStart (s : jsstring) : jsstring := dropWhile isWhiteSpace s.

(** A code unit stays when one that stays follows it, or when it is not
    white space. *)
Fixpoint trimEnd (s : jsstring) : jsstring :=
  match s with
  | [] => []
  | c :: r =>
      match trimEnd r with
      | [] => if isWhiteSpace c then [] else [c]
      | (_ :: _) as r' => c :: r'
      end
  end.

Definition trim (s : jsstring) : jsstring := trimEnd (trimStart s).

(** [s.split sep] for a separator that is one code unit of a class [p]
    (['\n'], or the pattern [[:,]]): the first piece and the others. *)
Fixpoint splitPieces (p : ascii -> bool) (s : jsstring) : jsstring * list jsstring :=
  match s with
  | [] => ([], [])
  | c :: r =>
      let (h, t) := splitPieces p r in
      if p c then ([], h :: t) else (c :: h, t)
  end.

Definition split (p : ascii -> bool) (s : jsstring) : list jsstring :=
  let (h, t) := splitPieces p s in h :: t.

Definition isLF (c : ascii) : bool := Ascii.eqb c LF.

Fixpoint join (sep : jsstring) (l : list jsstring) : jsstring :=
  match l with
  | [] => []
  | x :: r =>
      match r with
      | [] => x
      | _ :: _ => x ++ sep ++ join sep r
      end
  end.

(** [s.padStart (n, '0')] *)
Definition padStart (n : nat) (s : jsstring) : jsstring :=
  repeat "0"%char (n - length s) ++ s.

(** [String (n)], also what a template literal inserts: for an integer, its
    decimal digits after the sign (the notation of integers below 10^21). *)
Definition String_ (n : number) : jsstring :=
  match n with
  | NaN => str "NaN"
  | Num z => str (NilZero.string_of_int (Z.to_int z))
  end.

(** [s.replace (/\r\n/g, '\n')]: one pass from the left. *)
Fixpoint replaceCRLF (s : jsstring) : jsstring :=
  match s with
  | [] => []
  | c :: r =>
      match r with
      | d :: r' =>
          if (Ascii.eqb c CR && Ascii.eqb d LF)%bool then LF :: replaceCRLF r'
          else c :: replaceCRLF r
      | [] => [c]
      end
  end.

(** ** [parseInt (s, 10)] *)

Fixpoint digitsValue (acc : Z) (s : jsstring) : Z :=
  match s with
  | [] => acc
  | c :: r => digitsValue (10 * acc + digitValue c) r
  end.

(** The leading white space is skipped, one sign is read, then the longest
    run of decimal digits, whatever follows; no digit gives [NaN].  The
    value is the integer the digits denote, which is the double
    JavaScript returns as long as it is below 2^53 in magnitude; beyond
    that JavaScript rounds, and gives [Infinity] from some 309 digits on,
    so every statement that names the value read keeps it below 2^53. *)
Definition parseInt (s : jsstring) : number :=
  let s1 := trimStart s in
  let (neg, s2) :=
    match s1 with
    | c :: r =>
        if Ascii.eqb c "-"%char then (true, r)
        else if Ascii.eqb c "+"%char then (false, r)
        else (false, s1)
    | [] => (false, s1)
    end in
  match takeWhile isDigit s2 with
  | [] => NaN
  | ds => let v := digitsValue 0 ds in Num (if neg then - v else v)
  end.

(** [ToString] of an array element that may be missing. *)
Definition ToString (o : option jsstring) : jsstring :=
  match o with
  | Some s => s
  | None => str "undefined"
  end.

End JS.

Import JS.

(* ================================================================== *)
(** * services/srtService.ts *)
(* ================================================================== *)

Module SrtService.

(** [SrtEntry] of [types.ts], as [parseSrt] builds it and [App.tsx]
    reads it: three numbers and the text. *)
Record SrtEntry : Type := mkEntry {
  id : number;
  startTime : number;
  endTime : number;
  text : jsstring
}.

(** ** The time codec *)

Definition isColonOrComma (c : ascii) : bool :=
  (Ascii.eqb c ":"%char || Ascii.eqb c ","%char)%bool.

Definition timeToMs (time : jsstring) : number :=
  let parts := split isColonOrComma time in
  let hours := parseInt (ToString (nth_error parts 0)) in
  let minutes := parseInt (ToString (nth_error parts 1)) in
  let seconds := parseInt (ToString (nth_error parts 2)) in
  let milliseconds := parseInt (ToString (nth_error parts 3)) in
  nadd (nadd (nadd (nmul hours (Num 3600000)) (nmul minutes (Num 60000)))
             (nmul seconds (Num 1000)))
       milliseconds.

Definition msToTime (ms : number) : jsstring :=
  let totalSeconds := floorDiv ms 1000 in
  let hours := padStart 2 (String_ (floorDiv totalSeconds 3600)) in
  let minutes := padStart 2 (String_ (floorDiv (nrem totalSeconds (Num 3600)) 60)) in
  let seconds := padStart 2 (String_ (nrem totalSeconds (Num 60))) in
  let milliseconds := padStart 3 (String_ (nrem ms (Num 1000))) in
  hours ++ str ":" ++ minutes ++ str ":" ++ seconds ++ str "," ++ milliseconds.

(** ** The patterns of [parseSrt] *)

(** [\d{2}:\d{2}:\d{2},\d{3}] on a whole string. *)
Definition isTimestamp (s : jsstring) : bool :=
  match s with
  | [h1; h2; c1; m1; m2; c2; s1; s2; c3; f1; f2; f3] =>
      (isDigit h1 && isDigit h2 && Ascii.eqb c1 ":"%char
       && isDigit m1 && isDigit m2 && Ascii.eqb c2 ":"%char
       && isDigit s1 && isDigit s2 && Ascii.eqb c3 ","%char
       && isDigit f1 && isDigit f2 && isDigit f3)%bool
  | _ => false
  end.

Fixpoint startsWith (p s : jsstring) : bool :=
  match p, s with
  | [], _ => true
  | _ :: _, [] => false
  | a :: p', b :: s' => (Ascii.eqb a b && startsWith p' s')%bool
  end.

(** [(\d{2}:\d{2}:\d{2},\d{3})\s*-->\s*(\d{2}:\d{2}:\d{2},\d{3})] tried at
    the start of [s].  Each [\s*] is followed by a code unit that is not
    white space, so the longest run is the only way to match. *)
Definition timeMatchHere (s : jsstring) : option (jsstring * jsstring) :=
  let t1 := firstn 12 s in
  if isTimestamp t1 then
    let r := dropWhile isWhiteSpace (skipn 12 s) in
    if startsWith (str "-->") r then
      let t2 := firstn 12 (dropWhile isWhiteSpace (skipn 3 r)) in
      if isTimestamp t2 then Some (t1, t2) else None
    else None
  else None.

(** [line.match (...)]: the leftmost position where the pattern matches;
    the two captured groups. *)
Fixpoint timeMatch (line : jsstring) : option (jsstring * jsstring) :=
  match timeMatchHere line with
  | Some m => Some m
  | None =>
      match line with
      | [] => None
      | _ :: r => timeMatch r
      end
  end.

(** The number of code units up to and including the last line feed of
    [w], if it has one. *)
Fixpoint afterLastLF (w : jsstring) : option nat :=
  match w with
  | [] => None
  | c :: r =>
      match afterLastLF r with
      | Some k => Some (S k)
      | None => if isLF c then Some 1%nat else None
      end
  end.

(** [\n\s*\n] tried at the start of [s]; what is left after the match.
    [\s*] takes the whole run of white space and gives back until a line
    feed follows: the match ends with the last line feed of the run. *)
Definition blankLineHere (s : jsstring) : option jsstring :=
  match s with
  | [] => None
  | c :: r =>
      if isLF c then
        match afterLastLF (takeWhile isWhiteSpace r) with
        | Some k => Some (skipn k r)
        | None => None
        end
      else None
  end.

Definition inspect {A} (x : A) : {y : A | x = y} := exist _ x eq_refl.

(** [s.split (/\n\s*\n/)]: the first block and the others.  At each
    position the pattern is tried; a match closes the block and the search
    goes on after it. *)
Equations? splitBlocksFrom (s : jsstring) : jsstring * list jsstring
  by wf (length s) lt :=
  splitBlocksFrom s with inspect (blankLineHere s) => {
    | exist _ (Some r) _ =>
        let (b, bs) := splitBlocksFrom r in ([], b :: bs)
    | exist _ None _ with s => {
        | [] => ([], [])
        | c :: t => let (b, bs) := splitBlocksFrom t in (c :: b, bs) } }.
Proof.
  destruct s as [|c t]; cbn [blankLineHere] in e; [discriminate e|].
  destruct (isLF c); [|discriminate e].
  destruct (afterLastLF _); [|discriminate e].
  injection e as <-. rewrite length_skipn. cbn [length]. lia.
Qed.

Definition splitBlocks (s : jsstring) : list jsstring :=
  let (b, bs) := splitBlocksFrom s in b :: bs.

(** ** [parseSrt] and [stringifySrt] *)

(** The body of the loop over the blocks: the entry a block adds to
    [entries], if any. *)
Definition parseBlock (block : jsstring) : list SrtEntry :=
  let lines := split isLF (trim block) in
  match lines with
  | line0 :: line1 :: rest =>
      let id := parseInt line0 in
      let timeMatch := timeMatch line1 in
      match negb (isNaN id), timeMatch with
      | true, Some (t1, t2) =>
          let startTime := timeToMs t1 in
          let endTime := timeToMs t2 in
          let text := join [LF] rest in
          [mkEntry id startTime endTime text]
      | _, _ => []
      end
  | _ => []
  end.

Definition parseSrt (srtContent : jsstring) : list SrtEntry :=
  let blocks := splitBlocks (trim (replaceCRLF srtContent)) in
  flat_map parseBlock blocks.

Definition renderEntry (entry : SrtEntry) : jsstring :=
  String_ (id entry) ++ [LF]
  ++ msToTime (startTime entry) ++ str " --> " ++ msToTime (endTime entry) ++ [LF]
  ++ text entry.

Definition stringifySrt (entries : list SrtEntry) : jsstring :=
  join [LF; LF] (map renderEntry entries).

End SrtService.

Import SrtService.

(* ================================================================== *)
(** * App.tsx: the re-timing loop of [handleTransform] *)
(* ================================================================== *)

Module App.

(** An element of the array the service returned for a split: a string,
    or any other JSON value. *)
Inductive element : Type :=
| EString (s : jsstring)
| EOther.

(** [ProcessedEntry.text] as the loop tells it apart. *)
Inductive processedText : Type :=
| TextString (s : jsstring)
| TextArray (a : list element)
| TextInvalid.

(** [ProcessedEntry]; [pid] is [None] for an id that is [null] or missing. *)
Record ProcessedEntry : Type := mkProcessed {
  pid : option number;
  ptext : processedText
}.

(** [new Map (entries.map (e => [e.id, e]))]: of two pairs with the same
    key the later one stays. *)
Definition Map : Type := list (number * SrtEntry).

Definition Map_new (pairs : list (number * SrtEntry)) : Map := pairs.

Fixpoint Map_get (m : Map) (k : number) : option SrtEntry :=
  match m with
  | [] => None
  | (k', v) :: r =>
      match Map_get r k with
      | Some w => Some w
      | None => if sameValueZero k' k then Some v else None
      end
  end.

(** [c => typeof c === 'string' && c.trim ().length > 0], and the strings
    that pass it. *)
Fixpoint textChunksOf (a : list element) : list jsstring :=
  match a with
  | [] => []
  | EString c :: r =>
      if (0 <? length (trim c))%nat then c :: textChunksOf r else textChunksOf r
  | EOther :: r => textChunksOf r
  end.

(** [chunk.replace (/\n/g, '').length] *)
Definition chunkLengthOf (chunk : jsstring) : Z :=
  Z.of_nat (length (filter (fun c => negb (isLF c)) chunk)).

(** [textChunks.reduce ((acc, chunk) => acc + ..., 0)] *)
Definition totalLengthOf (textChunks : list jsstring) : Z :=
  fold_left (fun acc chunk => acc + chunkLengthOf chunk) textChunks 0.

(** [Math.round (totalDuration * (chunkLength / totalLength))], the two
    operations in binary64. *)
Definition roundedShare (totalDuration : number) (chunkLength totalLength : Z) : number :=
  Math_round
    (SFmul prec emax (toFloat totalDuration)
       (SFdiv prec emax (ofInt chunkLength) (ofInt totalLength))).

(** [s || t] on strings: the empty string is falsy. *)
Definition orElse (s t : jsstring) : jsstring :=
  match s with
  | [] => t
  | _ :: _ => s
  end.

(** The loop of the proportional branch, from index [i] on: [chunks] are
    [textChunks[i..]], the last one being the one with
    [i === textChunks.length - 1].  It returns the entries pushed and the
    id counter. *)
Fixpoint proportionalLoop (totalDuration : number) (totalLength : Z)
    (originalEnd : number) (chunks : list jsstring)
    (currentStartTime : number) (newId : Z) : list SrtEntry * Z :=
  match chunks with
  | [] => ([], newId)
  | chunk :: rest =>
      match rest with
      | [] => ([mkEntry (Num newId) currentStartTime originalEnd chunk], newId + 1)
      | _ :: _ =>
          let chunkLength := chunkLengthOf chunk in
          let chunkDuration := roundedShare totalDuration chunkLength totalLength in
          let newEndTime := nadd currentStartTime chunkDuration in
          let (pushed, n) :=
            proportionalLoop totalDuration totalLength originalEnd rest
              newEndTime (newId + 1) in
          (mkEntry (Num newId) currentStartTime newEndTime chunk :: pushed, n)
      end
  end.

(** The loop of the equal-split branch. *)
Fixpoint equalLoop (chunkDuration originalEnd : number) (chunks : list jsstring)
    (startTime : number) (newId : Z) : list SrtEntry * Z :=
  match chunks with
  | [] => ([], newId)
  | chunk :: rest =>
      let endTime :=
        match rest with
        | [] => originalEnd
        | _ :: _ => nadd startTime chunkDuration
        end in
      let (pushed, n) := equalLoop chunkDuration originalEnd rest endTime (newId + 1) in
      (mkEntry (Num newId) startTime endTime chunk :: pushed, n)
  end.

(** What one processed entry whose original was found adds to
    [newSrtEntries], and the id counter after it. *)
Definition reallocate (originalEntry : SrtEntry) (t : processedText) (newId : Z)
  : list SrtEntry * Z :=
  match t with
  | TextArray a =>
      let textChunks := textChunksOf a in
      if (length textChunks <? 2)%nat then
        let combinedText := orElse (join (str " ") textChunks) (text originalEntry) in
        ([mkEntry (Num newId) (startTime originalEntry) (endTime originalEntry) combinedText],
         newId + 1)
      else
        let totalDuration := nsub (endTime originalEntry) (startTime originalEntry) in
        let totalLength := totalLengthOf textChunks in
        let currentStartTime := startTime originalEntry in
        if ((0 <? totalLength) && ngtb totalDuration (Num 0))%bool then
          proportionalLoop totalDuration totalLength (endTime originalEntry)
            textChunks currentStartTime newId
        else
          let chunkDuration :=
            orZero (floorDiv totalDuration (Z.of_nat (length textChunks))) in
          equalLoop chunkDuration (endTime originalEntry) textChunks
            (startTime originalEntry) newId
  | TextString s =>
      ([mkEntry (Num newId) (startTime originalEntry) (endTime originalEntry) s],
       newId + 1)
  | TextInvalid =>
      ([mkEntry (Num newId) (startTime originalEntry) (endTime originalEntry)
          (text originalEntry)],
       newId + 1)
  end.

(** The state of the loop over [processedEntriesFromAI]. *)
Record loopState : Type := mkState {
  newSrtEntries : list SrtEntry;
  newId : Z
}.

Definition loopStep (originalEntriesMap : Map) (st : loopState) (processedEntry : ProcessedEntry)
  : loopState :=
  match pid processedEntry with
  | None => st
  | Some k =>
      match Map_get originalEntriesMap k with
      | None => st
      | Some originalEntry =>
          let (pushed, n) := reallocate originalEntry (ptext processedEntry) (newId st) in
          mkState (newSrtEntries st ++ pushed) n
      end
  end.

(** [handleTransform] between the call of the service and [stringifySrt]. *)
Definition retime (originalEntries : list SrtEntry)
    (processedEntriesFromAI : list ProcessedEntry) : list SrtEntry :=
  let originalEntriesMap := Map_new (map (fun e => (id e, e)) originalEntries) in
  newSrtEntries
    (fold_left (loopStep originalEntriesMap) processedEntriesFromAI (mkState [] 1)).

End App.

Import App.

(* ================================================================== *)
(** * src/services/srtService.ts: the line-by-line parser *)
(* ================================================================== *)

Module SrcSrtService.

(** Here an entry keeps the id and the two timestamps as written.  The
    parser fills a [Partial<SrtEntry>] and pushes it under a cast, so a
    field is a string or unset. *)
Record SrtEntry : Type := mkEntry {
  id : option jsstring;
  startTime : option jsstring;
  endTime : option jsstring;
  text : option jsstring
}.

Definition emptyEntry : SrtEntry := mkEntry None None None None.

(** A field is truthy when it is set to a string that is not empty. *)
Definition truthy (o : option jsstring) : bool :=
  match o with
  | Some (_ :: _) => true
  | _ => false
  end.

Inductive result : Type :=
| Returns (entries : list SrtEntry)
| Throws (message : jsstring).

(** [s.split (/\r?\n/)]: the first line and the others. *)
Fixpoint splitLinesFrom (s : jsstring) : jsstring * list jsstring :=
  match s with
  | [] => ([], [])
  | c :: r =>
      if isLF c then
        let (l, ls) := splitLinesFrom r in ([], l :: ls)
      else
        match r with
        | d :: r' =>
            if (Ascii.eqb c CR && isLF d)%bool then
              let (l, ls) := splitLinesFrom r' in ([], l :: ls)
            else
              let (l, ls) := splitLinesFrom r in (c :: l, ls)
        | [] => ([c], [])
        end
  end.

Definition splitLines (s : jsstring) : list jsstring :=
  let (l, ls) := splitLinesFrom s in l :: ls.

(** [/^\d+$/.test (line)] *)
Definition isDigits (line : jsstring) : bool :=
  match line with
  | [] => false
  | _ :: _ => forallb isDigit line
  end.

Definition timeMatchHere (s : jsstring) : option (jsstring * jsstring) :=
  let t1 := firstn 12 s in
  let t2 := firstn 12 (skipn 17 s) in
  if (isTimestamp t1 && startsWith (str " --> ") (skipn 12 s) && isTimestamp t2)%bool
  then Some (t1, t2) else None.

(** [line.match (/(\d{2}:\d{2}:\d{2},\d{3}) --> (\d{2}:\d{2}:\d{2},\d{3})/)] *)
Fixpoint timeMatch (line : jsstring) : option (jsstring * jsstring) :=
  match timeMatchHere line with
  | Some m => Some m
  | None =>
      match line with
      | [] => None
      | _ :: r => timeMatch r
      end
  end.

Record parserState : Type := mkState {
  entries : list SrtEntry;
  currentEntry : SrtEntry;
  textLines : list jsstring
}.

(** [currentEntry.text = textLines.join ('\n')] *)
Definition withText (currentEntry : SrtEntry) (textLines : list jsstring) : SrtEntry :=
  mkEntry (id currentEntry) (startTime currentEntry) (endTime currentEntry)
          (Some (join [LF] textLines)).

(** One turn of the loop over the lines. *)
Definition step (st : parserState) (line : jsstring) : parserState :=
  let cur := currentEntry st in
  if negb (truthy (id cur)) then
    if isDigits line
    then mkState (entries st)
                 (mkEntry (Some line) (startTime cur) (endTime cur) (text cur))
                 (textLines st)
    else st
  else if negb (truthy (startTime cur)) then
    match timeMatch line with
    | Some (t1, t2) =>
        mkState (entries st) (mkEntry (id cur) (Some t1) (Some t2) (text cur))
                (textLines st)
    | None => mkState (entries st) emptyEntry (textLines st)
    end
  else if (0 <? length (trim line))%nat then
    mkState (entries st) cur (textLines st ++ [trim line])
  else
    mkState (entries st ++ [withText cur (textLines st)]) emptyEntry [].

Definition noEntriesMessage : jsstring :=
  str "Invalid SRT format. No entries could be parsed.".

Definition parseSrt (srtContent : jsstring) : result :=
  let lines := splitLines (trim srtContent) in
  let st := fold_left step lines (mkState [] emptyEntry []) in
  let entries :=
    if (truthy (id (currentEntry st)) && truthy (startTime (currentEntry st)))%bool
    then entries st ++ [withText (currentEntry st) (textLines st)]
    else entries st in
  if ((length entries =? 0)%nat && (0 <? length (trim srtContent))%nat)%bool
  then Throws noEntriesMessage
  else Returns entries.

End SrcSrtService.

(* ================================================================== *)
(** * services/geminiService.ts: what is made of the answer *)
(* ================================================================== *)

Module GeminiService.

(** [entries.map (e => ({id: e.id, text: e.text}))]: the entries as they
    were, returned in place of an answer that cannot be used. *)
Definition unprocessed (entries : list SrtEntry) : list ProcessedEntry :=
  map (fun e => mkProcessed (Some (id e)) (TextString (text e))) entries.

(** The value [JSON.parse] gave: [null], an array, or anything else. *)
Inductive json : Type :=
| JNull
| JArray (elements : list ProcessedEntry)
| JOther.

(** The answer of the service: a text that is empty once trimmed, a text
    that [JSON.parse] rejects, or a parsed value. *)
Inductive answer : Type :=
| EmptyText
| NotJson
| Parsed (processedData : json).

(** What [processSubtitlesBatch] does with the answer; [None] when it
    throws.  Reading [processedData.length] for the log throws on [null],
    inside the [try]. *)
Definition acceptAnswer (entries : list SrtEntry) (a : answer)
  : option (list ProcessedEntry) :=
  match a with
  | EmptyText => Some (unprocessed entries)
  | NotJson => None
  | Parsed JNull => None
  | Parsed JOther => Some (unprocessed entries)
  | Parsed (JArray processedData) =>
      if negb (length processedData =? length entries)%nat
      then Some (unprocessed entries)
      else Some processedData
  end.

End GeminiService.

(* ================================================================== *)
(** * src/services/geminiService.ts: the text made of the answer *)
(* ================================================================== *)

Module SrcGeminiService.

(** One entry of the answer as [geminiProcessSrt] prints it; a field that
    is missing is printed as [undefined]. *)
Definition formatEntry (entry : SrcSrtService.SrtEntry) : jsstring :=
  ToString (SrcSrtService.id entry) ++ [LF]
  ++ ToString (SrcSrtService.startTime entry) ++ str " --> "
  ++ ToString (SrcSrtService.endTime entry) ++ [LF]
  ++ ToString (SrcSrtService.text entry) ++ [LF].

(** [processedEntries.map (...).join ('\n')] *)
Definition formatEntries (processedEntries : list SrcSrtService.SrtEntry) : jsstring :=
  join [LF] (map formatEntry processedEntries).

End SrcGeminiService.

(* ================================================================== *)
(** * App.tsx: the name of the file *)
(* ================================================================== *)

Module AppFile.

(** [toLowerCase] on a code unit below 256: the letters A to Z, and the
    letters from U+00C0 to U+00DE but the multiplication sign. *)
Definition lowerUnit (c : ascii) : ascii :=
  let n := nat_of_ascii c in
  if (((65 <=? n) && (n <=? 90))
      || ((192 <=? n) && (n <=? 222) && negb (n =? 215)))%nat%bool
  then ascii_of_nat (n + 32)
  else c.

Definition toLowerCase (s : jsstring) : jsstring := map lowerUnit s.

(** [s.endsWith (x)]: the last code units of [s], as many as [x] has, are
    those of [x]. *)
Definition endsWith (x s : jsstring) : bool :=
  ((length x <=? length s)%nat
   && startsWith x (skipn (length s - length x) s))%bool.

(** [s.replace (pattern, replacement)] with a string for a pattern and no
    [$] in the replacement: the first occurrence is replaced. *)
Fixpoint replace (pattern replacement s : jsstring) {struct s} : jsstring :=
  if startsWith pattern s then replacement ++ skipn (length pattern) s
  else
    match s with
    | [] => []
    | c :: r => c :: replace pattern replacement r
    end.

(** [handleFileChange]: the name under which the new file is saved;
    [None] when the file is refused. *)
Definition handleFileChange (name : jsstring) : option jsstring :=
  if negb (endsWith (str ".srt") (toLowerCase name)) then None
  else Some (replace (str ".srt") (str "_processed.srt") name).

End AppFile.

(* ================================================================== *)
(** * Notions used to state the properties *)
(* ================================================================== *)

(** ** Numbers *)

(** The integers a double holds exactly are below 2^53 in magnitude. *)
Definition safeBound : Z := 2 ^ 53.

(** A positive normal double: a mantissa of 53 bits, the exponent in
    [lo .. hi]. *)
Definition normal (lo hi : Z) (x : spec_float) : Prop :=
  exists m e, x = S754_finite false m e /\ Zpos (digits2_pos m) = 53 /\ lo <= e <= hi.

(** ** The re-timing of an entry *)

(** The entries [l] form a chain from [s] to [e]: the first starts at [s],
    each next one starts where the one before ended, the last ends at [e]. *)
Fixpoint chained (s : Z) (l : list SrtEntry) (e : Z) : Prop :=
  match l with
  | [] => s = e
  | x :: r => startTime x = Num s /\ exists t, endTime x = Num t /\ chained t r e
  end.

(** [endTime >= startTime], both being integers. *)
Definition forward (x : SrtEntry) : Prop :=
  exists a b, startTime x = Num a /\ endTime x = Num b /\ a <= b.

(** The ids of [l] are [n], [n + 1], ... in this order. *)
Fixpoint numberedFrom (n : Z) (l : list SrtEntry) : Prop :=
  match l with
  | [] => True
  | x :: r => id x = Num n /\ numberedFrom (n + 1) r
  end.

(** What a split promises: an entry for each chunk, in order, numbered
    from the counter [n], chained from the cursor [cur] to the end [e] of
    the original, all but the last going forward. *)
Definition splitResult (e : Z) (chunks : list jsstring) (cur n : Z)
    (res : list SrtEntry * Z) : Prop :=
  map text (fst res) = chunks
  /\ numberedFrom n (fst res)
  /\ snd res = n + Z.of_nat (length chunks)
  /\ chained cur (fst res) e
  /\ Forall forward (removelast (fst res)).

(** The decisions that ask for no split: one string, or an array of which
    fewer than two chunks are left. *)
Definition collapses (t : processedText) : bool :=
  match t with
  | TextString _ => true
  | TextArray a => (length (textChunksOf a) <? 2)%nat
  | TextInvalid => false
  end.

(** The text the specification gives the one entry then: the string, or
    the chunks left joined with one space, or the text of the original
    when none is left. *)
Definition collapsedText (originalEntry : SrtEntry) (t : processedText) : jsstring :=
  match t with
  | TextString s => s
  | TextArray a =>
      match textChunksOf a with
      | [] => text originalEntry
      | _ :: _ => join (str " ") (textChunksOf a)
      end
  | TextInvalid => text originalEntry
  end.

(** The example of the specification: an entry from 1000 to 5000 and the
    chunks "AB" and "ABCD". *)
Definition exampleEntry (i : number) (txt : jsstring) : SrtEntry :=
  mkEntry i (Num 1000) (Num 5000) txt.

Definition exampleChunks : list element := [EString (str "AB"); EString (str "ABCD")].

(** Two milliseconds for four chunks of one letter. *)
Definition shortEntry : SrtEntry := mkEntry (Num 1) (Num 0) (Num 2) (str "abcd").

Definition fourChunks : list element :=
  [EString (str "a"); EString (str "b"); EString (str "c"); EString (str "d")].

(** ** Timestamps *)

(** The value of a field of two, of three digits. *)
Definition twoDigits (a b : ascii) : Z := 10 * digitValue a + digitValue b.

Definition threeDigits (a b c : ascii) : Z :=
  100 * digitValue a + 10 * digitValue b + digitValue c.

(** The offset in milliseconds that [HH:MM:SS,mmm] denotes. *)
Definition timestampValue (s : jsstring) : Z :=
  match s with
  | [h1; h2; _; m1; m2; _; s1; s2; _; f1; f2; f3] =>
      twoDigits h1 h2 * 3600000 + twoDigits m1 m2 * 60000
      + twoDigits s1 s2 * 1000 + threeDigits f1 f2 f3
  | _ => 0
  end.

(** The minutes and the seconds of a timestamp are below 60. *)
Definition inClockRange (s : jsstring) : bool :=
  match s with
  | [_; _; _; m1; _; _; s1; _; _; _; _; _] =>
      (digitValue m1 <? 6) && (digitValue s1 <? 6)
  | _ => false
  end.

(** The largest offset that has two digits of hours: 99:59:59,999. *)
Definition maxTime : Z := 359999999.

(** ** Lines and blocks *)

(** A line has no line feed. *)
Definition lfFree (l : jsstring) : Prop := Forall (fun c => isLF c = false) l.

(** A code unit that is neither a line feed nor a carriage return. *)
Definition plain (c : ascii) : Prop := isLF c = false /\ Ascii.eqb c CR = false.

(** A line of text as the parser keeps it: no line feed, and a code unit
    that is not white space. *)
Definition solid (l : jsstring) : Prop :=
  lfFree l /\ Exists (fun c => isWhiteSpace c = false) l.

(** The last code unit is not white space. *)
Definition endsSolid (s : jsstring) : Prop :=
  exists p c, s = p ++ [c] /\ isWhiteSpace c = false.

(** No pattern [\n\s*\n] matches at a position of [u] when [v] follows. *)
Definition quiet (u v : jsstring) : Prop :=
  forall p q, u = p ++ q -> q <> [] -> blankLineHere (q ++ v) = None.

(** The blocks [parseSrt] loops over. *)
Definition blocksOf (srtContent : jsstring) : list jsstring :=
  splitBlocks (trim (replaceCRLF srtContent)).

(** [e] is the entry that [parseSrt] makes of [block]: the first line read
    by [parseInt], the two timestamps matched on the second line, the
    other lines joined. *)
Definition parsedFrom (block : jsstring) (e : SrtEntry) : Prop :=
  exists line0 line1 rest z t1 t2,
    split isLF (trim block) = line0 :: line1 :: rest
    /\ parseInt line0 = Num z
    /\ timeMatch line1 = Some (t1, t2)
    /\ e = mkEntry (Num z) (timeToMs t1) (timeToMs t2) (join [LF] rest).

(** A line begins with a decimal integer: a digit, or a sign and a digit. *)
Definition beginsWithInteger (line : jsstring) : bool :=
  match line with
  | c :: r =>
      isDigit c
      || ((Ascii.eqb c "-"%char || Ascii.eqb c "+"%char)
          && match r with d :: _ => isDigit d | [] => false end)
  | [] => false
  end.

(** ** Printed entries *)

(** The digits of a decimal numeral, as [String_] prints them. *)
Definition digitsOf (d : Decimal.uint) : jsstring :=
  str (NilEmpty.string_of_uint d).

(** [s] has a carriage return just before a line feed. *)
Fixpoint hasCRLF (s : jsstring) : bool :=
  match s with
  | [] => false
  | c :: r =>
      match r with
      | d :: _ => (Ascii.eqb c CR && Ascii.eqb d LF) || hasCRLF r
      | [] => false
      end
  end.

(** The entries that are printed and read back unchanged: the id is an
    integer of the exact range, the two times are below 100 hours, the text
    has no carriage return before a line feed. *)
Definition printsBack (e : SrtEntry) : bool :=
  match id e, startTime e, endTime e with
  | Num z, Num a, Num b =>
      (Z.abs z <? safeBound) && (a <=? maxTime) && (b <=? maxTime)
      && negb (hasCRLF (text e))
  | _, _, _ => false
  end.

(** The timing line of an entry. *)
Definition timeLine (e : SrtEntry) : jsstring :=
  msToTime (startTime e) ++ str " --> " ++ msToTime (endTime e).

(** An entry as a block: what [stringifySrt] prints for it, less the line
    feed after the timing line when there is no text. *)
Definition blockOf (e : SrtEntry) : jsstring :=
  String_ (id e) ++ LF :: timeLine e
  ++ match text e with
     | [] => []
     | _ :: _ => LF :: text e
     end.

(** What [stringifySrt] prints, trimmed. *)
Fixpoint body (l : list SrtEntry) : jsstring :=
  match l with
  | [] => []
  | e :: r =>
      match r with
      | [] => blockOf e
      | _ :: _ => renderEntry e ++ [LF; LF] ++ body r
      end
  end.

(** The entries [parseSrt] returns, as far as printing is concerned. *)
Definition canonical (e : SrtEntry) : Prop :=
  exists z a b ls,
    id e = Num z /\ startTime e = Num a /\ endTime e = Num b
    /\ 0 <= a <= maxTime /\ 0 <= b <= maxTime
    /\ text e = join [LF] ls /\ Forall solid ls
    /\ (ls <> [] -> endsSolid (text e))
    /\ replaceCRLF (text e) = text e.

(** ** Files *)

(** A file of two blocks, the first with two lines of text, the second
    with none, written with carriage returns. *)
Definition sampleFile : jsstring :=
  str "1" ++ [CR; LF] ++ str "00:00:01,000 --> 00:00:02,500" ++ [CR; LF]
  ++ str "Hello" ++ [CR; LF] ++ str " world" ++ [CR; LF; CR; LF]
  ++ str "2" ++ [CR; LF] ++ str "00:00:03,000 --> 00:00:04,000" ++ [CR; LF].

(** A block with the later time first. *)
Definition backwardBlock : jsstring :=
  str "1" ++ [LF] ++ str "00:00:02,000 --> 00:00:01,000" ++ [LF] ++ str "x".

(** A block numbered zero. *)
Definition zeroBlock : jsstring :=
  str "0" ++ [LF] ++ str "00:00:01,000 --> 00:00:02,000" ++ [LF] ++ str "x".

(** A block numbered with a sign, and one numbered with digits that other
    text follows. *)
Definition signedBlock : jsstring :=
  str "-5" ++ [LF] ++ str "00:00:01,000 --> 00:00:02,000" ++ [LF] ++ str "x".

Definition trailingBlock : jsstring :=
  str "12abc" ++ [LF] ++ str "00:00:01,000 --> 00:00:02,000" ++ [LF] ++ str "x".

(** A block whose start has 99 minutes and 99 seconds. *)
Definition overflowBlock : jsstring :=
  str "1" ++ [LF] ++ str "99:99:99,999 --> 00:00:00,000" ++ [LF] ++ str "x".

(** A block whose text has a carriage return left before a line feed once
    the line ends are normalised. *)
Definition carriageBlock : jsstring :=
  str "1" ++ [LF] ++ str "00:00:01,000 --> 00:00:02,000" ++ [LF]
  ++ str "a" ++ [CR; CR; LF] ++ str "b".

(** ** The loop over the decisions *)

(** The entries [l] with the ids [n], [n + 1], ... *)
Fixpoint renumberFrom (n : Z) (l : list SrtEntry) : list SrtEntry :=
  match l with
  | [] => []
  | x :: r => mkEntry (Num n) (startTime x) (endTime x) (text x) :: renumberFrom (n + 1) r
  end.

(** No two entries of [l] have the same id. *)
Fixpoint distinctIds (l : list SrtEntry) : bool :=
  match l with
  | [] => true
  | x :: r => negb (existsb (fun y => sameValueZero (id y) (id x)) r) && distinctIds r
  end.

(** The decision names an entry of [originalEntries]. *)
Definition namesAnEntry (originalEntries : list SrtEntry) (d : ProcessedEntry) : bool :=
  match pid d with
  | Some k => existsb (fun y => sameValueZero (id y) k) originalEntries
  | None => false
  end.

(** [endTime - startTime] of an entry whose times are integers. *)
Definition durationOf (x : SrtEntry) : Z :=
  match startTime x, endTime x with
  | Num a, Num b => b - a
  | _, _ => 0
  end.

Definition totalDurationOf (l : list SrtEntry) : Z :=
  fold_right (fun x acc => durationOf x + acc) 0 l.

(** The entry lasts [k] milliseconds. *)
Definition lasts (k : Z) (x : SrtEntry) : Prop :=
  exists a, startTime x = Num a /\ endTime x = Num (a + k).

(** ** Files that are read as they are written *)

(** The line has a code unit that is not white space. *)
Definition hasSolidChar (l : jsstring) : bool :=
  existsb (fun c => negb (isWhiteSpace c)) l.

(** A text that is printed and read back unchanged: empty, or without a
    blank line, without white space at its end and without a carriage
    return before a line feed. *)
Definition wellFormedText (t : jsstring) : bool :=
  match t with
  | [] => true
  | c :: _ =>
      forallb hasSolidChar (split isLF t)
      && negb (isWhiteSpace (last t c))
      && negb (hasCRLF t)
  end.

(** An entry that is printed and read back unchanged. *)
Definition wellFormed (e : SrtEntry) : bool :=
  match id e, startTime e, endTime e with
  | Num z, Num a, Num b =>
      (Z.abs z <? safeBound)
      && (0 <=? a) && (a <=? maxTime) && (0 <=? b) && (b <=? maxTime)
      && wellFormedText (text e)
  | _, _, _ => false
  end.

(** The text with a carriage return put before every line feed. *)
Fixpoint toCRLF (s : jsstring) : jsstring :=
  match s with
  | [] => []
  | c :: r => if isLF c then CR :: LF :: toCRLF r else c :: toCRLF r
  end.

(** The text is not empty and has no white space at either end. *)
Definition trimmed (s : jsstring) : bool :=
  match s with
  | [] => false
  | c :: _ => negb (isWhiteSpace c) && negb (isWhiteSpace (last s c))
  end.

(** ** The line-by-line parser *)

(** An entry as the line-by-line parser returns one: the id a run of
    digits, the two times timestamps, the text empty or of lines that are
    not empty and have no white space at their ends. *)
Definition srcWellFormed (e : SrcSrtService.SrtEntry) : bool :=
  match SrcSrtService.id e, SrcSrtService.startTime e,
        SrcSrtService.endTime e, SrcSrtService.text e with
  | Some i, Some t1, Some t2, Some t =>
      SrcSrtService.isDigits i && isTimestamp t1 && isTimestamp t2
      && match t with
         | [] => true
         | _ :: _ => forallb trimmed (split isLF t)
         end
  | _, _, _, _ => false
  end.

(** A line of text as the loop keeps it. *)
Definition keptLine (l : jsstring) : Prop := trimmed l = true /\ lfFree l.

(** What holds of the state of the loop over the lines: the entries pushed
    are whole, the lines of text are kept lines, and the entry in the
    making is empty, or has its id, or has its id and its two times. *)
Definition srcInv (st : SrcSrtService.parserState) : Prop :=
  forallb srcWellFormed (SrcSrtService.entries st) = true
  /\ Forall keptLine (SrcSrtService.textLines st)
  /\ (SrcSrtService.currentEntry st = SrcSrtService.emptyEntry
      \/ (exists i,
            SrcSrtService.currentEntry st = SrcSrtService.mkEntry (Some i) None None None
            /\ SrcSrtService.isDigits i = true)
      \/ (exists i t1 t2,
            SrcSrtService.currentEntry st
            = SrcSrtService.mkEntry (Some i) (Some t1) (Some t2) None
            /\ SrcSrtService.isDigits i = true
            /\ isTimestamp t1 = true /\ isTimestamp t2 = true)).

(** A file of two entries for the line-by-line parser, with a line that
    is not a time line after the first id. *)
Definition srcSample : jsstring :=
  str "7" ++ [LF] ++ str "not a time" ++ [LF]
  ++ str "1" ++ [CR; LF] ++ str "x 00:00:01,000 --> 00:00:02,500 y" ++ [CR; LF]
  ++ str " Hello " ++ [LF] ++ str "world" ++ [LF; LF]
  ++ str "2" ++ [LF] ++ str "00:00:03,000 --> 00:00:02,000" ++ [LF].

(** The time line [geminiProcessSrt] prints for an entry. *)
Definition srcTimeLine (e : SrcSrtService.SrtEntry) : jsstring :=
  ToString (SrcSrtService.startTime e) ++ str " --> "
  ++ ToString (SrcSrtService.endTime e).

(** The lines of a text; an empty text has none. *)
Definition textLinesOf (t : jsstring) : list jsstring :=
  match t with
  | [] => []
  | _ :: _ => split isLF t
  end.

(** The lines of what [geminiProcessSrt] prints, once trimmed: for every
    entry its id, its time line and the lines of its text, and an empty
    line after every entry but the last. *)
Fixpoint srcLines (l : list SrcSrtService.SrtEntry) : list jsstring :=
  match l with
  | [] => []
  | e :: r =>
      match r with
      | [] =>
          [ToString (SrcSrtService.id e); srcTimeLine e]
          ++ textLinesOf (ToString (SrcSrtService.text e))
      | _ :: _ =>
          [ToString (SrcSrtService.id e); srcTimeLine e]
          ++ split isLF (ToString (SrcSrtService.text e)) ++ [[]] ++ srcLines r
      end
  end.

(** A line that [split (/\r?\n/)] gives back as it is: no line feed in
    it and no carriage return at its end. *)
Definition wholeLine (a : jsstring) : Prop :=
  lfFree a /\ forall q, a <> q ++ [CR].

(** What [parseSrt] returns from the state the loop ends in. *)
Definition srcOutcome (st : SrcSrtService.parserState) : list SrcSrtService.SrtEntry :=
  if (SrcSrtService.truthy (SrcSrtService.id (SrcSrtService.currentEntry st))
      && SrcSrtService.truthy (SrcSrtService.startTime (SrcSrtService.currentEntry st)))%bool
  then SrcSrtService.entries st
       ++ [SrcSrtService.withText (SrcSrtService.currentEntry st)
             (SrcSrtService.textLines st)]
  else SrcSrtService.entries st.

(** ** Names of files *)

(** [pattern] occurs in [s]. *)
Fixpoint occurs (pattern s : jsstring) : bool :=
  (startsWith pattern s
   || match s with
      | [] => false
      | _ :: r => occurs pattern r
      end)%bool.

(* ================================================================== *)
(** * binary64: the rounded share is a number *)
(* ================================================================== *)

Lemma digits2_bounds (m : positive) :
  2 ^ (Zpos (digits2_pos m) - 1) <= Zpos m < 2 ^ Zpos (digits2_pos m).
Proof.
  induction m as [m IH|m IH|]; simpl digits2_pos.
  - rewrite Pos2Z.inj_succ.
    replace (Z.succ (Zpos (digits2_pos m)) - 1) with (Z.succ (Zpos (digits2_pos m) - 1)) by lia.
    rewrite !Z.pow_succ_r by lia. lia.
  - rewrite Pos2Z.inj_succ.
    replace (Z.succ (Zpos (digits2_pos m)) - 1) with (Z.succ (Zpos (digits2_pos m) - 1)) by lia.
    rewrite !Z.pow_succ_r by lia. lia.
  - simpl. lia.
Qed.

Lemma digits2_unique (m : positive) (d : Z) :
  2 ^ (d - 1) <= Zpos m < 2 ^ d -> Zpos (digits2_pos m) = d.
Proof.
  intros [Hlo Hhi]. pose proof (digits2_bounds m) as [Blo Bhi].
  assert (0 < d).
  { destruct (Z_lt_le_dec 0 d); [assumption|].
    assert (2 ^ d <= 2 ^ 0) by (apply Z.pow_le_mono_r; lia). simpl in *. lia. }
  destruct (Z_lt_le_dec (Zpos (digits2_pos m)) d) as [L|L].
  - assert (2 ^ Zpos (digits2_pos m) <= 2 ^ (d - 1)) by (apply Z.pow_le_mono_r; lia). lia.
  - destruct (Z_lt_le_dec d (Zpos (digits2_pos m))) as [L'|L']; [|lia].
    assert (2 ^ d <= 2 ^ (Zpos (digits2_pos m) - 1)) by (apply Z.pow_le_mono_r; lia). lia.
Qed.

Lemma shr_1_m (r : shr_record) : 0 <= shr_m r -> shr_m (shr_1 r) = shr_m r / 2.
Proof.
  destruct r as [m a b]; simpl. intros H.
  destruct m as [|[p|p|]|p]; simpl; try reflexivity; try lia.
  - rewrite Pos2Z.inj_xI. apply Z.div_unique with 1; lia.
  - rewrite Pos2Z.inj_xO. apply Z.div_unique with 0; lia.
Qed.

Lemma iter_shr_1_m (p : positive) (r : shr_record) :
  0 <= shr_m r -> shr_m (iter_pos shr_1 p r) = shr_m r / 2 ^ Zpos p.
Proof.
  revert r. induction p as [p IH|p IH|]; intros r H; simpl iter_pos.
  - assert (H1 : 0 <= shr_m (shr_1 r)) by (rewrite shr_1_m by assumption; apply Z.div_pos; lia).
    assert (H2 : 0 <= shr_m (iter_pos shr_1 p (shr_1 r))) by (rewrite IH by assumption; apply Z.div_pos; lia).
    rewrite IH, IH, shr_1_m by assumption.
    rewrite !Z.div_div by lia. f_equal.
    replace (Zpos p~1) with (1 + Zpos p + Zpos p) by lia.
    rewrite !Z.pow_add_r by lia. change (2 ^ 1) with 2. lia.
  - assert (H2 : 0 <= shr_m (iter_pos shr_1 p r)) by (rewrite IH by assumption; apply Z.div_pos; lia).
    rewrite IH, IH by assumption.
    rewrite !Z.div_div by lia. f_equal.
    replace (Zpos p~0) with (Zpos p + Zpos p) by lia.
    rewrite !Z.pow_add_r by lia. reflexivity.
  - rewrite shr_1_m by assumption. reflexivity.
Qed.

Lemma shr_m_record m l : shr_m (shr_record_of_loc m l) = m.
Proof. destruct l as [|[]]; reflexivity. Qed.

Lemma round_nearest_even_cases m l :
  round_nearest_even m l = m \/ round_nearest_even m l = m + 1.
Proof. destruct l as [|[]]; simpl; auto. destruct (Z.even m); auto. Qed.

(** shr_fexp on a positive mantissa of at least 53 digits, far from the
    subnormal range *)
Lemma shr_fexp_m (m : positive) (e : Z) (l : location) :
  53 <= Zpos (digits2_pos m) -> -1074 <= Zpos (digits2_pos m) + e - 53 ->
  let r := shr_fexp prec emax (Zpos m) e l in
  shr_m (fst r) = Zpos m / 2 ^ (Zpos (digits2_pos m) - 53)
  /\ snd r = Zpos (digits2_pos m) + e - 53.
Proof.
  intros Hd He. unfold shr_fexp, fexp, SpecFloat.emin, prec, emax.
  cbn [Zdigits2]. remember (Zpos (digits2_pos m)) as d eqn:Ed.
  replace (Z.max (d + e - 53) (3 - 1024 - 53) - e) with (d - 53) by lia.
  unfold shr.
  destruct (d - 53) as [|p|p] eqn:E; cbn [fst snd].
  - rewrite shr_m_record, Z.pow_0_r, Z.div_1_r. split; [reflexivity|lia].
  - rewrite iter_shr_1_m by (rewrite shr_m_record; lia). rewrite shr_m_record.
    split; [reflexivity|lia].
  - lia.
Qed.

Lemma div_pow2_digits (m : positive) (d : Z) :
  Zpos (digits2_pos m) = d -> 53 <= d ->
  2 ^ 52 <= Zpos m / 2 ^ (d - 53) < 2 ^ 53.
Proof.
  intros Hd H53. pose proof (digits2_bounds m) as [Lo Hi]. rewrite Hd in Lo, Hi.
  assert (P : 0 < 2 ^ (d - 53)) by (apply Z.pow_pos_nonneg; lia).
  split.
  - apply Z.div_le_lower_bound; [assumption|].
    rewrite <- Z.pow_add_r by lia. replace (d - 53 + 52) with (d - 1) by lia. assumption.
  - apply Z.div_lt_upper_bound; [assumption|].
    rewrite <- Z.pow_add_r by lia. replace (d - 53 + 53) with d by lia. assumption.
Qed.

Lemma binary_round_aux_normal (m : positive) (e : Z) (l : location) :
  53 <= Zpos (digits2_pos m) ->
  -1074 <= Zpos (digits2_pos m) + e - 53 ->
  Zpos (digits2_pos m) + e - 53 < 971 ->
  normal (Zpos (digits2_pos m) + e - 53) (Zpos (digits2_pos m) + e - 52)
    (binary_round_aux prec emax false (Zpos m) e l).
Proof.
  intros Hd Hlo Hhi. unfold binary_round_aux.
  pose proof (shr_fexp_m m e l Hd Hlo) as S1. cbv zeta in S1.
  destruct (shr_fexp prec emax (Zpos m) e l) as [mrs' e'] eqn:E1. cbn [fst snd] in S1.
  destruct S1 as [M1 X1].
  pose proof (div_pow2_digits m _ eq_refl Hd) as B. rewrite <- M1 in B.
  set (m1 := round_nearest_even (shr_m mrs') (loc_of_shr_record mrs')).
  assert (R : 2 ^ 52 <= m1 <= 2 ^ 53).
  { subst m1. destruct (round_nearest_even_cases (shr_m mrs') (loc_of_shr_record mrs')) as [->| ->]; lia. }
  destruct m1 as [|p1|p1] eqn:Em1; try (exfalso; change (2 ^ 52) with 4503599627370496 in R; lia).
  destruct (Z.eq_dec (Zpos p1) (2 ^ 53)) as [Eq|Ne].
  - (* the rounding carried into a 54th digit *)
    change (2 ^ 53) with (Zpos (2 ^ 53)%positive) in Eq. injection Eq as ->.
    subst e'. vm_compute (digits2_pos (2 ^ 53)).
    unfold shr_fexp, fexp, SpecFloat.emin, prec, emax. cbn [Zdigits2].
    vm_compute (digits2_pos (2 ^ 53)).
    remember (Zpos (digits2_pos m)) as d eqn:Ed.
    replace (Z.max (54 + (d + e - 53) - 53) (3 - 1024 - 53) - (d + e - 53)) with 1 by lia.
    cbn. replace (d + e - 53 + 1 <=? 971) with true by (symmetry; apply Z.leb_le; lia).
    exists 4503599627370496%positive, (d + e - 53 + 1). repeat split; lia.
  - assert (D1 : Zpos (digits2_pos p1) = 53) by (apply digits2_unique; change (53 - 1) with 52; lia).
    subst e'.
    unfold shr_fexp, fexp, SpecFloat.emin, prec, emax. cbn [Zdigits2]. rewrite D1.
    remember (Zpos (digits2_pos m)) as d eqn:Ed.
    replace (Z.max (53 + (d + e - 53) - 53) (3 - 1024 - 53) - (d + e - 53)) with 0 by lia.
    cbn. replace (d + e - 53 <=? 971) with true by (symmetry; apply Z.leb_le; lia).
    exists p1, (d + e - 53). repeat split; lia.
Qed.

Lemma normal_weaken lo hi lo' hi' x :
  normal lo hi x -> lo' <= lo -> hi <= hi' -> normal lo' hi' x.
Proof. intros (m & e & -> & D & B) ? ?. exists m, e. repeat split; lia. Qed.

Lemma iter_xO_value (k m : positive) : Zpos (Pos.iter xO m k) = Zpos m * 2 ^ Zpos k.
Proof.
  rewrite <- (Pos2Z.inj_pow 2 k), <- Pos2Z.inj_mul. f_equal.
  revert m. induction k using Pos.peano_ind; intros m.
  - simpl. lia.
  - rewrite Pos.iter_succ, IHk, Pos.pow_succ_r. lia.
Qed.

Lemma ofInt_normal (z : Z) : 0 < z < 2 ^ 53 -> normal (-52) 1 (ofInt z).
Proof.
  intros [Hz Hlt]. destruct z as [|p|p]; try lia.
  unfold ofInt, binary_normalize, binary_round.
  pose proof (digits2_bounds p) as [Lo Hi].
  assert (D : Zpos (digits2_pos p) <= 53).
  { destruct (Z_lt_le_dec 53 (Zpos (digits2_pos p))); [|lia].
    assert (2 ^ 53 <= 2 ^ (Zpos (digits2_pos p) - 1)) by (apply Z.pow_le_mono_r; lia). lia. }
  unfold shl_align, fexp, SpecFloat.emin, prec, emax.
  remember (Zpos (digits2_pos p)) as d eqn:Ed.
  replace (Z.max (d + 0 - 53) (3 - 1024 - 53) - 0) with (d - 53) by lia.
  replace (Z.max (d + 0 - 53) (3 - 1024 - 53)) with (d - 53) by lia.
  destruct (d - 53) as [|k|k] eqn:E; try lia.
  - eapply normal_weaken.
    + apply (binary_round_aux_normal p 0 loc_Exact); lia.
    + lia.
    + lia.
  - assert (V := iter_xO_value k p).
    assert (Dk : Zpos (digits2_pos (Pos.iter xO p k)) = 53).
    { apply digits2_unique. rewrite V. change (53 - 1) with 52.
      replace 52 with ((d - 1) + Zpos k) by lia.
      replace 53 with (d + Zpos k) by lia.
      rewrite !Z.pow_add_r by lia.
      assert (0 < 2 ^ Zpos k) by (apply Z.pow_pos_nonneg; lia). nia. }
    eapply normal_weaken.
    + apply (binary_round_aux_normal (Pos.iter xO p k) (Zneg k) loc_Exact); lia.
    + lia.
    + lia.
Qed.

Lemma SFdiv_normal (x y : spec_float) (a b c d : Z) :
  normal a b x -> normal c d y ->
  -1021 <= a - d -> b - c <= 1020 ->
  normal (a - d - 53) (b - c - 51) (SFdiv prec emax x y).
Proof.
  intros (m1 & e1 & -> & D1 & B1) (m2 & e2 & -> & D2 & B2) Hlo Hhi.
  unfold SFdiv, SFdiv_core_binary. cbn [xorb Zdigits2]. rewrite D1, D2.
  unfold fexp, SpecFloat.emin, prec, emax.
  replace (Z.min (Z.max (53 + e1 - (53 + e2) - 53) (3 - 1024 - 53)) (e1 - e2))
    with (e1 - e2 - 53) by lia.
  replace (e1 - e2 - (e1 - e2 - 53)) with 53 by lia.
  rewrite Z.shiftl_mul_pow2 by lia.
  pose proof (Z.div_eucl_eq (Zpos m1 * 2 ^ 53) (Zpos m2) ltac:(lia)) as Eq.
  pose proof (Z.mod_pos_bound (Zpos m1 * 2 ^ 53) (Zpos m2) ltac:(lia)) as Rb.
  unfold Z.modulo in Rb.
  destruct (Z.div_eucl (Zpos m1 * 2 ^ 53) (Zpos m2)) as [q r].
  pose proof (digits2_bounds m1) as [Lo1 Hi1]. rewrite D1 in Lo1, Hi1.
  pose proof (digits2_bounds m2) as [Lo2 Hi2]. rewrite D2 in Lo2, Hi2.
  change (53 - 1) with 52 in *.
  change (2 ^ 52) with 4503599627370496 in *.
  change (2 ^ 53) with 9007199254740992 in *.
  assert (Q : 4503599627370496 <= q < 4 * 4503599627370496) by nia.
  destruct q as [|mq|mq]; try lia.
  assert (Dq : Zpos (digits2_pos mq) = 53 \/ Zpos (digits2_pos mq) = 54).
  { destruct (Z_lt_le_dec (Zpos mq) 9007199254740992).
    - left. apply digits2_unique. change (2 ^ (53 - 1)) with 4503599627370496.
      change (2 ^ 53) with 9007199254740992. lia.
    - right. apply digits2_unique. change (2 ^ (54 - 1)) with 9007199254740992.
      change (2 ^ 54) with 18014398509481984. lia. }
  eapply normal_weaken.
  - apply binary_round_aux_normal; lia.
  - lia.
  - lia.
Qed.

Lemma SFmul_normal (x y : spec_float) (a b c d : Z) :
  normal a b x -> normal c d y ->
  -1126 <= a + c -> b + d <= 917 ->
  normal (a + c + 52) (b + d + 54) (SFmul prec emax x y).
Proof.
  intros (m1 & e1 & -> & D1 & B1) (m2 & e2 & -> & D2 & B2) Hlo Hhi.
  unfold SFmul. cbn [xorb].
  pose proof (digits2_bounds m1) as [Lo1 Hi1]. rewrite D1 in Lo1, Hi1.
  pose proof (digits2_bounds m2) as [Lo2 Hi2]. rewrite D2 in Lo2, Hi2.
  change (53 - 1) with 52 in *.
  change (2 ^ 52) with 4503599627370496 in *.
  change (2 ^ 53) with 9007199254740992 in *.
  assert (Dq : Zpos (digits2_pos (m1 * m2)) = 105 \/ Zpos (digits2_pos (m1 * m2)) = 106).
  { destruct (Z_lt_le_dec (Zpos (m1 * m2)) (2 ^ 105)) as [L|L].
    - left. apply digits2_unique. split; [|exact L].
      change (2 ^ (105 - 1)) with (4503599627370496 * 4503599627370496).
      rewrite Pos2Z.inj_mul. nia.
    - right. apply digits2_unique. split; [exact L|].
      change (2 ^ 106) with (9007199254740992 * 9007199254740992).
      rewrite Pos2Z.inj_mul. nia. }
  eapply normal_weaken.
  - apply binary_round_aux_normal; lia.
  - lia.
  - lia.
Qed.

Lemma Math_round_normal lo hi x :
  normal lo hi x -> exists k, Math_round x = Num k /\ 0 <= k.
Proof.
  intros (m & e & -> & _ & _). destruct e as [|p|p]; cbn [Math_round].
  - eexists; split; [reflexivity|lia].
  - eexists; split; [reflexivity|].
    assert (0 < 2 ^ Zpos p) by (apply Z.pow_pos_nonneg; lia). lia.
  - eexists; split; [reflexivity|].
    assert (0 < 2 ^ Zpos p) by (apply Z.pow_pos_nonneg; lia).
    assert (0 < 2 ^ (Zpos p + 1)) by (apply Z.pow_pos_nonneg; lia).
    apply Z.div_pos; lia.
Qed.

(** The rounded share of a chunk is a number, and it is not negative. *)
Lemma roundedShare_number (d w W : Z) :
  0 < d < safeBound -> 0 <= w < safeBound -> 0 < W < safeBound ->
  exists k, roundedShare (Num d) w W = Num k /\ 0 <= k.
Proof.
  unfold safeBound. intros Hd Hw HW. unfold roundedShare. cbn [toFloat].
  pose proof (ofInt_normal d Hd) as (md & ed & Ed & _).
  pose proof (ofInt_normal W HW) as NW.
  destruct (Z.eq_dec w 0) as [->|Hw0].
  - destruct NW as (mW & eW & EW & _). rewrite Ed, EW.
    exists 0. split; [reflexivity|lia].
  - assert (Nw : normal (-52) 1 (ofInt w)) by (apply ofInt_normal; lia).
    pose proof (SFdiv_normal _ _ _ _ _ _ Nw NW ltac:(lia) ltac:(lia)) as Nq.
    pose proof (ofInt_normal d Hd) as Nd.
    pose proof (SFmul_normal _ _ _ _ _ _ Nd Nq ltac:(lia) ltac:(lia)) as Np.
    exact (Math_round_normal _ _ _ Np).
Qed.

(* ================================================================== *)
(** * The re-timing of one entry *)
(* ================================================================== *)

Section Reallocate.

Variable originalEntry : SrtEntry.
Variable newId : Z.

Lemma textChunksOf_kept (a : list element) :
  Forall (fun c => trim c <> []) (textChunksOf a).
Proof.
  induction a as [|[c|] a IH]; simpl; auto.
  destruct (trim c) eqn:E; simpl; auto.
  constructor; [rewrite E; discriminate|assumption].
Qed.

(** C7.  A decision that is one string, or an array of which fewer than
    two chunks are left once the empty and white-space-only ones are
    discarded, adds exactly one entry: it has the times of the original
    unchanged, the next id, and as text the string, respectively the
    chunks left joined with one space, or the text of the original when
    none is left; the id counter moves by one. *)
Theorem single_entry_keeps_timing (t : processedText) :
  collapses t = true ->
  reallocate originalEntry t newId =
    ([mkEntry (Num newId) (startTime originalEntry) (endTime originalEntry)
        (collapsedText originalEntry t)],
     newId + 1).
Proof.
  destruct t as [s|a|]; simpl; intros H; try discriminate; [reflexivity|].
  rewrite H.
  pose proof (textChunksOf_kept a) as Hk.
  destruct (textChunksOf a) as [|c [|d r]]; try discriminate; [reflexivity|].
  inversion Hk as [|? ? Hc _]; subst.
  destruct c; [exfalso; apply Hc; reflexivity|reflexivity].
Qed.

End Reallocate.

Lemma single_entry_keeps_timing_witness :
  reallocate (exampleEntry (Num 5) (str "A"))
    (TextArray [EString (str "  "); EOther; EString (str "Hi")]) 7
  = ([mkEntry (Num 7) (Num 1000) (Num 5000) (str "Hi")], 8).
Proof.
  apply (single_entry_keeps_timing (exampleEntry (Num 5) (str "A")) 7
           (TextArray [EString (str "  "); EOther; EString (str "Hi")])).
  reflexivity.
Defined.

(** ** The split *)

Lemma totalLength_fold (l : list jsstring) (acc : Z) :
  fold_left (fun a chunk => a + chunkLengthOf chunk) l acc
  = acc + fold_left (fun a chunk => a + chunkLengthOf chunk) l 0.
Proof.
  revert acc. induction l as [|c l IH]; intros acc; simpl; [lia|].
  rewrite IH, (IH (chunkLengthOf c)). lia.
Qed.

Lemma chunkLengthOf_nonneg (c : jsstring) : 0 <= chunkLengthOf c.
Proof. unfold chunkLengthOf. lia. Qed.

Lemma chunkLength_le_total (l : list jsstring) (c : jsstring) :
  In c l -> 0 <= chunkLengthOf c <= totalLengthOf l.
Proof.
  unfold totalLengthOf. induction l as [|x l IH]; simpl; [contradiction|].
  rewrite totalLength_fold. pose proof (chunkLengthOf_nonneg x).
  intros [->|Hin].
  - assert (0 <= fold_left (fun a chunk => a + chunkLengthOf chunk) l 0).
    { clear. induction l as [|y l IH]; simpl; [lia|].
      rewrite totalLength_fold. pose proof (chunkLengthOf_nonneg y). lia. }
    lia.
  - specialize (IH Hin). lia.
Qed.

Section Loops.

Variables (e : Z) (k0 : Z).

Lemma proportionalLoop_result (d W : Z) (chunks : list jsstring) :
  0 < d < safeBound -> 0 < W < safeBound ->
  (forall c, In c chunks -> 0 <= chunkLengthOf c <= W) ->
  chunks <> [] ->
  forall cur n,
    splitResult e chunks cur n
      (proportionalLoop (Num d) W (Num e) chunks (Num cur) n).
Proof.
  intros Hd HW. induction chunks as [|c rest IH]; intros Hw Hne cur n; [contradiction|].
  destruct rest as [|c' rest'].
  - cbn. unfold splitResult; cbn. repeat split; auto. exists e. auto.
  - destruct (roundedShare_number d (chunkLengthOf c) W Hd) as (k & Ek & Hk); auto.
    { specialize (Hw c (or_introl eq_refl)). lia. }
    assert (Hw' : forall x, In x (c' :: rest') -> 0 <= chunkLengthOf x <= W)
      by (intros x Hx; apply Hw; right; exact Hx).
    specialize (IH Hw' ltac:(discriminate) (cur + k) (n + 1)).
    change (proportionalLoop (Num d) W (Num e) (c :: c' :: rest') (Num cur) n)
      with (let (pushed, n') :=
              proportionalLoop (Num d) W (Num e) (c' :: rest')
                (nadd (Num cur) (roundedShare (Num d) (chunkLengthOf c) W)) (n + 1) in
            (mkEntry (Num n) (Num cur)
               (nadd (Num cur) (roundedShare (Num d) (chunkLengthOf c) W)) c :: pushed, n')).
    rewrite Ek. cbn [nadd lift2].
    destruct (proportionalLoop (Num d) W (Num e) (c' :: rest') (Num (cur + k)) (n + 1))
      as [pushed n'] eqn:E.
    destruct IH as (T & N & S & C & F). cbn [fst snd] in *.
    unfold splitResult; cbn [fst snd map numberedFrom chained startTime endTime text id].
    repeat split; auto.
    + rewrite T. reflexivity.
    + rewrite S. cbn [length]. lia.
    + exists (cur + k). auto.
    + destruct pushed as [|p ps]; [discriminate T|].
      cbn [removelast]. constructor; [|exact F].
      exists cur, (cur + k). cbn. repeat split; lia.
Qed.

Lemma equalLoop_result (chunks : list jsstring) :
  0 <= k0 -> chunks <> [] ->
  forall cur n,
    splitResult e chunks cur n (equalLoop (Num k0) (Num e) chunks (Num cur) n).
Proof.
  intros Hk. induction chunks as [|c rest IH]; intros Hne cur n; [contradiction|].
  destruct rest as [|c' rest'].
  - cbn. unfold splitResult; cbn. repeat split; auto. exists e. auto.
  - specialize (IH ltac:(discriminate) (cur + k0) (n + 1)).
    change (equalLoop (Num k0) (Num e) (c :: c' :: rest') (Num cur) n)
      with (let (pushed, n') :=
              equalLoop (Num k0) (Num e) (c' :: rest') (Num (cur + k0)) (n + 1) in
            (mkEntry (Num n) (Num cur) (Num (cur + k0)) c :: pushed, n')).
    destruct (equalLoop (Num k0) (Num e) (c' :: rest') (Num (cur + k0)) (n + 1))
      as [pushed n'] eqn:E.
    destruct IH as (T & N & S & C & F). cbn [fst snd] in *.
    unfold splitResult; cbn [fst snd map numberedFrom chained startTime endTime text id].
    repeat split; auto.
    + rewrite T. reflexivity.
    + rewrite S. cbn [length]. lia.
    + exists (cur + k0). auto.
    + destruct pushed as [|p ps]; [discriminate T|].
      cbn [removelast]. constructor; [|exact F].
      exists cur, (cur + k0). cbn. repeat split; lia.
Qed.

End Loops.

(** A split of an entry that goes forward.  For an original entry with
    [endTime >= startTime] and an array of which N >= 2 chunks are left,
    the N entries added carry the chunks in order, are numbered from the
    counter, and form a chain from the start of the original: the first
    starts at [startTime], each next one starts where the one before
    ended, the last ends at [endTime] exactly; every entry but the last
    has [endTime >= startTime].  (The duration and the total length are
    below 2^53.) *)
Theorem split_chains_over_span (originalEntry : SrtEntry) (a : list element)
    (newId s e : Z) :
  startTime originalEntry = Num s ->
  endTime originalEntry = Num e ->
  s <= e ->
  e - s < safeBound ->
  (2 <= length (textChunksOf a))%nat ->
  totalLengthOf (textChunksOf a) < safeBound ->
  let res := reallocate originalEntry (TextArray a) newId in
  length (fst res) = length (textChunksOf a)
  /\ map text (fst res) = textChunksOf a
  /\ numberedFrom newId (fst res)
  /\ snd res = newId + Z.of_nat (length (textChunksOf a))
  /\ chained s (fst res) e
  /\ Forall forward (removelast (fst res)).
Proof.
  intros Hs He Hle Hd Hn HW res.
  assert (Hne : textChunksOf a <> []) by (destruct (textChunksOf a); [simpl in Hn; lia|discriminate]).
  assert (R : splitResult e (textChunksOf a) s newId res).
  { subst res. unfold reallocate.
    replace (length (textChunksOf a) <? 2)%nat with false
      by (symmetry; apply Nat.ltb_ge; exact Hn).
    rewrite Hs, He. cbn [nsub lift2 ngtb].
    destruct (0 <? totalLengthOf (textChunksOf a)) eqn:EW;
      destruct (0 <? e - s) eqn:ED; cbn [andb].
    - apply Z.ltb_lt in EW, ED.
      apply proportionalLoop_result; auto; try lia.
      intros c Hc. apply chunkLength_le_total; exact Hc.
    - cbn [floorDiv orZero]. apply equalLoop_result; auto.
      apply Z.ltb_ge in ED. replace (e - s) with 0 by lia. reflexivity.
    - cbn [floorDiv orZero]. apply equalLoop_result; auto.
      apply Z.div_pos; lia.
    - cbn [floorDiv orZero]. apply equalLoop_result; auto.
      apply Z.div_pos; lia. }
  destruct R as (T & N & S & C & F).
  repeat split; auto.
  rewrite <- T, length_map. reflexivity.
Qed.

Lemma split_chains_over_span_witness :
  let res := reallocate (exampleEntry (Num 5) (str "A")) (TextArray exampleChunks) 1 in
  length (fst res) = 2%nat
  /\ map text (fst res) = [str "AB"; str "ABCD"]
  /\ numberedFrom 1 (fst res)
  /\ snd res = 3
  /\ chained 1000 (fst res) 5000
  /\ Forall forward (removelast (fst res)).
Proof.
  apply (split_chains_over_span (exampleEntry (Num 5) (str "A")) exampleChunks 1 1000 5000).
  - reflexivity.
  - reflexivity.
  - lia.
  - reflexivity.
  - simpl. lia.
  - reflexivity.
Defined.

(** C1.  The proportional branch pins the last entry to the end of the
    original and chains the others from its start, but does not keep the
    rounded shares inside the span: on an entry from 0 to 2 and four
    chunks of one letter each of the first three chunks gets
    [Math.round (2 * (1 / 4)) = 1] millisecond, so the third entry ends at
    3, after the end of the original, and the last entry starts at 3 and
    ends at 2.  The equal split of the same loop, which takes the floor of
    its share, stays inside the span on the same entry and chunks. *)
Theorem split_last_entry_runs_backward :
  startTime shortEntry = Num 0 /\ endTime shortEntry = Num 2
  /\ textChunksOf fourChunks = [str "a"; str "b"; str "c"; str "d"]
  /\ roundedShare (Num 2) 1 4 = Num 1
  /\ fst (reallocate shortEntry (TextArray fourChunks) 1) =
       [mkEntry (Num 1) (Num 0) (Num 1) (str "a");
        mkEntry (Num 2) (Num 1) (Num 2) (str "b");
        mkEntry (Num 3) (Num 2) (Num 3) (str "c");
        mkEntry (Num 4) (Num 3) (Num 2) (str "d")]
  /\ ~ Forall forward (fst (reallocate shortEntry (TextArray fourChunks) 1))
  /\ fst (equalLoop (orZero (floorDiv (Num 2) 4)) (Num 2) (textChunksOf fourChunks)
            (Num 0) 1) =
       [mkEntry (Num 1) (Num 0) (Num 0) (str "a");
        mkEntry (Num 2) (Num 0) (Num 0) (str "b");
        mkEntry (Num 3) (Num 0) (Num 0) (str "c");
        mkEntry (Num 4) (Num 0) (Num 2) (str "d")].
Proof.
  assert (E : fst (reallocate shortEntry (TextArray fourChunks) 1) =
       [mkEntry (Num 1) (Num 0) (Num 1) (str "a");
        mkEntry (Num 2) (Num 1) (Num 2) (str "b");
        mkEntry (Num 3) (Num 2) (Num 3) (str "c");
        mkEntry (Num 4) (Num 3) (Num 2) (str "d")]) by (vm_compute; reflexivity).
  split; [reflexivity|]. split; [reflexivity|]. split; [reflexivity|].
  split; [vm_compute; reflexivity|].
  split; [exact E|].
  split; [|vm_compute; reflexivity].
  rewrite E. intros F.
  repeat match goal with H : Forall _ (_ :: _) |- _ => inversion H; clear H; subst end.
  match goal with H : forward (mkEntry (Num 4) _ _ _) |- _ =>
    destruct H as (x & y & Hx & Hy & Hxy); cbn in Hx, Hy; injection Hx; injection Hy; lia
  end.
Qed.

(** C8.  The example of the specification: the chunks weigh 2 and 4, 6 in
    all, the duration is 4000, the share of the first chunk is
    [Math.round (4000 * (2 / 6)) = 1333]; two entries are added, from 1000
    to 2333 and from 2333 to 5000. *)
Theorem example_AB_ABCD (i : number) (txt : jsstring) (newId : Z) :
  map chunkLengthOf (textChunksOf exampleChunks) = [2; 4]
  /\ totalLengthOf (textChunksOf exampleChunks) = 6
  /\ roundedShare (Num 4000) 2 6 = Num 1333
  /\ reallocate (exampleEntry i txt) (TextArray exampleChunks) newId =
       ([mkEntry (Num newId) (Num 1000) (Num 2333) (str "AB");
         mkEntry (Num (newId + 1)) (Num 2333) (Num 5000) (str "ABCD")],
        newId + 1 + 1).
Proof.
  assert (R : roundedShare (Num 4000) 2 6 = Num 1333) by (vm_compute; reflexivity).
  split; [reflexivity|]. split; [reflexivity|]. split; [exact R|].
  unfold reallocate, exampleEntry.
  change (textChunksOf exampleChunks) with [str "AB"; str "ABCD"].
  cbn [length Nat.ltb Nat.leb startTime endTime nsub lift2].
  change (totalLengthOf [str "AB"; str "ABCD"]) with 6.
  change (5000 - 1000) with 4000.
  cbn [Z.ltb Z.compare ngtb andb proportionalLoop].
  change (chunkLengthOf (str "AB")) with 2. rewrite R. reflexivity.
Qed.

(** ** The loop over the processed entries *)

Lemma numberedFrom_app (l1 l2 : list SrtEntry) (n : Z) :
  numberedFrom n l1 -> numberedFrom (n + Z.of_nat (length l1)) l2 ->
  numberedFrom n (l1 ++ l2).
Proof.
  revert n. induction l1 as [|x l1 IH]; intros n H1 H2.
  - cbn [app length] in *. replace (n + Z.of_nat 0) with n in H2 by lia. exact H2.
  - destruct H1 as [Hx H1]. cbn [app numberedFrom]. split; [exact Hx|].
    apply IH; [exact H1|].
    replace (n + 1 + Z.of_nat (length l1)) with (n + Z.of_nat (length (x :: l1)))
      by (cbn [length]; lia).
    exact H2.
Qed.

Lemma proportionalLoop_numbered (d : number) (W : Z) (e : number)
    (chunks : list jsstring) :
  forall cur n,
    numberedFrom n (fst (proportionalLoop d W e chunks cur n))
    /\ snd (proportionalLoop d W e chunks cur n)
       = n + Z.of_nat (length (fst (proportionalLoop d W e chunks cur n))).
Proof.
  induction chunks as [|c rest IH]; intros cur n; [cbn; split; [exact I|lia]|].
  destruct rest as [|c' rest'].
  - cbn. split; [auto|lia].
  - set (cur' := nadd cur (roundedShare d (chunkLengthOf c) W)).
    change (proportionalLoop d W e (c :: c' :: rest') cur n)
      with (let (pushed, n') := proportionalLoop d W e (c' :: rest') cur' (n + 1) in
            (mkEntry (Num n) cur cur' c :: pushed, n')).
    destruct (IH cur' (n + 1)) as [N S].
    destruct (proportionalLoop d W e (c' :: rest') cur' (n + 1)) as [pushed n'].
    cbn [fst snd numberedFrom id length] in *. split; [auto|lia].
Qed.

Lemma equalLoop_numbered (k e : number) (chunks : list jsstring) :
  forall cur n,
    numberedFrom n (fst (equalLoop k e chunks cur n))
    /\ snd (equalLoop k e chunks cur n)
       = n + Z.of_nat (length (fst (equalLoop k e chunks cur n))).
Proof.
  induction chunks as [|c rest IH]; intros cur n; [cbn; split; [exact I|lia]|].
  cbn [equalLoop].
  set (endT := match rest with [] => e | _ :: _ => nadd cur k end).
  destruct (IH endT (n + 1)) as [N S].
  destruct (equalLoop k e rest endT (n + 1)) as [pushed n'].
  cbn [fst snd numberedFrom id length] in *. split; [auto|lia].
Qed.

(** Whatever the decision, the entries added for it are numbered from the
    counter, which moves by their number. *)
Lemma reallocate_numbered (originalEntry : SrtEntry) (t : processedText) (n : Z) :
  numberedFrom n (fst (reallocate originalEntry t n))
  /\ snd (reallocate originalEntry t n)
     = n + Z.of_nat (length (fst (reallocate originalEntry t n))).
Proof.
  destruct t as [s|a|]; cbn [reallocate]; try (cbn; split; [auto|lia]).
  destruct (length (textChunksOf a) <? 2)%nat; [cbn; split; [auto|lia]|].
  destruct (_ && _)%bool; [apply proportionalLoop_numbered|apply equalLoop_numbered].
Qed.

(** The ids of the new file are 1, 2, 3, ... in the order of emission,
    whatever the ids of the original entries and of the decisions. *)
Lemma retime_numbered (originalEntries : list SrtEntry)
    (processedEntriesFromAI : list ProcessedEntry) :
  numberedFrom 1 (retime originalEntries processedEntriesFromAI).
Proof.
  unfold retime. cbv zeta.
  set (m := Map_new _).
  assert (G : forall l st,
             numberedFrom 1 (newSrtEntries st) ->
             newId st = 1 + Z.of_nat (length (newSrtEntries st)) ->
             numberedFrom 1 (newSrtEntries (fold_left (loopStep m) l st))).
  { induction l as [|pe l IH]; intros st H1 H2; [exact H1|].
    cbn [fold_left]. apply IH; unfold loopStep.
    - destruct (pid pe) as [k|]; [|exact H1].
      destruct (Map_get m k) as [o|]; [|exact H1].
      destruct (reallocate_numbered o (ptext pe) (newId st)) as [N S].
      destruct (reallocate o (ptext pe) (newId st)) as [pushed n']. cbn [newSrtEntries fst] in *.
      apply numberedFrom_app; [exact H1|]. rewrite <- H2. exact N.
    - destruct (pid pe) as [k|]; [|exact H2].
      destruct (Map_get m k) as [o|]; [|exact H2].
      destruct (reallocate_numbered o (ptext pe) (newId st)) as [N S].
      destruct (reallocate o (ptext pe) (newId st)) as [pushed n'].
      cbn [newSrtEntries newId fst snd] in *. rewrite length_app. lia. }
  apply G; [exact I|reflexivity].
Qed.

(* ================================================================== *)
(** * The time codec *)
(* ================================================================== *)

Lemma digit_cases (c : ascii) :
  isDigit c = true ->
  In c ["0"; "1"; "2"; "3"; "4"; "5"; "6"; "7"; "8"; "9"]%char.
Proof.
  destruct c as [[] [] [] [] [] [] [] []]; intros H; try discriminate H;
    cbn; tauto.
Qed.

Ltac digit_case c H :=
  let D := fresh "D" in
  pose proof (digit_cases c H) as D; cbn [In] in D;
  repeat (destruct D as [D|D]; [subst c|]); [..|contradiction].

Lemma digit_facts (c : ascii) :
  isDigit c = true ->
  isWhiteSpace c = false /\ Ascii.eqb c "-" = false /\ Ascii.eqb c "+" = false
  /\ isColonOrComma c = false /\ isLF c = false /\ 0 <= digitValue c <= 9.
Proof.
  intros H. digit_case c H; vm_compute; repeat split; congruence.
Qed.

Lemma parseInt_two (a b : ascii) :
  isDigit a = true -> isDigit b = true -> parseInt [a; b] = Num (twoDigits a b).
Proof.
  intros Ha Hb.
  destruct (digit_facts a Ha) as (Wa & Ma & Pa & _).
  unfold parseInt, trimStart. cbn [dropWhile]. rewrite Wa, Ma, Pa.
  cbn [takeWhile]. rewrite Ha, Hb. cbn [digitsValue]. unfold twoDigits.
  f_equal; lia.
Qed.

Lemma parseInt_three (a b c : ascii) :
  isDigit a = true -> isDigit b = true -> isDigit c = true ->
  parseInt [a; b; c] = Num (threeDigits a b c).
Proof.
  intros Ha Hb Hc.
  destruct (digit_facts a Ha) as (Wa & Ma & Pa & _).
  unfold parseInt, trimStart. cbn [dropWhile]. rewrite Wa, Ma, Pa.
  cbn [takeWhile]. rewrite Ha, Hb, Hc. cbn [digitsValue]. unfold threeDigits.
  f_equal; lia.
Qed.

(** A string of the shape is twelve code units, nine of them digits. *)
Lemma isTimestamp_shape (s : jsstring) :
  isTimestamp s = true ->
  exists h1 h2 m1 m2 s1 s2 f1 f2 f3,
    s = [h1; h2; ":"; m1; m2; ":"; s1; s2; ","; f1; f2; f3]%char
    /\ isDigit h1 = true /\ isDigit h2 = true /\ isDigit m1 = true
    /\ isDigit m2 = true /\ isDigit s1 = true /\ isDigit s2 = true
    /\ isDigit f1 = true /\ isDigit f2 = true /\ isDigit f3 = true.
Proof.
  intros H.
  do 12 (destruct s as [|? s]; [discriminate H|]).
  destruct s; [|discriminate H].
  cbn [isTimestamp] in H.
  repeat match type of H with (_ && _)%bool = true => apply andb_prop in H; destruct H as [H ?] end.
  repeat match goal with E : Ascii.eqb _ _ = true |- _ => apply Ascii.eqb_eq in E; subst end.
  do 9 eexists. split; [reflexivity|]. repeat split; assumption.
Qed.

Lemma timeToMs_shape (h1 h2 m1 m2 s1 s2 f1 f2 f3 : ascii) :
  isDigit h1 = true -> isDigit h2 = true -> isDigit m1 = true ->
  isDigit m2 = true -> isDigit s1 = true -> isDigit s2 = true ->
  isDigit f1 = true -> isDigit f2 = true -> isDigit f3 = true ->
  timeToMs [h1; h2; ":"; m1; m2; ":"; s1; s2; ","; f1; f2; f3]%char
  = Num (twoDigits h1 h2 * 3600000 + twoDigits m1 m2 * 60000
         + twoDigits s1 s2 * 1000 + threeDigits f1 f2 f3).
Proof.
  intros Hh1 Hh2 Hm1 Hm2 Hs1 Hs2 Hf1 Hf2 Hf3.
  unfold timeToMs, split. cbn [splitPieces].
  repeat match goal with
         | H : isDigit ?c = true |- context [isColonOrComma ?c] =>
             rewrite (proj1 (proj2 (proj2 (proj2 (digit_facts c H)))))
         end.
  change (isColonOrComma ":") with true. change (isColonOrComma ",") with true.
  cbn [nth_error ToString].
  rewrite !parseInt_two, parseInt_three by assumption.
  reflexivity.
Qed.

Lemma timestampValue_bounds (s : jsstring) :
  isTimestamp s = true -> 0 <= timestampValue s <= 362439999.
Proof.
  intros H. destruct (isTimestamp_shape s H)
    as (h1 & h2 & m1 & m2 & s1 & s2 & f1 & f2 & f3 & -> & Hh1 & Hh2 & Hm1 & Hm2
        & Hs1 & Hs2 & Hf1 & Hf2 & Hf3).
  cbn [timestampValue]. unfold twoDigits, threeDigits.
  repeat match goal with
         | H : isDigit ?c = true |- _ =>
             pose proof (proj2 (proj2 (proj2 (proj2 (proj2 (digit_facts c H))))));
             clear H
         end.
  lia.
Qed.

Lemma timeToMs_shape_value (s : jsstring) :
  isTimestamp s = true ->
  timeToMs s = Num (timestampValue s) /\ 0 <= timestampValue s <= 362439999.
Proof.
  intros H. split; [|apply timestampValue_bounds; exact H].
  destruct (isTimestamp_shape s H)
    as (h1 & h2 & m1 & m2 & s1 & s2 & f1 & f2 & f3 & -> & Hh1 & Hh2 & Hm1 & Hm2
        & Hs1 & Hs2 & Hf1 & Hf2 & Hf3).
  rewrite timeToMs_shape by assumption. reflexivity.
Qed.

(** C6, as the code has it.  For every string of the shape
    [HH:MM:SS,mmm], [timeToMs] returns the offset in milliseconds the string
    denotes, a number between 0 and 362439999. *)
Theorem timeToMs_of_timestamp (s : jsstring) :
  isTimestamp s = true ->
  timeToMs s = Num (timestampValue s) /\ 0 <= timestampValue s <= 362439999.
Proof.
  intros H. destruct (isTimestamp_shape s H)
    as (h1 & h2 & m1 & m2 & s1 & s2 & f1 & f2 & f3 & -> & Hh1 & Hh2 & Hm1 & Hm2
        & Hs1 & Hs2 & Hf1 & Hf2 & Hf3).
  split.
  - unfold timeToMs, split. cbn [splitPieces].
    repeat match goal with
           | D : isDigit ?c = true |- context [isColonOrComma ?c] =>
               rewrite (proj1 (proj2 (proj2 (proj2 (digit_facts c D)))))
           end.
    change (isColonOrComma ":") with true. change (isColonOrComma ",") with true.
    cbn [nth_error ToString].
    rewrite !parseInt_two, parseInt_three by assumption.
    reflexivity.
  - cbn [timestampValue]. unfold twoDigits, threeDigits.
    repeat match goal with
           | D : isDigit ?c = true |- _ =>
               pose proof (proj2 (proj2 (proj2 (proj2 (proj2 (digit_facts c D))))));
               clear D
           end.
    lia.
Qed.

Lemma timeToMs_of_timestamp_witness :
  timeToMs (str "01:02:03,004") = Num (timestampValue (str "01:02:03,004"))
  /\ 0 <= timestampValue (str "01:02:03,004") <= 362439999.
Proof.
  apply (timeToMs_of_timestamp (str "01:02:03,004")). reflexivity.
Defined.

(** C6 as it is stated fails: a string that has not the shape gets a
    number all the same, no error. *)
Lemma timeToMs_accepts_other_shapes :
  isTimestamp (str "1:2:3,4") = false /\ timeToMs (str "1:2:3,4") = Num 3723004.
Proof. split; reflexivity. Qed.

Lemma pad_two (a b : ascii) :
  isDigit a = true -> isDigit b = true ->
  padStart 2 (String_ (Num (twoDigits a b))) = [a; b].
Proof.
  intros Ha Hb. digit_case a Ha; digit_case b Hb; reflexivity.
Qed.

Lemma pad_three (a b c : ascii) :
  isDigit a = true -> isDigit b = true -> isDigit c = true ->
  padStart 3 (String_ (Num (threeDigits a b c))) = [a; b; c].
Proof.
  intros Ha Hb Hc. digit_case a Ha; digit_case b Hb; digit_case c Hc; reflexivity.
Qed.

Lemma msToTime_fields (H M S F : Z) :
  0 <= H -> 0 <= M < 60 -> 0 <= S < 60 -> 0 <= F < 1000 ->
  msToTime (Num (H * 3600000 + M * 60000 + S * 1000 + F))
  = padStart 2 (String_ (Num H)) ++ str ":" ++ padStart 2 (String_ (Num M))
    ++ str ":" ++ padStart 2 (String_ (Num S)) ++ str "," ++ padStart 3 (String_ (Num F)).
Proof.
  intros HH HM HS HF. unfold msToTime. cbn [floorDiv nrem lift2].
  assert (E1 : (H * 3600000 + M * 60000 + S * 1000 + F) / 1000 = H * 3600 + M * 60 + S).
  { symmetry. apply Z.div_unique with F; lia. }
  rewrite E1.
  assert (E2 : (H * 3600 + M * 60 + S) / 3600 = H).
  { symmetry. apply Z.div_unique with (M * 60 + S); lia. }
  assert (E3 : Z.rem (H * 3600 + M * 60 + S) 3600 = M * 60 + S).
  { rewrite Z.rem_mod_nonneg by lia. symmetry. apply Z.mod_unique with H; lia. }
  assert (E4 : (M * 60 + S) / 60 = M).
  { symmetry. apply Z.div_unique with S; lia. }
  assert (E5 : Z.rem (H * 3600 + M * 60 + S) 60 = S).
  { rewrite Z.rem_mod_nonneg by lia. symmetry. apply Z.mod_unique with (H * 60 + M); lia. }
  assert (E6 : Z.rem (H * 3600000 + M * 60000 + S * 1000 + F) 1000 = F).
  { rewrite Z.rem_mod_nonneg by lia. symmetry.
    apply Z.mod_unique with (H * 3600 + M * 60 + S); lia. }
  rewrite E2, E3, E4, E5, E6. reflexivity.
Qed.

(** C3, as the code has it.  For every string [s] of the shape
    [HH:MM:SS,mmm] whose minutes and seconds are below 60,
    [msToTime (timeToMs s)] is [s]. *)
Theorem timestamp_round_trip (s : jsstring) :
  isTimestamp s = true -> inClockRange s = true ->
  msToTime (timeToMs s) = s.
Proof.
  intros H R. destruct (isTimestamp_shape s H)
    as (h1 & h2 & m1 & m2 & s1 & s2 & f1 & f2 & f3 & -> & Hh1 & Hh2 & Hm1 & Hm2
        & Hs1 & Hs2 & Hf1 & Hf2 & Hf3).
  rewrite timeToMs_shape by assumption.
  cbn [inClockRange] in R. apply andb_prop in R. destruct R as [Rm Rs].
  apply Z.ltb_lt in Rm, Rs.
  rewrite msToTime_fields.
  - rewrite !pad_two, pad_three by assumption. reflexivity.
  - unfold twoDigits.
    pose proof (digit_facts h1 Hh1). pose proof (digit_facts h2 Hh2). lia.
  - unfold twoDigits.
    pose proof (digit_facts m1 Hm1). pose proof (digit_facts m2 Hm2). lia.
  - unfold twoDigits.
    pose proof (digit_facts s1 Hs1). pose proof (digit_facts s2 Hs2). lia.
  - unfold threeDigits.
    pose proof (digit_facts f1 Hf1). pose proof (digit_facts f2 Hf2).
    pose proof (digit_facts f3 Hf3). lia.
Qed.

Lemma timestamp_round_trip_witness :
  msToTime (timeToMs (str "99:59:59,999")) = str "99:59:59,999".
Proof.
  apply (timestamp_round_trip (str "99:59:59,999")); reflexivity.
Defined.

(** C3 as it is stated fails: sixty minutes are printed as one hour. *)
Lemma timestamp_round_trip_fails_at_60_minutes :
  isTimestamp (str "00:60:00,000") = true
  /\ msToTime (timeToMs (str "00:60:00,000")) = str "01:00:00,000"
  /\ msToTime (timeToMs (str "00:60:00,000")) <> str "00:60:00,000".
Proof. split; [reflexivity|]. split; [reflexivity|]. discriminate. Qed.

(* ================================================================== *)
(** * Strings: [split], [join], [trim], [replace] *)
(* ================================================================== *)

Section Split.

Variable p : ascii -> bool.

Lemma split_nil : split p [] = [[]].
Proof. reflexivity. Qed.

Lemma split_cons (c : ascii) (s : jsstring) :
  split p (c :: s) =
    if p c then [] :: split p s
    else match split p s with
         | h :: t => (c :: h) :: t
         | [] => []
         end.
Proof.
  unfold split. cbn [splitPieces]. destruct (splitPieces p s) as [h t].
  destruct (p c); reflexivity.
Qed.

Lemma split_not_nil (s : jsstring) : split p s <> [].
Proof. unfold split. destruct (splitPieces p s). discriminate. Qed.

Lemma split_app (a s : jsstring) :
  Forall (fun c => p c = false) a ->
  split p (a ++ s) =
    match split p s with
    | h :: t => (a ++ h) :: t
    | [] => []
    end.
Proof.
  induction 1 as [|c a Hc _ IH]; cbn [app].
  - destruct (split p s); reflexivity.
  - rewrite split_cons, Hc, IH. destruct (split p s); reflexivity.
Qed.

Lemma split_pieces_free (s : jsstring) :
  Forall (Forall (fun c => p c = false)) (split p s).
Proof.
  induction s as [|c s IH].
  - repeat constructor.
  - rewrite split_cons. destruct (p c) eqn:E.
    + constructor; [constructor|exact IH].
    + destruct (split p s) as [|h t]; [constructor|].
      inversion IH; subst. constructor; [constructor; assumption|assumption].
Qed.

End Split.

Lemma split_join (ls : list jsstring) :
  ls <> [] -> Forall lfFree ls -> split isLF (join [LF] ls) = ls.
Proof.
  induction ls as [|l ls IH]; intros Hne H; [contradiction|].
  inversion H as [|? ? Hl Hls]; subst.
  destruct ls as [|l' ls'].
  - cbn [join]. rewrite <- (List.app_nil_r l) at 1. rewrite split_app by exact Hl.
    rewrite split_nil, List.app_nil_r. reflexivity.
  - change (join [LF] (l :: l' :: ls')) with (l ++ LF :: join [LF] (l' :: ls')).
    rewrite split_app by exact Hl. rewrite split_cons.
    change (isLF LF) with true. rewrite IH by (discriminate || assumption).
    rewrite List.app_nil_r. reflexivity.
Qed.

Lemma join_split (s : jsstring) : join [LF] (split isLF s) = s.
Proof.
  induction s as [|c s IH]; [reflexivity|].
  rewrite split_cons. destruct (isLF c) eqn:E.
  - apply Ascii.eqb_eq in E. subst c.
    pose proof (split_not_nil isLF s) as Hne.
    destruct (split isLF s) as [|h t]; [contradiction|].
    change (join [LF] ([] :: h :: t)) with (LF :: join [LF] (h :: t)).
    rewrite IH. reflexivity.
  - pose proof (split_not_nil isLF s) as Hne.
    destruct (split isLF s) as [|h t]; [contradiction|].
    rewrite <- IH. destruct t; reflexivity.
Qed.

Lemma split_lines_lfFree (s : jsstring) : Forall lfFree (split isLF s).
Proof. exact (split_pieces_free isLF s). Qed.

(** ** [trim] *)

Lemma trimEnd_app (a r : jsstring) :
  trimEnd r <> [] -> trimEnd (a ++ r) = a ++ trimEnd r.
Proof.
  intros H. induction a as [|c a IH]; [reflexivity|].
  cbn [app trimEnd]. rewrite IH.
  destruct (a ++ trimEnd r) eqn:E; [|reflexivity].
  apply app_eq_nil in E. destruct E; contradiction.
Qed.

Lemma trimEnd_endsSolid (s : jsstring) : endsSolid s -> trimEnd s = s.
Proof.
  intros (q & c & -> & Hc).
  assert (E : trimEnd [c] = [c]) by (cbn; rewrite Hc; reflexivity).
  rewrite trimEnd_app; rewrite E; [reflexivity|discriminate].
Qed.

Lemma trimEnd_white (w : jsstring) :
  Forall (fun c => isWhiteSpace c = true) w -> trimEnd w = [].
Proof.
  induction 1 as [|c w Hc _ IH]; [reflexivity|].
  cbn [trimEnd]. rewrite IH, Hc. reflexivity.
Qed.

Lemma trimEnd_app_white (s w : jsstring) :
  endsSolid s -> Forall (fun c => isWhiteSpace c = true) w ->
  trimEnd (s ++ w) = s.
Proof.
  intros (q & c & -> & Hc) Hw. rewrite <- List.app_assoc.
  assert (E : trimEnd ([c] ++ w) = [c])
    by (cbn [app trimEnd]; rewrite (trimEnd_white w Hw), Hc; reflexivity).
  rewrite trimEnd_app; rewrite E; [reflexivity|discriminate].
Qed.

Lemma trimEnd_result (s : jsstring) : trimEnd s = [] \/ endsSolid (trimEnd s).
Proof.
  induction s as [|c s IH]; [left; reflexivity|].
  cbn [trimEnd]. destruct IH as [->|(q & d & E & Hd)].
  - destruct (isWhiteSpace c) eqn:Hc; [left; reflexivity|].
    right. exists [], c. split; [reflexivity|exact Hc].
  - rewrite E. right. destruct (q ++ [d]) eqn:E'.
    + destruct q; discriminate E'.
    + rewrite <- E'. exists (c :: q), d. split; [reflexivity|exact Hd].
Qed.

Lemma trimEnd_prefix (s : jsstring) : exists w, s = trimEnd s ++ w.
Proof.
  induction s as [|c s (w & IH)]; [exists []; reflexivity|].
  cbn [trimEnd]. destruct (trimEnd s) as [|d r] eqn:E.
  - destruct (isWhiteSpace c).
    + exists (c :: s). reflexivity.
    + exists s. reflexivity.
  - exists w. cbn [app] in *. rewrite <- IH. reflexivity.
Qed.

Lemma trimStart_suffix (s : jsstring) : exists w, s = w ++ trimStart s.
Proof.
  unfold trimStart. induction s as [|c s (w & IH)]; [exists []; reflexivity|].
  cbn [dropWhile]. destruct (isWhiteSpace c).
  - exists (c :: w). cbn [app]. rewrite <- IH. reflexivity.
  - exists []. reflexivity.
Qed.

Lemma trimStart_head (s : jsstring) (c : ascii) (r : jsstring) :
  trimStart s = c :: r -> isWhiteSpace c = false.
Proof.
  unfold trimStart. induction s as [|d s IH]; cbn [dropWhile]; [discriminate|].
  destruct (isWhiteSpace d) eqn:E; [exact IH|].
  intros [= <- <-]. exact E.
Qed.

Lemma trimStart_solid (c : ascii) (r : jsstring) :
  isWhiteSpace c = false -> trimStart (c :: r) = c :: r.
Proof. intros H. unfold trimStart. cbn [dropWhile]. rewrite H. reflexivity. Qed.

Lemma trimEnd_head (s : jsstring) (c : ascii) :
  isWhiteSpace c = false -> exists r, trimEnd (c :: s) = c :: r.
Proof.
  intros H. cbn [trimEnd]. destruct (trimEnd s).
  - rewrite H. exists []. reflexivity.
  - eexists. reflexivity.
Qed.

(** What [trim] returns starts and ends with a code unit that is not white
    space, unless it is empty. *)
Lemma trim_result (s : jsstring) :
  trim s = []
  \/ (endsSolid (trim s) /\ exists c r, trim s = c :: r /\ isWhiteSpace c = false).
Proof.
  unfold trim. destruct (trimStart s) as [|c r] eqn:E; [left; reflexivity|].
  right. pose proof (trimStart_head s c r E) as Hc.
  destruct (trimEnd_head r c Hc) as (r' & E').
  split.
  - destruct (trimEnd_result (c :: r)) as [H|H]; [rewrite E' in H; discriminate|exact H].
  - exists c, r'. split; assumption.
Qed.

Lemma trim_id (s : jsstring) (c : ascii) (r : jsstring) :
  s = c :: r -> isWhiteSpace c = false -> endsSolid s -> trim s = s.
Proof.
  intros -> Hc He. unfold trim. rewrite trimStart_solid by exact Hc.
  apply trimEnd_endsSolid. exact He.
Qed.

(** ** [replace (/\r\n/g, '\n')] *)

Lemma replaceCRLF_cons (c : ascii) (s : jsstring) :
  Ascii.eqb c CR = false -> replaceCRLF (c :: s) = c :: replaceCRLF s.
Proof.
  intros H. cbn [replaceCRLF]. destruct s; [reflexivity|]. rewrite H. reflexivity.
Qed.

Lemma replaceCRLF_two (c d : ascii) (r : jsstring) :
  replaceCRLF (c :: d :: r) =
    if (Ascii.eqb c CR && Ascii.eqb d LF)%bool then LF :: replaceCRLF r
    else c :: replaceCRLF (d :: r).
Proof. reflexivity. Qed.

Lemma replaceCRLF_length (s : jsstring) : (length (replaceCRLF s) <= length s)%nat.
Proof.
  induction s as [s IH] using (well_founded_induction
    (Wf_nat.well_founded_ltof _ (@length ascii))).
  destruct s as [|c [|d r]]; [cbn; lia|cbn; lia|].
  rewrite replaceCRLF_two.
  destruct (Ascii.eqb c CR && Ascii.eqb d LF)%bool.
  - specialize (IH r ltac:(unfold Wf_nat.ltof; cbn; lia)). cbn [length]. lia.
  - specialize (IH (d :: r) ltac:(unfold Wf_nat.ltof; cbn; lia)).
    cbn [length] in *. lia.
Qed.

(** A string that [replace] leaves alone and that does not end with a
    carriage return can be followed by anything. *)
Lemma replaceCRLF_app (t b : jsstring) :
  replaceCRLF t = t -> (forall q, t <> q ++ [CR]) ->
  replaceCRLF (t ++ b) = t ++ replaceCRLF b.
Proof.
  induction t as [|c t IH]; intros Ht Hend; [reflexivity|].
  destruct (Ascii.eqb c CR) eqn:Ec.
  - apply Ascii.eqb_eq in Ec. subst c.
    destruct t as [|d t'].
    + exfalso. apply (Hend []). reflexivity.
    + rewrite replaceCRLF_two in Ht. cbn [app]. rewrite replaceCRLF_two.
      change (Ascii.eqb CR CR) with true in *. cbn [andb] in *.
      destruct (Ascii.eqb d LF) eqn:Ed.
      * exfalso. pose proof (replaceCRLF_length t') as L.
        apply (f_equal (@length ascii)) in Ht. cbn [length] in Ht. lia.
      * injection Ht as Ht.
        change (d :: t' ++ b) with ((d :: t') ++ b). rewrite IH; [reflexivity|exact Ht|].
        intros q Hq. apply (Hend (CR :: q)). cbn [app]. rewrite <- Hq. reflexivity.
  - cbn [app]. rewrite replaceCRLF_cons by exact Ec.
    rewrite replaceCRLF_cons in Ht by exact Ec. injection Ht as Ht.
    rewrite IH; [reflexivity|exact Ht|].
    intros q Hq. apply (Hend (c :: q)). cbn [app]. rewrite <- Hq. reflexivity.
Qed.

Lemma replaceCRLF_plain_app (p t : jsstring) :
  Forall (fun c => Ascii.eqb c CR = false) p ->
  replaceCRLF (p ++ t) = p ++ replaceCRLF t.
Proof.
  induction 1 as [|c p Hc _ IH]; [reflexivity|].
  cbn [app]. rewrite replaceCRLF_cons by exact Hc. rewrite IH. reflexivity.
Qed.

(* ================================================================== *)
(** * The blocks of a file *)
(* ================================================================== *)

Lemma blankLineHere_shorter (s r : jsstring) :
  blankLineHere s = Some r -> (length r < length s)%nat.
Proof.
  destruct s as [|c t]; cbn [blankLineHere]; [discriminate|].
  destruct (isLF c); [|discriminate].
  destruct (afterLastLF _); [|discriminate].
  intros H. injection H as <-. rewrite length_skipn. cbn [length]. lia.
Qed.

Lemma splitBlocksFrom_eq (s : jsstring) :
  splitBlocksFrom s =
    match blankLineHere s with
    | Some r => let (b, bs) := splitBlocksFrom r in ([], b :: bs)
    | None =>
        match s with
        | [] => ([], [])
        | c :: t => let (b, bs) := splitBlocksFrom t in (c :: b, bs)
        end
    end.
Proof.
  rewrite splitBlocksFrom_equation_1.
  destruct (inspect (blankLineHere s)) as [[r|] E];
    match goal with |- ?l = _ => set (lhs := l) end; rewrite E; subst lhs.
  - reflexivity.
  - destruct s; reflexivity.
Qed.

Lemma takeWhile_app {A} (f : A -> bool) (a b : list A) :
  exists w, takeWhile f (a ++ b) = takeWhile f a ++ w.
Proof.
  induction a as [|x a (w & IH)]; cbn [app takeWhile].
  - eexists. reflexivity.
  - destruct (f x).
    + exists w. rewrite IH. reflexivity.
    + exists []. reflexivity.
Qed.

Lemma takeWhile_stops {A} (f : A -> bool) (a b : list A) :
  Exists (fun x => f x = false) a -> takeWhile f (a ++ b) = takeWhile f a.
Proof.
  induction 1 as [x a Hx|x a _ IH]; cbn [app takeWhile].
  - rewrite Hx. reflexivity.
  - destruct (f x); [rewrite IH|]; reflexivity.
Qed.

Lemma takeWhile_all {A} (f : A -> bool) (a b : list A) :
  Forall (fun x => f x = true) a -> takeWhile f (a ++ b) = a ++ takeWhile f b.
Proof.
  induction 1 as [|x a Hx _ IH]; cbn [app takeWhile]; [reflexivity|].
  rewrite Hx, IH. reflexivity.
Qed.

Lemma takeWhile_sub {A} (f : A -> bool) (P : A -> Prop) (a : list A) :
  Forall P a -> Forall P (takeWhile f a).
Proof.
  induction 1 as [|x a Hx _ IH]; cbn [takeWhile]; [constructor|].
  destruct (f x); constructor; assumption.
Qed.

Lemma afterLastLF_none (w : jsstring) : afterLastLF w = None <-> lfFree w.
Proof.
  unfold lfFree. induction w as [|c w IH]; cbn [afterLastLF].
  - split; [constructor|reflexivity].
  - destruct (afterLastLF w) eqn:E.
    + split; [discriminate|]. intros H. inversion H; subst.
      destruct IH as [_ IH]. specialize (IH ltac:(assumption)). discriminate.
    + destruct (isLF c) eqn:Ec.
      * split; [discriminate|]. intros H. inversion H; subst. congruence.
      * split; [|reflexivity]. intros _. constructor; [exact Ec|].
        apply IH. reflexivity.
Qed.

Lemma lfFree_app (a b : jsstring) : lfFree (a ++ b) <-> lfFree a /\ lfFree b.
Proof. unfold lfFree. apply Forall_app. Qed.

Lemma blankLineHere_none_prefix (q v : jsstring) :
  blankLineHere (q ++ v) = None -> blankLineHere q = None.
Proof.
  destruct q as [|c q]; [reflexivity|]. cbn [app blankLineHere].
  destruct (isLF c); [|reflexivity].
  destruct (takeWhile_app isWhiteSpace q v) as (w & ->).
  destruct (afterLastLF (takeWhile isWhiteSpace q ++ w)) eqn:E; [discriminate|].
  intros _. apply afterLastLF_none in E. apply lfFree_app in E. destruct E as [E _].
  apply afterLastLF_none in E. rewrite E. reflexivity.
Qed.

Lemma blankLineHere_no_LF (c : ascii) (s : jsstring) :
  isLF c = false -> blankLineHere (c :: s) = None.
Proof. intros H. cbn [blankLineHere]. rewrite H. reflexivity. Qed.

(** A line feed followed by a line that has a code unit which is not white
    space starts no blank line. *)
Lemma blankLineHere_before_solid (l v : jsstring) :
  solid l -> blankLineHere (LF :: l ++ v) = None.
Proof.
  intros [Hl He]. cbn [blankLineHere]. change (isLF LF) with true. cbv iota.
  rewrite takeWhile_stops by exact He.
  assert (E : afterLastLF (takeWhile isWhiteSpace l) = None).
  { apply afterLastLF_none. apply takeWhile_sub. exact Hl. }
  rewrite E. reflexivity.
Qed.

(** Two line feeds, or three, before a code unit that is not white space
    are one separator. *)
Lemma blankLineHere_two (c : ascii) (r : jsstring) :
  isWhiteSpace c = false -> blankLineHere (LF :: LF :: c :: r) = Some (c :: r).
Proof.
  intros H. cbn [blankLineHere takeWhile]. change (isLF LF) with true.
  change (isWhiteSpace LF) with true. cbv iota. cbn [takeWhile]. rewrite H.
  reflexivity.
Qed.

Lemma blankLineHere_three (c : ascii) (r : jsstring) :
  isWhiteSpace c = false -> blankLineHere (LF :: LF :: LF :: c :: r) = Some (c :: r).
Proof.
  intros H. cbn [blankLineHere takeWhile]. change (isLF LF) with true.
  change (isWhiteSpace LF) with true. cbv iota. cbn [takeWhile]. rewrite H.
  reflexivity.
Qed.

Lemma quiet_nil (v : jsstring) : quiet [] v.
Proof.
  intros p q E Hq. symmetry in E. apply app_eq_nil in E. destruct E; contradiction.
Qed.

Lemma quiet_cons (c : ascii) (u v : jsstring) :
  blankLineHere (c :: u ++ v) = None -> quiet u v -> quiet (c :: u) v.
Proof.
  intros Hc Hu p q E Hq. destruct p as [|d p].
  - cbn [app] in E. subst q. exact Hc.
  - injection E as _ E. apply (Hu p q E Hq).
Qed.

Lemma quiet_tail (c : ascii) (u v : jsstring) : quiet (c :: u) v -> quiet u v.
Proof. intros H p q E Hq. apply (H (c :: p) q); [cbn [app]; rewrite E; reflexivity|exact Hq]. Qed.

Lemma quiet_head (c : ascii) (u v : jsstring) :
  quiet (c :: u) v -> blankLineHere (c :: u ++ v) = None.
Proof. intros H. apply (H [] (c :: u)); [reflexivity|discriminate]. Qed.

Lemma quiet_app (a b v : jsstring) : quiet a (b ++ v) -> quiet b v -> quiet (a ++ b) v.
Proof.
  induction a as [|c a IH]; intros Ha Hb; [exact Hb|].
  cbn [app]. apply quiet_cons.
  - rewrite <- List.app_assoc. apply quiet_head. exact Ha.
  - apply IH; [apply quiet_tail with c; exact Ha|exact Hb].
Qed.

Lemma quiet_lfFree (l v : jsstring) : lfFree l -> quiet l v.
Proof.
  induction 1 as [|c l Hc _ IH]; [apply quiet_nil|].
  apply quiet_cons; [apply blankLineHere_no_LF; exact Hc|exact IH].
Qed.

Lemma quiet_prefix (u w v : jsstring) : quiet (u ++ w) v -> quiet u (w ++ v).
Proof.
  intros H p q E Hq. rewrite List.app_assoc.
  apply (H p (q ++ w)).
  - rewrite E, List.app_assoc. reflexivity.
  - destruct q; [contradiction|discriminate].
Qed.

Lemma quiet_weaken (u v : jsstring) : quiet u v -> quiet u [].
Proof.
  intros H p q E Hq. rewrite List.app_nil_r.
  apply blankLineHere_none_prefix with v. apply (H p q E Hq).
Qed.

Lemma quiet_suffix (p u v : jsstring) : quiet (p ++ u) v -> quiet u v.
Proof.
  induction p as [|c p IH]; intros H; [exact H|].
  apply IH. apply quiet_tail with c. exact H.
Qed.

(** The lines of a block that are solid stay together. *)
Lemma quiet_lines (ls : list jsstring) (v : jsstring) :
  Forall solid ls -> quiet (join [LF] ls) v.
Proof.
  induction 1 as [|l ls Hl Hls IH]; [apply quiet_nil|].
  destruct ls as [|l' ls'].
  - apply quiet_lfFree. exact (proj1 Hl).
  - change (join [LF] (l :: l' :: ls')) with (l ++ [LF] ++ join [LF] (l' :: ls')).
    apply quiet_app; [apply quiet_lfFree; exact (proj1 Hl)|].
    apply quiet_app; [|exact IH].
    inversion Hls as [|? ? Hl' _]; subst.
    apply quiet_cons; [|apply quiet_nil]. cbn [app].
    destruct ls' as [|l'' ls''].
    + cbn [join]. apply blankLineHere_before_solid. exact Hl'.
    + change (join [LF] (l' :: l'' :: ls'')) with (l' ++ LF :: join [LF] (l'' :: ls'')).
      rewrite <- List.app_assoc. apply blankLineHere_before_solid. exact Hl'.
Qed.

(** A quiet stretch goes to the block that is being read. *)
Lemma splitBlocksFrom_quiet (u v : jsstring) :
  quiet u v ->
  splitBlocksFrom (u ++ v) = let (b, bs) := splitBlocksFrom v in (u ++ b, bs).
Proof.
  induction u as [|c u IH]; intros H.
  - cbn [app]. destruct (splitBlocksFrom v). reflexivity.
  - cbn [app]. rewrite splitBlocksFrom_eq.
    rewrite (quiet_head _ _ _ H).
    rewrite IH by (apply quiet_tail with c; exact H).
    destruct (splitBlocksFrom v). reflexivity.
Qed.

(** Every block is a quiet stretch of the input. *)
Lemma splitBlocksFrom_blocks (s : jsstring) :
  (exists rest, s = fst (splitBlocksFrom s) ++ rest)
  /\ Forall (fun b => quiet b []) (fst (splitBlocksFrom s) :: snd (splitBlocksFrom s)).
Proof.
  induction s as [s IH] using (well_founded_induction
    (Wf_nat.well_founded_ltof _ (@length ascii))).
  rewrite splitBlocksFrom_eq. destruct (blankLineHere s) as [r|] eqn:E.
  - assert (L : Wf_nat.ltof _ (@length ascii) r s)
      by (apply blankLineHere_shorter; exact E).
    destruct (IH r L) as [_ F].
    destruct (splitBlocksFrom r) as [b bs]. cbn [fst snd] in *. split.
    + exists s. reflexivity.
    + constructor; [apply quiet_nil|exact F].
  - destruct s as [|c t].
    + cbn [fst snd]. split; [exists []; reflexivity|].
      constructor; [apply quiet_nil|constructor].
    + assert (L : Wf_nat.ltof _ (@length ascii) t (c :: t))
        by (unfold Wf_nat.ltof; cbn; lia).
      destruct (IH t L) as [(rest & P) F].
      destruct (splitBlocksFrom t) as [b bs]. cbn [fst snd] in *. split.
      * exists rest. cbn [app]. rewrite <- P. reflexivity.
      * constructor; [|exact (Forall_inv_tail F)].
        apply quiet_cons; [|exact (Forall_inv F)]. rewrite List.app_nil_r.
        apply blankLineHere_none_prefix with rest. cbn [app]. rewrite <- P. exact E.
Qed.

Lemma blocks_quiet (s b : jsstring) : In b (splitBlocks s) -> quiet b [].
Proof.
  unfold splitBlocks. pose proof (splitBlocksFrom_blocks s) as [_ F].
  destruct (splitBlocksFrom s) as [b0 bs]. cbn [fst snd] in F.
  rewrite Forall_forall in F. apply F.
Qed.

(* ================================================================== *)
(** * What [parseSrt] makes of a block *)
(* ================================================================== *)

Lemma timeMatchHere_timestamps (s t1 t2 : jsstring) :
  SrtService.timeMatchHere s = Some (t1, t2) -> isTimestamp t1 = true /\ isTimestamp t2 = true.
Proof.
  unfold SrtService.timeMatchHere. cbv zeta.
  destruct (isTimestamp (firstn 12 s)) eqn:E1; [|discriminate].
  destruct (startsWith _ _); [|discriminate].
  match goal with |- (if isTimestamp ?t then _ else _) = _ -> _ =>
    destruct (isTimestamp t) eqn:E2; [|discriminate] end.
  intros H. injection H as <- <-. split; assumption.
Qed.

(** [timeToMs] is only called on strings of the shape. *)
Lemma timeMatch_timestamps (line t1 t2 : jsstring) :
  SrtService.timeMatch line = Some (t1, t2) -> isTimestamp t1 = true /\ isTimestamp t2 = true.
Proof.
  induction line as [|c line IH]; cbn [SrtService.timeMatch].
  - destruct (SrtService.timeMatchHere []) as [[a b]|] eqn:E; [|discriminate].
    intros [= <- <-]. exact (timeMatchHere_timestamps _ _ _ E).
  - destruct (SrtService.timeMatchHere (c :: line)) as [[a b]|] eqn:E; [|exact IH].
    intros [= <- <-]. exact (timeMatchHere_timestamps _ _ _ E).
Qed.

Lemma parseBlock_inv (block : jsstring) (e : SrtEntry) :
  In e (parseBlock block) -> parsedFrom block e.
Proof.
  unfold parseBlock, parsedFrom. cbv zeta.
  destruct (split isLF (trim block)) as [|line0 [|line1 rest]]; try contradiction.
  destruct (parseInt line0) as [|z] eqn:Ei; cbn [isNaN negb]; [contradiction|].
  destruct (SrtService.timeMatch line1) as [[t1 t2]|] eqn:Et; [|contradiction].
  cbn [In]. intros [<-|F]; [|contradiction].
  exists line0, line1, rest, z, t1, t2. auto.
Qed.

Lemma parseSrt_inv (x : jsstring) (e : SrtEntry) :
  In e (parseSrt x) -> exists block, In block (blocksOf x) /\ parsedFrom block e.
Proof.
  unfold parseSrt. intros H. apply in_flat_map in H. destruct H as (b & Hb & He).
  exists b. split; [exact Hb|apply parseBlock_inv; exact He].
Qed.

(** C5, as the code has it.  The two times of every entry of the output
    are the offsets of the two timestamps matched on the second line of
    its block, each a number between 0 and 362439999; the parser does not
    compare them. *)
Theorem parsed_times_are_as_written (x : jsstring) (e : SrtEntry) :
  In e (parseSrt x) ->
  exists block line0 line1 rest t1 t2,
    In block (blocksOf x)
    /\ split isLF (trim block) = line0 :: line1 :: rest
    /\ SrtService.timeMatch line1 = Some (t1, t2)
    /\ startTime e = Num (timestampValue t1)
    /\ endTime e = Num (timestampValue t2)
    /\ 0 <= timestampValue t1 <= 362439999
    /\ 0 <= timestampValue t2 <= 362439999.
Proof.
  intros H. destruct (parseSrt_inv x e H)
    as (block & Hb & line0 & line1 & rest & z & t1 & t2 & Hl & Hi & Ht & ->).
  destruct (timeMatch_timestamps _ _ _ Ht) as [T1 T2].
  destruct (timeToMs_shape_value t1 T1) as [E1 B1].
  destruct (timeToMs_shape_value t2 T2) as [E2 B2].
  exists block, line0, line1, rest, t1, t2. cbn [startTime endTime].
  repeat split; try assumption; lia.
Qed.

Lemma parsed_times_are_as_written_witness :
  exists block line0 line1 rest t1 t2,
    In block (blocksOf backwardBlock)
    /\ split isLF (trim block) = line0 :: line1 :: rest
    /\ SrtService.timeMatch line1 = Some (t1, t2)
    /\ startTime (mkEntry (Num 1) (Num 2000) (Num 1000) (str "x")) = Num (timestampValue t1)
    /\ endTime (mkEntry (Num 1) (Num 2000) (Num 1000) (str "x")) = Num (timestampValue t2)
    /\ 0 <= timestampValue t1 <= 362439999
    /\ 0 <= timestampValue t2 <= 362439999.
Proof.
  apply (parsed_times_are_as_written backwardBlock
           (mkEntry (Num 1) (Num 2000) (Num 1000) (str "x"))).
  left. reflexivity.
Defined.

(** C5 as it is stated fails: a block whose end is before its start is
    kept as it is written. *)
Lemma parse_keeps_backward_entry :
  parseSrt backwardBlock = [mkEntry (Num 1) (Num 2000) (Num 1000) (str "x")]
  /\ ~ Forall forward (parseSrt backwardBlock).
Proof.
  assert (E : parseSrt backwardBlock = [mkEntry (Num 1) (Num 2000) (Num 1000) (str "x")])
    by reflexivity.
  split; [exact E|]. rewrite E. intros F. inversion F as [|? ? (a & b & Ha & Hb & Hab) _]; subst.
  cbn in Ha, Hb. injection Ha as <-. injection Hb as <-. lia.
Qed.

Lemma isLF_isWhiteSpace (c : ascii) : isLF c = true -> isWhiteSpace c = true.
Proof. intros H. apply Ascii.eqb_eq in H. subst c. reflexivity. Qed.

Lemma not_white_not_LF (c : ascii) : isWhiteSpace c = false -> isLF c = false.
Proof.
  intros H. destruct (isLF c) eqn:E; [|reflexivity].
  apply isLF_isWhiteSpace in E. congruence.
Qed.

(** The first line of a trimmed block starts with a code unit that is not
    white space, when there is a second line. *)
Lemma first_line_head (block line0 line1 : jsstring) (rest : list jsstring) :
  split isLF (trim block) = line0 :: line1 :: rest ->
  exists c r, line0 = c :: r /\ isWhiteSpace c = false.
Proof.
  intros H. destruct (trim_result block) as [E|(_ & c & r & E & Hc)].
  - rewrite E in H. discriminate H.
  - rewrite E, split_cons, (not_white_not_LF c Hc) in H.
    destruct (split isLF r) as [|h t]; [discriminate H|].
    injection H as <- _. exists c, h. split; [reflexivity|exact Hc].
Qed.

Lemma parseInt_begins (line : jsstring) (z : Z) :
  parseInt line = Num z -> beginsWithInteger (trimStart line) = true.
Proof.
  unfold parseInt. destruct (trimStart line) as [|c r]; [discriminate|].
  unfold beginsWithInteger.
  destruct (Ascii.eqb c "-") eqn:Em.
  - destruct r as [|d r']; [discriminate|]. cbn [takeWhile].
    destruct (isDigit d); [|discriminate]. intros _.
    rewrite orb_true_r. reflexivity.
  - destruct (Ascii.eqb c "+") eqn:Ep.
    + destruct r as [|d r']; [discriminate|]. cbn [takeWhile].
      destruct (isDigit d); [|discriminate]. intros _.
      rewrite orb_true_r. reflexivity.
    + cbn [takeWhile]. destruct (isDigit c); [reflexivity|discriminate].
Qed.

Lemma digitsValue_nonneg (ds : jsstring) (acc : Z) :
  Forall (fun c => isDigit c = true) ds -> 0 <= acc -> 0 <= digitsValue acc ds.
Proof.
  intros H. revert acc. induction H as [|c ds Hc _ IH]; intros acc Ha; [exact Ha|].
  cbn [digitsValue]. apply IH.
  pose proof (digit_facts c Hc) as (_ & _ & _ & _ & _ & Hv). lia.
Qed.

(** [parseInt] of a line that is a run of digits: the value of the run. *)
Lemma parseInt_digits (line : jsstring) :
  SrcSrtService.isDigits line = true ->
  parseInt line = Num (digitsValue 0 line) /\ 0 <= digitsValue 0 line.
Proof.
  destruct line as [|c r]; [discriminate|]. unfold SrcSrtService.isDigits. intros H.
  assert (F : Forall (fun c => isDigit c = true) (c :: r))
    by (apply Forall_forall; apply forallb_forall; exact H).
  split; [|apply digitsValue_nonneg; [exact F|lia]].
  inversion F as [|? ? Hc _]; subst.
  destruct (digit_facts c Hc) as (Hw & Hm & Hp & _).
  unfold parseInt. rewrite (trimStart_solid c r Hw), Hm, Hp.
  assert (T : takeWhile isDigit (c :: r) = c :: r).
  { clear - F. induction F as [|d ds Hd _ IH]; [reflexivity|].
    cbn [takeWhile]. rewrite Hd, IH. reflexivity. }
  rewrite T. reflexivity.
Qed.

(** C9, as the code has it by design.  Every entry of the output comes
    from a block whose first line begins with a decimal integer, so a
    block whose first line begins otherwise adds no entry, and its id is
    never [NaN].  When the first line is a run of digits that denotes a
    value below 2^53, the id is that value: an integer that is not
    negative, and that may be 0. *)
Theorem parsed_id_is_integer (x : jsstring) (e : SrtEntry) :
  In e (parseSrt x) ->
  exists block line0 rest,
    In block (blocksOf x)
    /\ split isLF (trim block) = line0 :: rest
    /\ beginsWithInteger line0 = true
    /\ id e <> NaN
    /\ (SrcSrtService.isDigits line0 = true ->
        digitsValue 0 line0 < safeBound ->
        id e = Num (digitsValue 0 line0) /\ 0 <= digitsValue 0 line0).
Proof.
  intros H. destruct (parseSrt_inv x e H)
    as (block & Hb & line0 & line1 & rest & z & t1 & t2 & Hl & Hi & Ht & ->).
  exists block, line0, (line1 :: rest).
  destruct (first_line_head _ _ _ _ Hl) as (c & r & E & Hc).
  split; [exact Hb|]. split; [exact Hl|]. split.
  - pose proof (parseInt_begins line0 z Hi) as B.
    rewrite E, trimStart_solid in B by exact Hc. rewrite E. exact B.
  - split; [discriminate|]. intros D _. cbn [id].
    destruct (parseInt_digits line0 D) as [P N]. rewrite P in Hi.
    injection Hi as <-. split; [reflexivity|exact N].
Qed.

Lemma parsed_id_is_integer_witness :
  id (mkEntry (Num 0) (Num 1000) (Num 2000) (str "x")) = Num (digitsValue 0 (str "0"))
  /\ 0 <= digitsValue 0 (str "0").
Proof.
  destruct (parsed_id_is_integer zeroBlock
              (mkEntry (Num 0) (Num 1000) (Num 2000) (str "x")) (or_introl eq_refl))
    as (block & line0 & rest & Hb & Hl & _ & _ & H).
  change (blocksOf zeroBlock) with [zeroBlock] in Hb.
  destruct Hb as [<-|[]].
  change (split isLF (trim zeroBlock))
    with [str "0"; str "00:00:01,000 --> 00:00:02,000"; str "x"] in Hl.
  injection Hl as <- _.
  apply H; reflexivity.
Defined.

(** C9 as it is stated fails: a block numbered 0 gives an entry whose id
    is 0. *)
Lemma parse_keeps_id_zero :
  parseSrt zeroBlock = [mkEntry (Num 0) (Num 1000) (Num 2000) (str "x")]
  /\ ~ (forall e, In e (parseSrt zeroBlock) -> exists z, id e = Num z /\ 1 <= z).
Proof.
  assert (E : parseSrt zeroBlock = [mkEntry (Num 0) (Num 1000) (Num 2000) (str "x")])
    by reflexivity.
  split; [exact E|]. rewrite E. intros F.
  destruct (F _ (or_introl eq_refl)) as (z & Hz & Hp).
  cbn in Hz. injection Hz as <-. lia.
Qed.

(** A first line with a sign, or with other text after the digits, is
    read by [parseInt] all the same; the parser of
    [src/services/srtService.ts], which tests the line with [/^\d+$/],
    takes neither. *)
Lemma parse_keeps_signed_and_trailing :
  parseSrt signedBlock = [mkEntry (Num (-5)) (Num 1000) (Num 2000) (str "x")]
  /\ parseSrt trailingBlock = [mkEntry (Num 12) (Num 1000) (Num 2000) (str "x")]
  /\ SrcSrtService.parseSrt signedBlock
     = SrcSrtService.Throws SrcSrtService.noEntriesMessage
  /\ SrcSrtService.parseSrt trailingBlock
     = SrcSrtService.Throws SrcSrtService.noEntriesMessage.
Proof. repeat split; reflexivity. Qed.

(** ** A file without a single entry *)

(** C4.  [parseSrt] of [services/srtService.ts] returns the empty
    sequence for a text that is not empty and has no block; the parser of
    [src/services/srtService.ts] fails on the same text. *)
Theorem parse_garbage_returns_empty :
  trim (str "garbage") <> []
  /\ parseSrt (str "garbage") = []
  /\ SrcSrtService.parseSrt (str "garbage")
     = SrcSrtService.Throws SrcSrtService.noEntriesMessage.
Proof. split; [discriminate|]. split; reflexivity. Qed.

(** The parser of [src/services/srtService.ts] does tell the two cases
    apart: it returns no empty sequence for a text that is not blank, and
    it returns the empty sequence for a blank one. *)
Lemma src_parse_never_empty (x : jsstring) :
  trim x <> [] -> SrcSrtService.parseSrt x <> SrcSrtService.Returns [].
Proof.
  intros Hx. unfold SrcSrtService.parseSrt. cbv zeta.
  match goal with |- (if (?a && _)%bool then _ else _) <> _ =>
    destruct a eqn:E end.
  - destruct (trim x); [contradiction|]. cbn. discriminate.
  - cbn [andb]. intros H. injection H as H. rewrite H in E. discriminate E.
Qed.

Lemma src_parse_blank (x : jsstring) :
  trim x = [] -> SrcSrtService.parseSrt x = SrcSrtService.Returns [].
Proof.
  intros Hx. unfold SrcSrtService.parseSrt. rewrite Hx. reflexivity.
Qed.

(* ================================================================== *)
(** * Printing numbers and reading them back *)
(* ================================================================== *)

Lemma digitsOf_digits (d : Decimal.uint) : Forall (fun c => isDigit c = true) (digitsOf d).
Proof.
  unfold digitsOf. induction d; cbn; constructor; (reflexivity || assumption).
Qed.

Lemma digitsValue_acc (d : Decimal.uint) (acc : positive) :
  digitsValue (Zpos acc) (digitsOf d) = Zpos (Pos.of_uint_acc d acc).
Proof.
  unfold digitsOf. revert acc.
  induction d as [|d IH|d IH|d IH|d IH|d IH|d IH|d IH|d IH|d IH|d IH]; intros acc;
    [reflexivity|..];
    cbn [NilEmpty.string_of_uint str list_ascii_of_string digitsValue Pos.of_uint_acc];
    rewrite <- IH; f_equal;
    match goal with |- context [digitValue ?c] =>
      let v := eval vm_compute in (digitValue c) in change (digitValue c) with v end;
    lia.
Qed.

Lemma digitsValue_uint (d : Decimal.uint) :
  digitsValue 0 (digitsOf d) = Z.of_N (Pos.of_uint d).
Proof.
  unfold digitsOf.
  induction d as [|d IH|d IH|d IH|d IH|d IH|d IH|d IH|d IH|d IH|d IH];
    [reflexivity|exact IH|..];
    cbn [NilEmpty.string_of_uint str list_ascii_of_string digitsValue Pos.of_uint];
    exact (digitsValue_acc d _).
Qed.

Lemma to_uint_not_nil (p : positive) : Pos.to_uint p <> Decimal.Nil.
Proof.
  intros E. pose proof (DecimalPos.Unsigned.of_to p) as H. rewrite E in H. discriminate H.
Qed.

Lemma takeWhile_all_digits (ds : jsstring) :
  Forall (fun c => isDigit c = true) ds -> takeWhile isDigit ds = ds.
Proof.
  induction 1 as [|c ds Hc _ IH]; cbn [takeWhile]; [reflexivity|].
  rewrite Hc, IH. reflexivity.
Qed.

(** What [String_] prints for an integer: a sign perhaps, then digits. *)
Lemma String_shape (z : Z) :
  exists sign ds,
    String_ (Num z) = sign ++ ds
    /\ (sign = [] \/ sign = ["-"%char])
    /\ ds <> [] /\ Forall (fun c => isDigit c = true) ds
    /\ digitsValue 0 ds = Z.abs z /\ (sign = [] <-> 0 <= z).
Proof.
  destruct z as [|p|p].
  - exists [], ["0"%char].
    split; [reflexivity|]. split; [auto|]. split; [discriminate|].
    split; [repeat constructor|]. split; [reflexivity|]. split; [lia|reflexivity].
  - exists [], (digitsOf (Pos.to_uint p)).
    assert (E : String_ (Num (Zpos p)) = digitsOf (Pos.to_uint p)).
    { unfold String_, digitsOf. cbn [Z.to_int NilZero.string_of_int NilZero.string_of_uint].
      pose proof (to_uint_not_nil p). destruct (Pos.to_uint p); [contradiction|reflexivity..]. }
    rewrite E. split; [reflexivity|]. split; [auto|].
    split.
    { pose proof (to_uint_not_nil p). unfold digitsOf.
      destruct (Pos.to_uint p); [contradiction|discriminate..]. }
    split; [apply digitsOf_digits|].
    split; [|split; [lia|reflexivity]].
    rewrite digitsValue_uint, DecimalPos.Unsigned.of_to. reflexivity.
  - exists ["-"%char], (digitsOf (Pos.to_uint p)).
    assert (E : String_ (Num (Zneg p)) = "-"%char :: digitsOf (Pos.to_uint p)).
    { unfold String_, digitsOf. cbn [Z.to_int NilZero.string_of_int NilZero.string_of_uint].
      pose proof (to_uint_not_nil p). destruct (Pos.to_uint p); [contradiction|reflexivity..]. }
    rewrite E. split; [reflexivity|]. split; [auto|].
    split.
    { pose proof (to_uint_not_nil p). unfold digitsOf.
      destruct (Pos.to_uint p); [contradiction|discriminate..]. }
    split; [apply digitsOf_digits|].
    split; [|split; [discriminate|lia]].
    rewrite digitsValue_uint, DecimalPos.Unsigned.of_to. reflexivity.
Qed.

Lemma parseInt_String (z : Z) : parseInt (String_ (Num z)) = Num z.
Proof.
  destruct (String_shape z) as (sign & ds & E & Hs & Hne & Hd & Hv & Hz).
  rewrite E. destruct ds as [|d ds]; [contradiction|].
  inversion Hd as [|? ? Hd1 Hd2]; subst.
  destruct (digit_facts d Hd1) as (Wd & Md & Pd & _).
  unfold parseInt, trimStart. destruct Hs as [->| ->]; cbn [app dropWhile].
  - rewrite Wd, Md, Pd. rewrite takeWhile_all_digits by exact Hd.
    rewrite Hv. f_equal. destruct Hz as [Hz _]. specialize (Hz eq_refl). lia.
  - change (isWhiteSpace "-") with false. cbv iota.
    change (Ascii.eqb "-" "-") with true. cbv iota.
    rewrite takeWhile_all_digits by exact Hd.
    rewrite Hv. f_equal.
    assert (~ 0 <= z) by (intros H; apply Hz in H; discriminate H). lia.
Qed.

Lemma pad_two_table :
  forallb
    (fun k =>
       match padStart 2 (String_ (Num (Z.of_nat k))) with
       | [a; b] => isDigit a && isDigit b && (twoDigits a b =? Z.of_nat k)
       | _ => false
       end)
    (seq 0 100) = true.
Proof. vm_compute. reflexivity. Qed.

Lemma pad_three_table :
  forallb
    (fun k =>
       match padStart 3 (String_ (Num (Z.of_nat k))) with
       | [a; b; c] =>
           isDigit a && isDigit b && isDigit c && (threeDigits a b c =? Z.of_nat k)
       | _ => false
       end)
    (seq 0 1000) = true.
Proof. vm_compute. reflexivity. Qed.

Lemma pad_two_inv (n : Z) :
  0 <= n < 100 ->
  exists a b,
    padStart 2 (String_ (Num n)) = [a; b]
    /\ isDigit a = true /\ isDigit b = true /\ twoDigits a b = n.
Proof.
  intros Hn. pose proof pad_two_table as T. rewrite forallb_forall in T.
  specialize (T (Z.to_nat n)). rewrite Z2Nat.id in T by lia.
  assert (I : In (Z.to_nat n) (seq 0 100)) by (apply in_seq; lia).
  specialize (T I).
  destruct (padStart 2 (String_ (Num n))) as [|a [|b [|c r]]]; try discriminate T.
  apply andb_prop in T. destruct T as [T Hv]. apply andb_prop in T. destruct T as [Ha Hb].
  exists a, b. repeat split; try assumption. apply Z.eqb_eq. exact Hv.
Qed.

Lemma pad_three_inv (n : Z) :
  0 <= n < 1000 ->
  exists a b c,
    padStart 3 (String_ (Num n)) = [a; b; c]
    /\ isDigit a = true /\ isDigit b = true /\ isDigit c = true
    /\ threeDigits a b c = n.
Proof.
  intros Hn. pose proof pad_three_table as T. rewrite forallb_forall in T.
  specialize (T (Z.to_nat n)). rewrite Z2Nat.id in T by lia.
  assert (I : In (Z.to_nat n) (seq 0 1000)) by (apply in_seq; lia).
  specialize (T I).
  destruct (padStart 3 (String_ (Num n))) as [|a [|b [|c [|d r]]]]; try discriminate T.
  apply andb_prop in T. destruct T as [T Hv]. apply andb_prop in T. destruct T as [T Hc].
  apply andb_prop in T. destruct T as [Ha Hb].
  exists a, b, c. repeat split; try assumption. apply Z.eqb_eq. exact Hv.
Qed.

Lemma isTimestamp_of_digits (h1 h2 m1 m2 s1 s2 f1 f2 f3 : ascii) :
  isDigit h1 = true -> isDigit h2 = true -> isDigit m1 = true ->
  isDigit m2 = true -> isDigit s1 = true -> isDigit s2 = true ->
  isDigit f1 = true -> isDigit f2 = true -> isDigit f3 = true ->
  isTimestamp [h1; h2; ":"; m1; m2; ":"; s1; s2; ","; f1; f2; f3]%char = true.
Proof.
  intros Hh1 Hh2 Hm1 Hm2 Hs1 Hs2 Hf1 Hf2 Hf3. cbn [isTimestamp].
  rewrite Hh1, Hh2, Hm1, Hm2, Hs1, Hs2, Hf1, Hf2, Hf3. reflexivity.
Qed.

(** A time below 100 hours is printed as a timestamp that denotes it. *)
Lemma msToTime_timestamp (a : Z) :
  0 <= a <= maxTime ->
  isTimestamp (msToTime (Num a)) = true /\ timestampValue (msToTime (Num a)) = a.
Proof.
  unfold maxTime. intros Ha.
  set (H := a / 3600000). set (M := (a / 60000) mod 60).
  set (S := (a / 1000) mod 60). set (F := a mod 1000).
  assert (E : a = H * 3600000 + M * 60000 + S * 1000 + F).
  { subst H M S F. pose proof (Z.div_mod a 1000 ltac:(lia)).
    pose proof (Z.div_mod (a / 1000) 60 ltac:(lia)).
    pose proof (Z.div_mod (a / 60000) 60 ltac:(lia)).
    assert (a / 1000 / 60 = a / 60000) by (rewrite Z.div_div by lia; reflexivity).
    assert (a / 60000 / 60 = a / 3600000) by (rewrite Z.div_div by lia; reflexivity).
    lia. }
  assert (BM : 0 <= M < 60) by (subst M; apply Z.mod_pos_bound; lia).
  assert (BS : 0 <= S < 60) by (subst S; apply Z.mod_pos_bound; lia).
  assert (BF : 0 <= F < 1000) by (subst F; apply Z.mod_pos_bound; lia).
  assert (BH : 0 <= H < 100).
  { subst H. split; [apply Z.div_pos; lia|apply Z.div_lt_upper_bound; lia]. }
  rewrite E at 1 2. rewrite msToTime_fields by lia.
  destruct (pad_two_inv H BH) as (h1 & h2 & -> & Hh1 & Hh2 & VH).
  destruct (pad_two_inv M ltac:(lia)) as (m1 & m2 & -> & Hm1 & Hm2 & VM).
  destruct (pad_two_inv S ltac:(lia)) as (s1 & s2 & -> & Hs1 & Hs2 & VS).
  destruct (pad_three_inv F BF) as (f1 & f2 & f3 & -> & Hf1 & Hf2 & Hf3 & VF).
  cbn [app str list_ascii_of_string]. split.
  - apply isTimestamp_of_digits; assumption.
  - cbn [timestampValue]. lia.
Qed.

Lemma timeToMs_msToTime (a : Z) :
  0 <= a <= maxTime -> timeToMs (msToTime (Num a)) = Num a.
Proof.
  intros Ha. destruct (msToTime_timestamp a Ha) as [T V].
  rewrite (proj1 (timeToMs_shape_value _ T)), V. reflexivity.
Qed.

(* ================================================================== *)
(** * Reading a printed block back *)
(* ================================================================== *)

Lemma digit_plain (c : ascii) : isDigit c = true -> plain c.
Proof. intros H. digit_case c H; split; reflexivity. Qed.

Lemma timeMatch_printed (t1 t2 : jsstring) :
  isTimestamp t1 = true -> isTimestamp t2 = true ->
  SrtService.timeMatch (t1 ++ str " --> " ++ t2) = Some (t1, t2).
Proof.
  intros T1 T2.
  destruct (isTimestamp_shape t1 T1)
    as (h1 & h2 & m1 & m2 & s1 & s2 & f1 & f2 & f3 & E1 & _).
  destruct (isTimestamp_shape t2 T2)
    as (g1 & g2 & n1 & n2 & u1 & u2 & k1 & k2 & k3 & E2 & Hg1 & _).
  assert (H : SrtService.timeMatchHere (t1 ++ str " --> " ++ t2) = Some (t1, t2)).
  { unfold SrtService.timeMatchHere. cbv zeta.
    assert (F1 : firstn 12 (t1 ++ str " --> " ++ t2) = t1) by (rewrite E1; reflexivity).
    assert (S1 : skipn 12 (t1 ++ str " --> " ++ t2) = str " --> " ++ t2)
      by (rewrite E1; reflexivity).
    rewrite F1, S1, T1.
    change (dropWhile isWhiteSpace (str " --> " ++ t2)) with (str "--> " ++ t2).
    change (startsWith (str "-->") (str "--> " ++ t2)) with true. cbv iota.
    change (skipn 3 (str "--> " ++ t2)) with (" "%char :: t2).
    assert (D : dropWhile isWhiteSpace (" "%char :: t2) = t2).
    { rewrite E2. cbn [dropWhile]. change (isWhiteSpace " ") with true. cbv iota.
      rewrite (proj1 (digit_facts g1 Hg1)). reflexivity. }
    rewrite D.
    assert (F2 : firstn 12 t2 = t2) by (rewrite E2; reflexivity).
    rewrite F2, T2. reflexivity. }
  destruct (t1 ++ str " --> " ++ t2) as [|c r] eqn:E.
  - rewrite E1 in E. discriminate E.
  - cbn [SrtService.timeMatch]. rewrite H. reflexivity.
Qed.

Lemma timestamp_plain (t : jsstring) : isTimestamp t = true -> Forall plain t.
Proof.
  intros T. destruct (isTimestamp_shape t T)
    as (h1 & h2 & m1 & m2 & s1 & s2 & f1 & f2 & f3 & -> & Hh1 & Hh2 & Hm1 & Hm2
        & Hs1 & Hs2 & Hf1 & Hf2 & Hf3).
  repeat constructor; try (apply digit_plain; assumption).
Qed.

Lemma timestamp_ends (t : jsstring) :
  isTimestamp t = true ->
  endsSolid t /\ exists c r, t = c :: r /\ isWhiteSpace c = false.
Proof.
  intros T. destruct (isTimestamp_shape t T)
    as (h1 & h2 & m1 & m2 & s1 & s2 & f1 & f2 & f3 & -> & Hh1 & Hh2 & Hm1 & Hm2
        & Hs1 & Hs2 & Hf1 & Hf2 & Hf3).
  split.
  - exists [h1; h2; ":"; m1; m2; ":"; s1; s2; ","; f1; f2]%char, f3.
    split; [reflexivity|exact (proj1 (digit_facts f3 Hf3))].
  - eexists _, _. split; [reflexivity|exact (proj1 (digit_facts h1 Hh1))].
Qed.

Lemma endsSolid_app (a b : jsstring) : endsSolid b -> endsSolid (a ++ b).
Proof.
  intros (q & c & -> & Hc). exists (a ++ q), c.
  rewrite List.app_assoc. split; [reflexivity|exact Hc].
Qed.

Lemma endsSolid_tail (a b : jsstring) : b <> [] -> endsSolid (a ++ b) -> endsSolid b.
Proof.
  intros Hb (q & c & E & Hc).
  destruct (exists_last Hb) as (b' & d & ->).
  rewrite List.app_assoc in E. apply app_inj_tail in E. destruct E as [_ ->].
  exists b', c. split; [reflexivity|exact Hc].
Qed.

Lemma endsSolid_exists (l : jsstring) :
  endsSolid l -> Exists (fun c => isWhiteSpace c = false) l.
Proof.
  intros (q & c & -> & Hc). apply Exists_app. right. constructor. exact Hc.
Qed.

Lemma plain_lfFree (l : jsstring) : Forall plain l -> lfFree l.
Proof. unfold lfFree. apply Forall_impl. intros c [H _]. exact H. Qed.

Lemma plain_noCR (l : jsstring) :
  Forall plain l -> Forall (fun c => Ascii.eqb c CR = false) l.
Proof. apply Forall_impl. intros c [_ H]. exact H. Qed.

(** The timing line that is printed for times below 100 hours. *)
Lemma timeLine_facts (e : SrtEntry) (a b : Z) :
  startTime e = Num a -> endTime e = Num b ->
  0 <= a <= maxTime -> 0 <= b <= maxTime ->
  Forall plain (timeLine e) /\ solid (timeLine e) /\ endsSolid (timeLine e)
  /\ SrtService.timeMatch (timeLine e) = Some (msToTime (Num a), msToTime (Num b)).
Proof.
  intros Ea Eb Ha Hb. unfold timeLine. rewrite Ea, Eb.
  destruct (msToTime_timestamp a Ha) as [Ta _].
  destruct (msToTime_timestamp b Hb) as [Tb _].
  assert (P : Forall plain (msToTime (Num a) ++ str " --> " ++ msToTime (Num b))).
  { apply Forall_app. split; [apply timestamp_plain; exact Ta|].
    apply Forall_app. split; [repeat constructor|apply timestamp_plain; exact Tb]. }
  assert (E : endsSolid (msToTime (Num a) ++ str " --> " ++ msToTime (Num b))).
  { apply endsSolid_app. apply endsSolid_app. exact (proj1 (timestamp_ends _ Tb)). }
  split; [exact P|]. split; [|split; [exact E|apply timeMatch_printed; assumption]].
  split; [apply plain_lfFree; exact P|apply endsSolid_exists; exact E].
Qed.

(** The id that is printed. *)
Lemma String_facts (z : Z) :
  Forall plain (String_ (Num z)) /\ solid (String_ (Num z)) /\ endsSolid (String_ (Num z))
  /\ exists c r, String_ (Num z) = c :: r /\ isWhiteSpace c = false.
Proof.
  destruct (String_shape z) as (sign & ds & E & Hs & Hne & Hd & _).
  assert (Pd : Forall plain ds).
  { revert Hd. apply Forall_impl. intros c. apply digit_plain. }
  assert (P : Forall plain (String_ (Num z))).
  { rewrite E. apply Forall_app. split; [|exact Pd].
    destruct Hs as [->| ->]; repeat constructor. }
  assert (Ed : endsSolid ds).
  { destruct (exists_last Hne) as (q & c & ->). exists q, c. split; [reflexivity|].
    apply Forall_app in Hd. destruct Hd as [_ Hc]. inversion Hc; subst.
    exact (proj1 (digit_facts c ltac:(assumption))). }
  assert (Ee : endsSolid (String_ (Num z))) by (rewrite E; apply endsSolid_app; exact Ed).
  split; [exact P|]. split; [|split; [exact Ee|]].
  - split; [apply plain_lfFree; exact P|apply endsSolid_exists; exact Ee].
  - rewrite E. destruct Hs as [->| ->].
    + destruct ds as [|d ds']; [contradiction|]. exists d, ds'. split; [reflexivity|].
      inversion Hd; subst. exact (proj1 (digit_facts d ltac:(assumption))).
    + exists "-"%char, ds. split; reflexivity.
Qed.

Lemma solid_not_nil (l : jsstring) : solid l -> l <> [].
Proof. intros [_ H] ->. inversion H. Qed.

Lemma join_solid_not_nil (l : jsstring) (ls : list jsstring) :
  solid l -> join [LF] (l :: ls) <> [].
Proof.
  intros H E. apply (solid_not_nil l H).
  destruct ls; cbn [join] in E; [exact E|].
  apply app_eq_nil in E. exact (proj1 E).
Qed.

Lemma renderEntry_eq (e : SrtEntry) :
  renderEntry e = String_ (id e) ++ LF :: timeLine e ++ LF :: text e.
Proof.
  unfold renderEntry, timeLine. cbn [app]. rewrite <- !List.app_assoc. reflexivity.
Qed.

Section PrintedBlock.

Variable e : SrtEntry.
Hypothesis He : canonical e.

Lemma blockOf_lines :
  exists z a b ls,
    id e = Num z /\ startTime e = Num a /\ endTime e = Num b
    /\ 0 <= a <= maxTime /\ 0 <= b <= maxTime
    /\ text e = join [LF] ls /\ Forall solid ls
    /\ blockOf e = join [LF] (String_ (Num z) :: timeLine e :: ls).
Proof.
  destruct He as (z & a & b & ls & Ei & Ea & Eb & Ha & Hb & Et & Hs & _).
  exists z, a, b, ls. repeat split; try assumption; try lia.
  unfold blockOf. rewrite Ei, Et. destruct ls as [|l ls'].
  - cbn [join app]. rewrite List.app_nil_r. reflexivity.
  - inversion Hs as [|? ? Hl _]; subst.
    pose proof (join_solid_not_nil l ls' Hl) as Hne.
    destruct (join [LF] (l :: ls')) as [|c r] eqn:E; [contradiction|].
    rewrite <- E. reflexivity.
Qed.

Lemma blockOf_quiet (v : jsstring) : quiet (blockOf e) v.
Proof.
  destruct blockOf_lines as (z & a & b & ls & Ei & Ea & Eb & Ha & Hb & Et & Hs & ->).
  apply quiet_lines. constructor; [exact (proj1 (proj2 (String_facts z)))|].
  constructor; [|exact Hs].
  exact (proj1 (proj2 (timeLine_facts e a b Ea Eb Ha Hb))).
Qed.

Lemma blockOf_head : exists c r, blockOf e = c :: r /\ isWhiteSpace c = false.
Proof.
  destruct He as (z & a & b & ls & Ei & _).
  destruct (String_facts z) as (_ & _ & _ & c & r & E & Hc).
  unfold blockOf. rewrite Ei, E. eexists _, _. split; [reflexivity|exact Hc].
Qed.

Lemma blockOf_ends : endsSolid (blockOf e).
Proof.
  destruct He as (z & a & b & ls & Ei & Ea & Eb & Ha & Hb & Et & Hs & Hend & _).
  destruct (timeLine_facts e a b Ea Eb Ha Hb) as (_ & _ & ET & _).
  unfold blockOf. apply endsSolid_app.
  destruct (text e) as [|c r] eqn:E.
  - rewrite List.app_nil_r. apply (endsSolid_app [LF]). exact ET.
  - replace (LF :: timeLine e ++ LF :: c :: r)
      with ((LF :: timeLine e ++ [LF]) ++ c :: r)
      by (cbn [app]; rewrite <- List.app_assoc; reflexivity).
    apply endsSolid_app. apply Hend. intros ->. discriminate Et.
Qed.

(** What is printed for the entry is its block, and a line feed more when
    the text is empty. *)
Lemma renderEntry_block :
  exists tail, renderEntry e = blockOf e ++ tail /\ (tail = [] \/ tail = [LF]).
Proof.
  rewrite renderEntry_eq. unfold blockOf. destruct (text e) as [|c r].
  - exists [LF]. split; [|right; reflexivity].
    rewrite List.app_nil_r, <- List.app_assoc. reflexivity.
  - exists []. split; [|left; reflexivity]. rewrite List.app_nil_r. reflexivity.
Qed.

Lemma renderEntry_replace (s : jsstring) :
  replaceCRLF (renderEntry e ++ s) = renderEntry e ++ replaceCRLF s.
Proof.
  destruct He as (z & a & b & ls & Ei & Ea & Eb & Ha & Hb & Et & Hs & Hend & Hr).
  destruct (timeLine_facts e a b Ea Eb Ha Hb) as (PT & _).
  destruct (String_facts z) as (PI & _).
  rewrite renderEntry_eq, Ei.
  assert (P : Forall (fun c => Ascii.eqb c CR = false)
                (String_ (Num z) ++ LF :: timeLine e ++ [LF])).
  { apply Forall_app. split; [apply plain_noCR; exact PI|].
    constructor; [reflexivity|]. apply Forall_app. split; [apply plain_noCR; exact PT|].
    repeat constructor. }
  replace ((String_ (Num z) ++ LF :: timeLine e ++ LF :: text e) ++ s)
    with ((String_ (Num z) ++ LF :: timeLine e ++ [LF]) ++ text e ++ s)
    by (rewrite <- !List.app_assoc; cbn [app]; rewrite <- !List.app_assoc; reflexivity).
  rewrite replaceCRLF_plain_app by exact P. rewrite replaceCRLF_app; [|exact Hr|].
  - rewrite <- !List.app_assoc. cbn [app]. rewrite <- !List.app_assoc. reflexivity.
  - intros q Eq. destruct ls as [|l ls'].
    + rewrite Et in Eq. destruct q; discriminate Eq.
    + destruct (Hend ltac:(discriminate)) as (q' & c & Eq' & Hc).
      rewrite Eq' in Eq. apply app_inj_tail in Eq. destruct Eq as [_ ->].
      discriminate Hc.
Qed.

(** The block is read back as the entry. *)
Lemma parseBlock_blockOf : parseBlock (blockOf e) = [e].
Proof.
  destruct blockOf_head as (c & r & Eh & Hc).
  pose proof blockOf_ends as Ee.
  destruct blockOf_lines as (z & a & b & ls & Ei & Ea & Eb & Ha & Hb & Et & Hs & El).
  destruct (timeLine_facts e a b Ea Eb Ha Hb) as (PT & _ & _ & Tm).
  destruct (String_facts z) as (PI & _).
  unfold parseBlock. cbv zeta.
  rewrite (trim_id _ c r Eh Hc Ee), El.
  rewrite split_join.
  - rewrite Tm, parseInt_String. cbn [isNaN negb].
    rewrite !timeToMs_msToTime by assumption.
    rewrite <- Et, <- Ei, <- Ea, <- Eb. destruct e; reflexivity.
  - discriminate.
  - constructor; [apply plain_lfFree; exact PI|].
    constructor; [apply plain_lfFree; exact PT|].
    revert Hs. apply Forall_impl. intros l [H _]. exact H.
Qed.

End PrintedBlock.

(* ================================================================== *)
(** * Printing a file and reading it back *)
(* ================================================================== *)

Lemma stringifySrt_cons (e e' : SrtEntry) (l : list SrtEntry) :
  stringifySrt (e :: e' :: l) = renderEntry e ++ [LF; LF] ++ stringifySrt (e' :: l).
Proof. reflexivity. Qed.

Lemma stringifySrt_replace (l : list SrtEntry) :
  Forall canonical l -> replaceCRLF (stringifySrt l) = stringifySrt l.
Proof.
  induction 1 as [|e l He Hl IH]; [reflexivity|].
  destruct l as [|e' l'].
  - change (stringifySrt [e]) with (renderEntry e).
    rewrite <- (List.app_nil_r (renderEntry e)) at 1.
    rewrite renderEntry_replace by exact He. apply List.app_nil_r.
  - rewrite stringifySrt_cons, renderEntry_replace by exact He.
    cbn [app]. rewrite !replaceCRLF_cons by reflexivity. rewrite IH. reflexivity.
Qed.

Lemma body_facts (l : list SrtEntry) :
  Forall canonical l -> l <> [] ->
  endsSolid (body l) /\ exists c r, body l = c :: r /\ isWhiteSpace c = false.
Proof.
  induction 1 as [|e l He Hl IH]; intros Hne; [contradiction|].
  destruct l as [|e' l'].
  - cbn [body]. split; [apply blockOf_ends; exact He|apply blockOf_head; exact He].
  - destruct (IH ltac:(discriminate)) as [Ee _].
    change (body (e :: e' :: l')) with (renderEntry e ++ [LF; LF] ++ body (e' :: l')).
    split; [apply endsSolid_app, endsSolid_app; exact Ee|].
    destruct (renderEntry_block e) as (tail & -> & _).
    destruct (blockOf_head e He) as (c & r & -> & Hc).
    eexists _, _. split; [reflexivity|exact Hc].
Qed.

Lemma trimEnd_stringifySrt (l : list SrtEntry) :
  Forall canonical l -> l <> [] -> trimEnd (stringifySrt l) = body l.
Proof.
  induction 1 as [|e l He Hl IH]; intros Hne; [contradiction|].
  destruct l as [|e' l'].
  - change (stringifySrt [e]) with (renderEntry e). cbn [body].
    destruct (renderEntry_block e) as (tail & -> & [->| ->]).
    + rewrite List.app_nil_r. apply trimEnd_endsSolid. apply blockOf_ends. exact He.
    + apply trimEnd_app_white; [apply blockOf_ends; exact He|repeat constructor].
  - rewrite stringifySrt_cons.
    change (body (e :: e' :: l')) with (renderEntry e ++ [LF; LF] ++ body (e' :: l')).
    specialize (IH ltac:(discriminate)).
    destruct (body_facts (e' :: l') Hl ltac:(discriminate)) as (_ & c & r & Eb & _).
    rewrite List.app_assoc, trimEnd_app; rewrite IH.
    + rewrite <- List.app_assoc. reflexivity.
    + rewrite Eb. discriminate.
Qed.

Lemma trim_stringifySrt (l : list SrtEntry) :
  Forall canonical l -> l <> [] -> trim (stringifySrt l) = body l.
Proof.
  intros H Hne. unfold trim.
  assert (S : trimStart (stringifySrt l) = stringifySrt l).
  { destruct l as [|e l']; [contradiction|]. inversion H as [|? ? He _]; subst.
    destruct (renderEntry_block e) as (tail & Er & _).
    destruct (blockOf_head e He) as (c & r & Eb & Hc).
    destruct l' as [|e' l''].
    - change (stringifySrt [e]) with (renderEntry e). rewrite Er, Eb.
      apply trimStart_solid. exact Hc.
    - rewrite stringifySrt_cons, Er, Eb. apply trimStart_solid. exact Hc. }
  rewrite S. apply trimEnd_stringifySrt; assumption.
Qed.

Lemma splitBlocksFrom_nil : splitBlocksFrom [] = ([], []).
Proof. rewrite splitBlocksFrom_eq. reflexivity. Qed.

Lemma splitBlocks_body (l : list SrtEntry) :
  Forall canonical l -> l <> [] -> splitBlocks (body l) = map blockOf l.
Proof.
  unfold splitBlocks.
  induction 1 as [|e l He Hl IH]; intros Hne; [contradiction|].
  destruct l as [|e' l'].
  - cbn [body map]. rewrite <- (List.app_nil_r (blockOf e)) at 1.
    rewrite splitBlocksFrom_quiet by (apply blockOf_quiet; exact He).
    rewrite splitBlocksFrom_nil, List.app_nil_r. reflexivity.
  - change (body (e :: e' :: l')) with (renderEntry e ++ [LF; LF] ++ body (e' :: l')).
    specialize (IH ltac:(discriminate)).
    destruct (body_facts (e' :: l') Hl ltac:(discriminate)) as (_ & c & r & Eb & Hc).
    destruct (renderEntry_block e) as (tail & -> & Ht).
    rewrite <- List.app_assoc.
    rewrite splitBlocksFrom_quiet by (apply blockOf_quiet; exact He).
    assert (B : blankLineHere (tail ++ [LF; LF] ++ body (e' :: l')) = Some (body (e' :: l'))).
    { rewrite Eb. destruct Ht as [->| ->]; cbn [app].
      - apply blankLineHere_two. exact Hc.
      - apply blankLineHere_three. exact Hc. }
    rewrite (splitBlocksFrom_eq (tail ++ [LF; LF] ++ body (e' :: l'))), B.
    destruct (splitBlocksFrom (body (e' :: l'))) as [b bs].
    rewrite List.app_nil_r. cbn [map] in *. rewrite IH. reflexivity.
Qed.

Lemma parse_blocks (l : list SrtEntry) :
  Forall canonical l -> flat_map parseBlock (map blockOf l) = l.
Proof.
  induction 1 as [|e l He _ IH]; [reflexivity|].
  cbn [map flat_map]. rewrite parseBlock_blockOf by exact He. rewrite IH. reflexivity.
Qed.

(** What is printed for canonical entries is read back as these entries. *)
Lemma parseSrt_stringifySrt (l : list SrtEntry) :
  Forall canonical l -> parseSrt (stringifySrt l) = l.
Proof.
  intros H. destruct l as [|e l'] eqn:E; [reflexivity|]. rewrite <- E in *.
  assert (Hne : l <> []) by (rewrite E; discriminate).
  unfold parseSrt. cbv zeta.
  rewrite stringifySrt_replace, trim_stringifySrt, splitBlocks_body by assumption.
  apply parse_blocks. exact H.
Qed.

(** ** The entries [parseSrt] returns are canonical *)

Lemma quiet_trim (b : jsstring) : quiet b [] -> quiet (trim b) [].
Proof.
  intros H. unfold trim.
  destruct (trimStart_suffix b) as (w & Ew).
  destruct (trimEnd_prefix (trimStart b)) as (w' & Ew').
  rewrite Ew in H. apply quiet_suffix in H. rewrite Ew' in H.
  apply quiet_prefix in H. apply quiet_weaken in H. exact H.
Qed.

Lemma white_or_solid (l : jsstring) :
  Forall (fun c => isWhiteSpace c = true) l \/ Exists (fun c => isWhiteSpace c = false) l.
Proof.
  induction l as [|c l [IH|IH]].
  - left. constructor.
  - destruct (isWhiteSpace c) eqn:E.
    + left. constructor; assumption.
    + right. constructor. exact E.
  - right. apply Exists_cons_tl. exact IH.
Qed.

Lemma blankLineHere_white_line (w r : jsstring) :
  Forall (fun c => isWhiteSpace c = true) w ->
  blankLineHere (LF :: w ++ LF :: r) <> None.
Proof.
  intros Hw. cbn [blankLineHere]. change (isLF LF) with true. cbv iota.
  rewrite takeWhile_all by exact Hw. cbn [takeWhile].
  change (isWhiteSpace LF) with true. cbv iota.
  destruct (afterLastLF (w ++ LF :: takeWhile isWhiteSpace r)) eqn:E; [discriminate|].
  apply afterLastLF_none in E. apply lfFree_app in E. destruct E as [_ E].
  inversion E as [|? ? Hc _]; subst. discriminate Hc.
Qed.

(** In a trimmed block without a blank line, every line after the first
    has a code unit that is not white space. *)
Lemma lines_solid (ls : list jsstring) :
  Forall lfFree ls -> ls <> [] ->
  forall pre,
    quiet (pre ++ LF :: join [LF] ls) [] ->
    endsSolid (pre ++ LF :: join [LF] ls) ->
    Forall solid ls /\ endsSolid (join [LF] ls).
Proof.
  induction 1 as [|l ls Hl Hls IH]; intros Hne pre Hq He; [contradiction|].
  destruct ls as [|l' ls'].
  - cbn [join] in *. destruct l as [|c l'].
    + exfalso. destruct He as (q & c & E & Hc).
      apply app_inj_tail in E. destruct E as [_ <-]. discriminate Hc.
    + assert (El : endsSolid (c :: l')).
      { apply endsSolid_tail with (pre ++ [LF]); [discriminate|].
        rewrite <- List.app_assoc. exact He. }
      split; [|exact El]. constructor; [|constructor].
      split; [exact Hl|apply endsSolid_exists; exact El].
  - change (join [LF] (l :: l' :: ls')) with (l ++ LF :: join [LF] (l' :: ls')) in *.
    assert (R : pre ++ LF :: l ++ LF :: join [LF] (l' :: ls')
                = (pre ++ LF :: l) ++ LF :: join [LF] (l' :: ls')).
    { rewrite <- List.app_assoc. reflexivity. }
    destruct (IH ltac:(discriminate) (pre ++ LF :: l)) as [Fs Es].
    + rewrite <- R. exact Hq.
    + rewrite <- R. exact He.
    + split.
      * constructor; [|exact Fs]. split; [exact Hl|].
        destruct (white_or_solid l) as [W|S]; [|exact S].
        exfalso. apply quiet_suffix in Hq. apply quiet_head in Hq.
        rewrite List.app_nil_r in Hq.
        exact (blankLineHere_white_line l _ W Hq).
      * apply endsSolid_app. apply (endsSolid_app [LF]). exact Es.
Qed.

Lemma hasCRLF_replace (s : jsstring) : hasCRLF s = false -> replaceCRLF s = s.
Proof.
  induction s as [|c s IH]; [reflexivity|].
  destruct s as [|d s'].
  - reflexivity.
  - intros H. rewrite replaceCRLF_two.
    change (hasCRLF (c :: d :: s'))
      with ((Ascii.eqb c CR && Ascii.eqb d LF) || hasCRLF (d :: s'))%bool in H.
    apply orb_false_elim in H. destruct H as [H1 H2].
    rewrite H1, (IH H2). reflexivity.
Qed.

Lemma parsed_canonical (x : jsstring) (e : SrtEntry) :
  In e (parseSrt x) -> printsBack e = true -> canonical e.
Proof.
  intros Hin Hp. destruct (parseSrt_inv x e Hin)
    as (block & Hb & line0 & line1 & rest & z & t1 & t2 & Hl & Hi & Ht & ->).
  destruct (timeMatch_timestamps _ _ _ Ht) as [T1 T2].
  destruct (timeToMs_shape_value t1 T1) as [E1 B1].
  destruct (timeToMs_shape_value t2 T2) as [E2 B2].
  unfold printsBack in Hp. cbn [id startTime endTime text] in Hp.
  rewrite E1, E2 in Hp.
  repeat (apply andb_prop in Hp; destruct Hp as [Hp ?]).
  exists z, (timestampValue t1), (timestampValue t2), rest.
  cbn [id startTime endTime text].
  split; [reflexivity|]. split; [exact E1|]. split; [exact E2|].
  split; [split; [lia|apply Z.leb_le; assumption]|].
  split; [split; [lia|apply Z.leb_le; assumption]|].
  split; [reflexivity|].
  assert (Hr : replaceCRLF (join [LF] rest) = join [LF] rest).
  { apply hasCRLF_replace. apply negb_true_iff. assumption. }
  destruct rest as [|l ls'].
  - split; [constructor|]. split; [intros C; contradiction|exact Hr].
  - pose proof (blocks_quiet _ _ Hb) as Q. apply quiet_trim in Q.
    pose proof (join_split (trim block)) as J. rewrite Hl in J.
    pose proof (split_lines_lfFree (trim block)) as F. rewrite Hl in F.
    change (join [LF] (line0 :: line1 :: l :: ls'))
      with (line0 ++ LF :: line1 ++ LF :: join [LF] (l :: ls')) in J.
    assert (R : line0 ++ LF :: line1 ++ LF :: join [LF] (l :: ls')
                = (line0 ++ LF :: line1) ++ LF :: join [LF] (l :: ls')).
    { rewrite <- List.app_assoc. reflexivity. }
    assert (Et : endsSolid (trim block)).
    { destruct (trim_result block) as [N|[Ee _]]; [|exact Ee].
      rewrite N in J. destruct line0; discriminate J. }
    rewrite <- J, R in Q, Et.
    destruct (lines_solid (l :: ls')
                (Forall_inv_tail (Forall_inv_tail F)) ltac:(discriminate) _ Q Et)
      as [Fs Es].
    split; [exact Fs|]. split; [intros _; exact Es|exact Hr].
Qed.

(** C2, as the code has it.  When the entries read from a text have an
    id in the exact range, times below 100 hours and no carriage return
    before a line feed in their text, printing them and reading the result
    gives the same entries, field for field. *)
Theorem parse_stringify_parse (x : jsstring) :
  forallb printsBack (parseSrt x) = true ->
  parseSrt (stringifySrt (parseSrt x)) = parseSrt x.
Proof.
  intros H. apply parseSrt_stringifySrt. apply Forall_forall. intros e He.
  apply (parsed_canonical x e He). rewrite forallb_forall in H. apply H. exact He.
Qed.

Lemma parse_stringify_parse_witness :
  parseSrt (stringifySrt (parseSrt sampleFile)) = parseSrt sampleFile.
Proof.
  apply (parse_stringify_parse sampleFile). reflexivity.
Defined.

(** C2 as it is stated fails: 99:99:99,999 is read as 362439999 ms, which
    is printed with three digits of hours, 100:40:39,999; read again, the
    pattern takes 00:40:39,999. *)
Lemma parse_stringify_parse_fails_over_100_hours :
  parseSrt overflowBlock = [mkEntry (Num 1) (Num 362439999) (Num 0) (str "x")]
  /\ parseSrt (stringifySrt (parseSrt overflowBlock))
     = [mkEntry (Num 1) (Num 2439999) (Num 0) (str "x")]
  /\ parseSrt (stringifySrt (parseSrt overflowBlock)) <> parseSrt overflowBlock.
Proof.
  assert (E1 : parseSrt overflowBlock
               = [mkEntry (Num 1) (Num 362439999) (Num 0) (str "x")]) by reflexivity.
  assert (E2 : parseSrt (stringifySrt (parseSrt overflowBlock))
               = [mkEntry (Num 1) (Num 2439999) (Num 0) (str "x")]) by reflexivity.
  split; [exact E1|]. split; [exact E2|]. rewrite E2, E1. discriminate.
Qed.

(** The other way it fails: a carriage return that the first reading left
    before a line feed is removed by the second. *)
Lemma parse_stringify_parse_fails_on_carriage_return :
  parseSrt carriageBlock
  = [mkEntry (Num 1) (Num 1000) (Num 2000) (str "a" ++ [CR; LF] ++ str "b")]
  /\ parseSrt (stringifySrt (parseSrt carriageBlock))
     = [mkEntry (Num 1) (Num 1000) (Num 2000) (str "a" ++ [LF] ++ str "b")].
Proof. split; reflexivity. Qed.

(* ================================================================== *)
(** * More on the re-timing *)
(* ================================================================== *)

(** ** Any decision, any order of the two times *)

Lemma equalLoop_chain (k e : Z) (chunks : list jsstring) :
  chunks <> [] ->
  forall cur n,
    map text (fst (equalLoop (Num k) (Num e) chunks (Num cur) n)) = chunks
    /\ chained cur (fst (equalLoop (Num k) (Num e) chunks (Num cur) n)) e
    /\ Forall (lasts k) (removelast (fst (equalLoop (Num k) (Num e) chunks (Num cur) n))).
Proof.
  induction chunks as [|c rest IH]; intros Hne cur n; [contradiction|].
  destruct rest as [|c' rest'].
  - cbn. repeat split; auto. exists e. auto.
  - specialize (IH ltac:(discriminate) (cur + k) (n + 1)).
    change (equalLoop (Num k) (Num e) (c :: c' :: rest') (Num cur) n)
      with (let (pushed, n') :=
              equalLoop (Num k) (Num e) (c' :: rest') (Num (cur + k)) (n + 1) in
            (mkEntry (Num n) (Num cur) (Num (cur + k)) c :: pushed, n')).
    destruct (equalLoop (Num k) (Num e) (c' :: rest') (Num (cur + k)) (n + 1))
      as [pushed n'].
    destruct IH as (T & C & F). cbn [fst snd] in *.
    cbn [map chained startTime endTime text]. repeat split.
    + rewrite T. reflexivity.
    + exists (cur + k). auto.
    + destruct pushed as [|p ps]; [discriminate T|].
      cbn [removelast]. constructor; [|exact F]. exists cur. auto.
Qed.

(** Whatever the decision, the entries added for an entry whose times are
    integers form a chain from its start to its end. *)
Lemma reallocate_chained (originalEntry : SrtEntry) (t : processedText) (n s e : Z) :
  startTime originalEntry = Num s ->
  endTime originalEntry = Num e ->
  e - s < safeBound ->
  (forall a, t = TextArray a -> totalLengthOf (textChunksOf a) < safeBound) ->
  chained s (fst (reallocate originalEntry t n)) e.
Proof.
  intros Hs He Hd HW.
  destruct t as [txt|a|]; cbn [reallocate]; rewrite ?Hs, ?He;
    try (cbn; split; [reflexivity|exists e; auto]).
  destruct (length (textChunksOf a) <? 2)%nat eqn:E2;
    [cbn; split; [reflexivity|exists e; auto]|].
  apply Nat.ltb_ge in E2.
  assert (Hne : textChunksOf a <> [])
    by (destruct (textChunksOf a); [simpl in E2; lia|discriminate]).
  cbn [nsub lift2 ngtb].
  destruct (0 <? totalLengthOf (textChunksOf a)) eqn:EW;
    destruct (0 <? e - s) eqn:ED; cbn [andb floorDiv orZero].
  - apply Z.ltb_lt in EW, ED.
    assert (R : splitResult e (textChunksOf a) s n
                  (proportionalLoop (Num (e - s)) (totalLengthOf (textChunksOf a))
                     (Num e) (textChunksOf a) (Num s) n)).
    { apply proportionalLoop_result.
      - lia.
      - split; [lia|]. apply HW. reflexivity.
      - intros c Hc. apply chunkLength_le_total. exact Hc.
      - exact Hne. }
    exact (proj1 (proj2 (proj2 (proj2 R)))).
  - exact (proj1 (proj2 (equalLoop_chain _ e _ Hne s n))).
  - exact (proj1 (proj2 (equalLoop_chain _ e _ Hne s n))).
  - exact (proj1 (proj2 (equalLoop_chain _ e _ Hne s n))).
Qed.

Lemma chained_total (l : list SrtEntry) :
  l <> [] -> forall s e, chained s l e -> totalDurationOf l = e - s.
Proof.
  induction l as [|x l IH]; intros Hne s e H; [contradiction|].
  destruct H as (Hs & t & He & C).
  assert (D : durationOf x = t - s) by (unfold durationOf; rewrite Hs, He; reflexivity).
  change (totalDurationOf (x :: l)) with (durationOf x + totalDurationOf l).
  rewrite D. destruct l as [|y l'].
  - cbn [chained] in C. cbn [totalDurationOf fold_right]. lia.
  - rewrite (IH ltac:(discriminate) t e C). lia.
Qed.

Lemma proportionalLoop_texts (d : number) (W : Z) (e : number) (chunks : list jsstring) :
  forall cur n, map text (fst (proportionalLoop d W e chunks cur n)) = chunks.
Proof.
  induction chunks as [|c rest IH]; intros cur n; [reflexivity|].
  destruct rest as [|c' rest']; [reflexivity|].
  set (cur' := nadd cur (roundedShare d (chunkLengthOf c) W)).
  change (proportionalLoop d W e (c :: c' :: rest') cur n)
    with (let (pushed, n') := proportionalLoop d W e (c' :: rest') cur' (n + 1) in
          (mkEntry (Num n) cur cur' c :: pushed, n')).
  specialize (IH cur' (n + 1)).
  destruct (proportionalLoop d W e (c' :: rest') cur' (n + 1)) as [pushed n'].
  cbn [fst map text] in *. rewrite IH. reflexivity.
Qed.

Lemma equalLoop_texts (k e : number) (chunks : list jsstring) :
  forall cur n, map text (fst (equalLoop k e chunks cur n)) = chunks.
Proof.
  induction chunks as [|c rest IH]; intros cur n; [reflexivity|].
  cbn [equalLoop].
  set (endT := match rest with [] => e | _ :: _ => nadd cur k end).
  specialize (IH endT (n + 1)).
  destruct (equalLoop k e rest endT (n + 1)) as [pushed n'].
  cbn [fst map text] in *. rewrite IH. reflexivity.
Qed.

Lemma split_keeps_the_chunks_any (originalEntry : SrtEntry) (a : list element) (n : Z) :
  (2 <= length (textChunksOf a))%nat ->
  map text (fst (reallocate originalEntry (TextArray a) n)) = textChunksOf a.
Proof.
  intros Hn. unfold reallocate.
  replace (length (textChunksOf a) <? 2)%nat with false
    by (symmetry; apply Nat.ltb_ge; exact Hn).
  destruct (_ && _)%bool; [apply proportionalLoop_texts|apply equalLoop_texts].
Qed.

(** A split keeps the chunks: whatever the times of the original, even
    [NaN], the texts of the entries added are the chunks left, in their
    order. *)
Theorem split_keeps_the_chunks (originalEntry : SrtEntry) (a : list element) (n : Z) :
  (2 <= length (textChunksOf a))%nat ->
  map text (fst (reallocate originalEntry (TextArray a) n)) = textChunksOf a.
Proof.
  intros Hn. unfold reallocate.
  replace (length (textChunksOf a) <? 2)%nat with false
    by (symmetry; apply Nat.ltb_ge; exact Hn).
  destruct (_ && _)%bool; [apply proportionalLoop_texts|apply equalLoop_texts].
Qed.

Lemma split_keeps_the_chunks_witness :
  map text (fst (reallocate (mkEntry (Num 1) NaN NaN (str "x")) (TextArray fourChunks) 1))
  = textChunksOf fourChunks.
Proof.
  apply (split_keeps_the_chunks (mkEntry (Num 1) NaN NaN (str "x")) fourChunks 1).
  simpl. lia.
Defined.

Lemma reallocate_not_nil (originalEntry : SrtEntry) (t : processedText) (n : Z) :
  fst (reallocate originalEntry t n) <> [].
Proof.
  destruct t as [txt|a|]; try (cbn; discriminate).
  destruct (length (textChunksOf a) <? 2)%nat eqn:E2.
  - cbn [reallocate]. rewrite E2. cbn. discriminate.
  - apply Nat.ltb_ge in E2. intros E.
    pose proof (split_keeps_the_chunks_any originalEntry a n E2) as T.
    rewrite E in T. cbn in T. rewrite <- T in E2. simpl in E2. lia.
Qed.

(** The durations of the entries added for one entry sum to the duration
    of that entry, whatever the decision and whichever of the two times is
    the later. *)
Theorem durations_sum_to_original (originalEntry : SrtEntry) (t : processedText)
    (n s e : Z) :
  startTime originalEntry = Num s ->
  endTime originalEntry = Num e ->
  e - s < safeBound ->
  (forall a, t = TextArray a -> totalLengthOf (textChunksOf a) < safeBound) ->
  totalDurationOf (fst (reallocate originalEntry t n)) = e - s.
Proof.
  intros Hs He Hd HW.
  apply chained_total; [apply reallocate_not_nil|].
  apply reallocate_chained; assumption.
Qed.

Lemma durations_sum_to_original_witness :
  totalDurationOf (fst (reallocate shortEntry (TextArray fourChunks) 1)) = 2 - 0.
Proof.
  apply (durations_sum_to_original shortEntry (TextArray fourChunks) 1 0 2).
  - reflexivity.
  - reflexivity.
  - reflexivity.
  - intros a H. injection H as <-. reflexivity.
Defined.

(** When the end of the original is not after its start, the chunks get
    equal durations: each entry but the last lasts
    [floor ((endTime - startTime) / N)] milliseconds, the entries form a
    chain from the start, and the last ends at the end of the original. *)
Theorem equal_split_when_not_forward (originalEntry : SrtEntry) (a : list element)
    (n s e : Z) :
  startTime originalEntry = Num s ->
  endTime originalEntry = Num e ->
  e <= s ->
  (2 <= length (textChunksOf a))%nat ->
  let out := fst (reallocate originalEntry (TextArray a) n) in
  map text out = textChunksOf a
  /\ chained s out e
  /\ Forall (lasts ((e - s) / Z.of_nat (length (textChunksOf a)))) (removelast out).
Proof.
  intros Hs He Hle Hn out. subst out. unfold reallocate.
  replace (length (textChunksOf a) <? 2)%nat with false
    by (symmetry; apply Nat.ltb_ge; exact Hn).
  rewrite Hs, He. cbn [nsub lift2 ngtb].
  replace (0 <? e - s) with false by (symmetry; apply Z.ltb_ge; lia).
  rewrite andb_false_r. cbn [floorDiv orZero].
  apply equalLoop_chain.
  destruct (textChunksOf a); [simpl in Hn; lia|discriminate].
Qed.

Lemma equal_split_when_not_forward_witness :
  let out := fst (reallocate (mkEntry (Num 1) (Num 10) (Num 3) (str "x"))
                    (TextArray fourChunks) 1) in
  map text out = textChunksOf fourChunks
  /\ chained 10 out 3
  /\ Forall (lasts ((3 - 10) / Z.of_nat (length (textChunksOf fourChunks))))
       (removelast out).
Proof.
  apply (equal_split_when_not_forward (mkEntry (Num 1) (Num 10) (Num 3) (str "x"))
           fourChunks 1 10 3).
  - reflexivity.
  - reflexivity.
  - lia.
  - simpl. lia.
Defined.

(** ** The map of the original entries *)

Lemma sameValueZero_refl (k : number) : sameValueZero k k = true.
Proof. destruct k; cbn; [reflexivity|apply Z.eqb_refl]. Qed.

Lemma sameValueZero_eq (a b : number) : sameValueZero a b = true -> a = b.
Proof.
  destruct a, b; cbn; try discriminate; [reflexivity|].
  intros H. apply Z.eqb_eq in H. subst. reflexivity.
Qed.

Lemma Map_get_absent (entries : list SrtEntry) (k : number) :
  existsb (fun y => sameValueZero (id y) k) entries = false ->
  Map_get (Map_new (map (fun e => (id e, e)) entries)) k = None.
Proof.
  unfold Map_new. induction entries as [|x r IH]; [reflexivity|].
  cbn [existsb map Map_get]. intros H. apply orb_false_elim in H. destruct H as [Hx Hr].
  rewrite (IH Hr), Hx. reflexivity.
Qed.

(** [Map.get] on the map of the original entries: the last entry that has
    the id, and nothing exactly when no entry has it. *)
Theorem map_get_finds_last_entry (entries : list SrtEntry) (k : number) :
  match Map_get (Map_new (map (fun e => (id e, e)) entries)) k with
  | Some e =>
      exists l1 l2,
        entries = l1 ++ e :: l2 /\ id e = k
        /\ existsb (fun y => sameValueZero (id y) k) l2 = false
  | None => existsb (fun y => sameValueZero (id y) k) entries = false
  end.
Proof.
  unfold Map_new. induction entries as [|x r IH]; [reflexivity|].
  cbn [map Map_get existsb].
  destruct (Map_get (map (fun e => (id e, e)) r) k) as [w|].
  - destruct IH as (l1 & l2 & -> & Hw & Hl2).
    exists (x :: l1), l2. auto.
  - destruct (sameValueZero (id x) k) eqn:E.
    + exists [], r. split; [reflexivity|]. split; [apply sameValueZero_eq; exact E|exact IH].
    + cbn [orb]. exact IH.
Qed.

Lemma Map_get_distinct (entries : list SrtEntry) (e : SrtEntry) :
  distinctIds entries = true -> In e entries ->
  Map_get (Map_new (map (fun x => (id x, x)) entries)) (id e) = Some e.
Proof.
  unfold Map_new. induction entries as [|x r IH]; intros D H; [contradiction|].
  cbn [distinctIds] in D. apply andb_prop in D. destruct D as [Dx Dr].
  apply negb_true_iff in Dx. cbn [map Map_get]. destruct H as [<-|H].
  - pose proof (Map_get_absent r (id x) Dx) as A. unfold Map_new in A.
    rewrite A, sameValueZero_refl. reflexivity.
  - rewrite (IH Dr H). reflexivity.
Qed.

(** ** Decisions that name no entry, answers that cannot be used *)

Lemma loopStep_unknown (originalEntries : list SrtEntry) (st : loopState)
    (d : ProcessedEntry) :
  namesAnEntry originalEntries d = false ->
  loopStep (Map_new (map (fun e => (id e, e)) originalEntries)) st d = st.
Proof.
  unfold namesAnEntry, loopStep. destruct (pid d) as [k|]; [|reflexivity].
  intros H. rewrite (Map_get_absent _ _ H). reflexivity.
Qed.

(** A decision without an id, or with an id that no original entry has, is
    dropped: the new file is the one made of the other decisions. *)
Theorem retime_drops_unknown_ids (originalEntries : list SrtEntry)
    (processedEntriesFromAI : list ProcessedEntry) :
  retime originalEntries processedEntriesFromAI
  = retime originalEntries (filter (namesAnEntry originalEntries) processedEntriesFromAI).
Proof.
  unfold retime. cbv zeta. f_equal. generalize (mkState [] 1).
  induction processedEntriesFromAI as [|d ds IH]; intros st; [reflexivity|].
  cbn [fold_left filter].
  destruct (namesAnEntry originalEntries d) eqn:E.
  - cbn [fold_left]. apply IH.
  - rewrite (loopStep_unknown _ _ _ E). apply IH.
Qed.

(** When the answer of the service is replaced by the entries as they
    were, and no two entries have the same id, the new file has the times
    and the texts of the old one, the ids being 1, 2, 3, ... *)
Theorem retime_of_unprocessed (originalEntries : list SrtEntry) :
  distinctIds originalEntries = true ->
  retime originalEntries (GeminiService.unprocessed originalEntries)
  = renumberFrom 1 originalEntries.
Proof.
  intros D. unfold retime. cbv zeta.
  set (m := Map_new (map (fun e => (id e, e)) originalEntries)).
  assert (G : forall l st,
             (forall e, In e l -> Map_get m (id e) = Some e) ->
             newSrtEntries (fold_left (loopStep m) (GeminiService.unprocessed l) st)
             = newSrtEntries st ++ renumberFrom (newId st) l).
  { induction l as [|x l IH]; intros st H.
    - cbn. rewrite List.app_nil_r. reflexivity.
    - cbn [GeminiService.unprocessed map fold_left].
      change (map (fun e => mkProcessed (Some (id e)) (TextString (text e))) l)
        with (GeminiService.unprocessed l).
      rewrite IH by (intros e He; apply H; right; exact He).
      unfold loopStep at 1 2. cbn [pid ptext].
      rewrite (H x (or_introl eq_refl)). cbn [reallocate newSrtEntries newId].
      rewrite <- List.app_assoc. reflexivity. }
  rewrite G; [reflexivity|].
  intros e He. apply Map_get_distinct; assumption.
Qed.

Lemma retime_of_unprocessed_witness :
  retime (parseSrt sampleFile) (GeminiService.unprocessed (parseSrt sampleFile))
  = renumberFrom 1 (parseSrt sampleFile).
Proof.
  apply (retime_of_unprocessed (parseSrt sampleFile)). reflexivity.
Defined.

(** When [processSubtitlesBatch] returns, it returns as many decisions as
    it was given entries. *)
Theorem accepted_answer_has_length_of_entries (entries : list SrtEntry)
    (a : GeminiService.answer) (r : list ProcessedEntry) :
  GeminiService.acceptAnswer entries a = Some r -> length r = length entries.
Proof.
  assert (U : length (GeminiService.unprocessed entries) = length entries)
    by apply length_map.
  destruct a as [| |[|d|]]; cbn [GeminiService.acceptAnswer]; try discriminate;
    try (intros H; injection H as <-; exact U).
  destruct (length d =? length entries)%nat eqn:E; cbn [negb].
  - intros H. injection H as <-. apply Nat.eqb_eq. exact E.
  - intros H. injection H as <-. exact U.
Qed.

Lemma accepted_answer_has_length_of_entries_witness :
  length (GeminiService.unprocessed (parseSrt sampleFile)) = length (parseSrt sampleFile).
Proof.
  apply (accepted_answer_has_length_of_entries (parseSrt sampleFile)
           (GeminiService.Parsed (GeminiService.JArray [mkProcessed None TextInvalid]))).
  reflexivity.
Defined.

(* ================================================================== *)
(** * More on the time codec *)
(* ================================================================== *)

(** A time from 0 to 99:59:59,999 that is printed and read is the same
    time. *)
Theorem time_printed_then_read (a : Z) :
  0 <= a <= maxTime -> timeToMs (msToTime (Num a)) = Num a.
Proof.
  intros Ha. destruct (msToTime_timestamp a Ha) as [T V].
  destruct (timeToMs_shape_value (msToTime (Num a)) T) as [E _].
  rewrite E, V. reflexivity.
Qed.

Lemma time_printed_then_read_witness :
  timeToMs (msToTime (Num 359999999)) = Num 359999999.
Proof. apply (time_printed_then_read 359999999). unfold maxTime. lia. Defined.

Lemma three_digits_at_least (ds : jsstring) :
  Forall (fun c => isDigit c = true) ds -> 100 <= digitsValue 0 ds ->
  exists d1 d2 d3 r, ds = d1 :: d2 :: d3 :: r /\ isDigit d3 = true.
Proof.
  intros F H. destruct ds as [|d1 [|d2 [|d3 r]]].
  - cbn in H. lia.
  - inversion F as [|? ? F1 _]; subst. pose proof (digit_facts d1 F1). cbn in H. lia.
  - inversion F as [|? ? F1 F']; subst. inversion F' as [|? ? F2 _]; subst.
    pose proof (digit_facts d1 F1). pose proof (digit_facts d2 F2).
    cbn [digitsValue] in H. lia.
  - exists d1, d2, d3, r. split; [reflexivity|].
    inversion F as [|? ? _ F']; subst. inversion F' as [|? ? _ F'']; subst.
    inversion F'' as [|? ? F3 _]; subst. exact F3.
Qed.

(** [msToTime] prints a string of the shape [HH:MM:SS,mmm] exactly for the
    times from 0 to 99:59:59,999: a negative time is printed with minus
    signs, a later one with three digits of hours or more. *)
Theorem msToTime_prints_timestamp_iff (a : Z) :
  isTimestamp (msToTime (Num a)) = true <-> 0 <= a <= maxTime.
Proof.
  split; [|intros Ha; exact (proj1 (msToTime_timestamp a Ha))].
  intros T. destruct (isTimestamp_shape _ T)
    as (h1 & h2 & m1 & m2 & s1 & s2 & f1 & f2 & f3 & E & Hh1 & _).
  unfold msToTime in E. cbn [floorDiv nrem lift2] in E.
  set (H := a / 1000 / 3600) in E.
  destruct (String_shape H) as (sign & ds & ES & Hs & Hne & Hd & Hv & Hz).
  destruct (Z_lt_le_dec a 0) as [Neg|Pos].
  - exfalso.
    assert (HH : H < 0).
    { subst H. assert (a / 1000 < 0) by (apply Z.div_lt_upper_bound; lia).
      apply Z.div_lt_upper_bound; lia. }
    destruct Hs as [->| ->]; [destruct Hz as [Hz _]; specialize (Hz eq_refl); lia|].
    destruct ds as [|d ds']; [contradiction|].
    rewrite ES in E. cbn in E. injection E as E _. subst h1. discriminate Hh1.
  - split; [exact Pos|].
    destruct (Z_lt_le_dec maxTime a) as [Big|Ok]; [exfalso|exact Ok].
    assert (HH : 100 <= H).
    { subst H. unfold maxTime in Big. rewrite Z.div_div by lia.
      apply Z.div_le_lower_bound; lia. }
    destruct Hs as [-> | ->]; [|destruct Hz as [_ Hz]; specialize (Hz ltac:(lia)); discriminate Hz].
    cbn [app] in ES.
    destruct (three_digits_at_least ds Hd ltac:(lia)) as (d1 & d2 & d3 & r & -> & D3).
    rewrite ES in E. cbn in E. injection E as _ _ E _. subst d3. discriminate D3.
Qed.

(* ================================================================== *)
(** * More on the files *)
(* ================================================================== *)

Lemma last_endsSolid (s : jsstring) (c : ascii) :
  s <> [] -> isWhiteSpace (last s c) = false -> endsSolid s.
Proof.
  intros Hne H. destruct (exists_last Hne) as (q & d & ->).
  rewrite last_last in H. exists q, d. split; [reflexivity|exact H].
Qed.

Lemma hasSolidChar_exists (l : jsstring) :
  hasSolidChar l = true -> Exists (fun c => isWhiteSpace c = false) l.
Proof.
  unfold hasSolidChar. intros H. apply existsb_exists in H. destruct H as (c & Hc & Hw).
  apply Exists_exists. exists c. split; [exact Hc|]. apply negb_true_iff. exact Hw.
Qed.

Lemma wellFormed_canonical (e : SrtEntry) : wellFormed e = true -> canonical e.
Proof.
  unfold wellFormed. destruct (id e) as [|z] eqn:Ei; [discriminate|].
  destruct (startTime e) as [|a] eqn:Ea; [discriminate|].
  destruct (endTime e) as [|b] eqn:Eb; [discriminate|].
  intros H. repeat (apply andb_prop in H; destruct H as [H ?]).
  repeat match goal with
         | X : (_ <=? _) = true |- _ => apply Z.leb_le in X
         end.
  destruct (text e) as [|c r] eqn:Et.
  - exists z, a, b, []. rewrite Et. repeat split; auto; try lia. contradiction.
  - exists z, a, b, (split isLF (c :: r)). rewrite Et.
    match goal with X : wellFormedText _ = true |- _ => rename X into W end.
    cbn [wellFormedText] in W.
    apply andb_prop in W. destruct W as [W Wc]. apply andb_prop in W. destruct W as [Wl We].
    split; [exact Ei|]. split; [exact Ea|]. split; [exact Eb|].
    split; [lia|]. split; [lia|].
    split; [symmetry; apply join_split|].
    split.
    + pose proof (split_lines_lfFree (c :: r)) as F. rewrite forallb_forall in Wl.
      rewrite Forall_forall in *. intros l Hl. split; [apply F; exact Hl|].
      apply hasSolidChar_exists. apply Wl. exact Hl.
    + split.
      * intros _. apply last_endsSolid with c; [discriminate|].
        apply negb_true_iff. exact We.
      * apply hasCRLF_replace. apply negb_true_iff. exact Wc.
Qed.

(** Entries with an integer id, times from 0 to 99:59:59,999 and a text
    without a blank line, without white space at its end and without a
    carriage return before a line feed are read back from what
    [stringifySrt] prints, field for field. *)
Theorem stringify_then_parse (entries : list SrtEntry) :
  forallb wellFormed entries = true ->
  parseSrt (stringifySrt entries) = entries.
Proof.
  intros H. apply parseSrt_stringifySrt. apply Forall_forall. intros e He.
  apply wellFormed_canonical. rewrite forallb_forall in H. apply H. exact He.
Qed.

Lemma stringify_then_parse_witness :
  parseSrt (stringifySrt
              [mkEntry (Num 7) (Num 0) (Num 1500) (str " Hi" ++ [LF] ++ str "there");
               mkEntry (Num (-3)) (Num 359999999) (Num 2) [];
               mkEntry (Num 7) (Num 5) (Num 5) (str "x")])
  = [mkEntry (Num 7) (Num 0) (Num 1500) (str " Hi" ++ [LF] ++ str "there");
     mkEntry (Num (-3)) (Num 359999999) (Num 2) [];
     mkEntry (Num 7) (Num 5) (Num 5) (str "x")].
Proof.
  apply (stringify_then_parse
           [mkEntry (Num 7) (Num 0) (Num 1500) (str " Hi" ++ [LF] ++ str "there");
            mkEntry (Num (-3)) (Num 359999999) (Num 2) [];
            mkEntry (Num 7) (Num 5) (Num 5) (str "x")]).
  reflexivity.
Defined.

(** The text of an entry that [parseSrt] returns has no blank line and no
    white space at its end: every line of it has a code unit that is not
    white space, and so has its end. *)
Theorem parsed_text_has_no_blank_line (x : jsstring) (e : SrtEntry) :
  In e (parseSrt x) -> text e <> [] ->
  Forall solid (split isLF (text e)) /\ endsSolid (text e).
Proof.
  intros Hin Hne. destruct (parseSrt_inv x e Hin)
    as (block & Hb & line0 & line1 & rest & z & t1 & t2 & Hl & Hi & Ht & ->).
  cbn [text] in *. destruct rest as [|l ls']; [contradiction Hne; reflexivity|].
  pose proof (blocks_quiet _ _ Hb) as Q. apply quiet_trim in Q.
  pose proof (join_split (trim block)) as J. rewrite Hl in J.
  pose proof (split_lines_lfFree (trim block)) as F. rewrite Hl in F.
  change (join [LF] (line0 :: line1 :: l :: ls'))
    with (line0 ++ LF :: line1 ++ LF :: join [LF] (l :: ls')) in J.
  assert (R : line0 ++ LF :: line1 ++ LF :: join [LF] (l :: ls')
              = (line0 ++ LF :: line1) ++ LF :: join [LF] (l :: ls')).
  { rewrite <- List.app_assoc. reflexivity. }
  assert (Et : endsSolid (trim block)).
  { destruct (trim_result block) as [N|[Ee _]]; [|exact Ee].
    rewrite N in J. destruct line0; discriminate J. }
  rewrite <- J, R in Q, Et.
  pose proof (Forall_inv_tail (Forall_inv_tail F)) as Fr.
  destruct (lines_solid (l :: ls') Fr ltac:(discriminate) _ Q Et) as [Fs Es].
  split; [|exact Es].
  rewrite split_join; [exact Fs|discriminate|exact Fr].
Qed.

Lemma parsed_text_has_no_blank_line_witness :
  Forall solid (split isLF (str "Hello" ++ [LF] ++ str " world"))
  /\ endsSolid (str "Hello" ++ [LF] ++ str " world").
Proof.
  apply (parsed_text_has_no_blank_line sampleFile
           (mkEntry (Num 1) (Num 1000) (Num 2500) (str "Hello" ++ [LF] ++ str " world"))).
  - left. reflexivity.
  - discriminate.
Defined.

(** ** Line ends *)

Lemma toCRLF_head (s : jsstring) (d : ascii) (r : jsstring) :
  toCRLF s = d :: r -> isLF d = false.
Proof.
  destruct s as [|c s']; cbn [toCRLF]; [discriminate|].
  destruct (isLF c) eqn:E.
  - intros H. injection H as <- _. reflexivity.
  - intros H. injection H as <- _. exact E.
Qed.

Lemma replaceCRLF_toCRLF (s : jsstring) : replaceCRLF (toCRLF s) = s.
Proof.
  induction s as [|c s IH]; [reflexivity|].
  cbn [toCRLF]. destruct (isLF c) eqn:E.
  - apply Ascii.eqb_eq in E. subst c. rewrite replaceCRLF_two.
    change (Ascii.eqb CR CR && Ascii.eqb LF LF)%bool with true. cbv iota.
    rewrite IH. reflexivity.
  - destruct (toCRLF s) as [|d r] eqn:T.
    + cbn [replaceCRLF]. cbn [replaceCRLF] in IH. rewrite <- IH. reflexivity.
    + rewrite replaceCRLF_two. pose proof (toCRLF_head s d r T) as Hd.
      unfold isLF in Hd. rewrite Hd, andb_false_r, IH. reflexivity.
Qed.

(** A file written with line feeds only gives the same entries when a
    carriage return is put before every line feed. *)
Theorem parse_ignores_carriage_returns (x : jsstring) :
  hasCRLF x = false -> parseSrt (toCRLF x) = parseSrt x.
Proof.
  intros H. unfold parseSrt. cbv zeta.
  rewrite replaceCRLF_toCRLF, (hasCRLF_replace x H). reflexivity.
Qed.

Lemma parse_ignores_carriage_returns_witness :
  parseSrt (toCRLF backwardBlock) = parseSrt backwardBlock.
Proof. apply (parse_ignores_carriage_returns backwardBlock). reflexivity. Defined.

(** ** Blank files *)

Lemma replaceCRLF_white (x : jsstring) :
  Forall (fun c => isWhiteSpace c = true) x ->
  Forall (fun c => isWhiteSpace c = true) (replaceCRLF x).
Proof.
  induction x as [x IH] using (well_founded_induction
    (Wf_nat.well_founded_ltof _ (@length ascii))).
  intros H. destruct x as [|c [|d r]]; [exact H|exact H|].
  rewrite replaceCRLF_two.
  inversion H as [|? ? Hc H']; subst. inversion H' as [|? ? Hd H'']; subst.
  destruct (Ascii.eqb c CR && Ascii.eqb d LF)%bool.
  - constructor; [reflexivity|]. apply IH; [unfold Wf_nat.ltof; cbn; lia|exact H''].
  - constructor; [exact Hc|]. apply IH; [unfold Wf_nat.ltof; cbn; lia|exact H'].
Qed.

Lemma trim_white (x : jsstring) :
  Forall (fun c => isWhiteSpace c = true) x -> trim x = [].
Proof.
  intros H. unfold trim, trimStart.
  assert (E : dropWhile isWhiteSpace x = []).
  { induction H as [|c x Hc _ IH]; [reflexivity|]. cbn [dropWhile]. rewrite Hc. exact IH. }
  rewrite E. reflexivity.
Qed.

(** A file of white space only, the empty file among them, gives no entry
    and no error, with either parser. *)
Theorem blank_file_has_no_entry (x : jsstring) :
  forallb isWhiteSpace x = true ->
  parseSrt x = [] /\ SrcSrtService.parseSrt x = SrcSrtService.Returns [].
Proof.
  intros H. assert (W : Forall (fun c => isWhiteSpace c = true) x)
    by (apply Forall_forall; apply forallb_forall; exact H).
  split.
  - unfold parseSrt. cbv zeta. rewrite (trim_white _ (replaceCRLF_white x W)).
    reflexivity.
  - unfold SrcSrtService.parseSrt. rewrite (trim_white x W). reflexivity.
Qed.

Lemma blank_file_has_no_entry_witness :
  parseSrt [CR; LF; " "%char; LF] = []
  /\ SrcSrtService.parseSrt [CR; LF; " "%char; LF] = SrcSrtService.Returns [].
Proof. apply (blank_file_has_no_entry [CR; LF; " "%char; LF]). reflexivity. Defined.

(** ** The time line *)

Lemma dropWhile_white_app (w r : jsstring) (c : ascii) :
  forallb isWhiteSpace w = true -> isWhiteSpace c = false ->
  dropWhile isWhiteSpace (w ++ c :: r) = c :: r.
Proof.
  intros Hw Hc. induction w as [|d w IH]; cbn [app dropWhile].
  - rewrite Hc. reflexivity.
  - cbn [forallb] in Hw. apply andb_prop in Hw. destruct Hw as [Hd Hw].
    rewrite Hd. apply IH. exact Hw.
Qed.

(** On the time line [parseSrt] takes any run of white space, none
    included, on either side of the arrow, and does not look at what
    follows the second timestamp. *)
Theorem time_line_spacing (t1 t2 w1 w2 rest : jsstring) :
  isTimestamp t1 = true -> isTimestamp t2 = true ->
  forallb isWhiteSpace w1 = true -> forallb isWhiteSpace w2 = true ->
  SrtService.timeMatch (t1 ++ w1 ++ str "-->" ++ w2 ++ t2 ++ rest) = Some (t1, t2).
Proof.
  intros T1 T2 W1 W2.
  destruct (isTimestamp_shape t1 T1)
    as (h1 & h2 & m1 & m2 & s1 & s2 & f1 & f2 & f3 & E1 & _).
  destruct (isTimestamp_shape t2 T2)
    as (g1 & g2 & n1 & n2 & u1 & u2 & k1 & k2 & k3 & E2 & Hg1 & _).
  set (tail := w1 ++ str "-->" ++ w2 ++ t2 ++ rest).
  assert (H : SrtService.timeMatchHere (t1 ++ tail) = Some (t1, t2)).
  { unfold SrtService.timeMatchHere. cbv zeta.
    assert (F1 : firstn 12 (t1 ++ tail) = t1) by (rewrite E1; reflexivity).
    assert (S1 : skipn 12 (t1 ++ tail) = tail) by (rewrite E1; reflexivity).
    rewrite F1, S1, T1. unfold tail.
    change (str "-->" ++ w2 ++ t2 ++ rest)
      with ("-"%char :: str "->" ++ w2 ++ t2 ++ rest).
    rewrite (dropWhile_white_app w1 _ "-"%char W1 eq_refl).
    change (startsWith (str "-->") ("-"%char :: str "->" ++ w2 ++ t2 ++ rest)) with true.
    cbv iota.
    change (skipn 3 ("-"%char :: str "->" ++ w2 ++ t2 ++ rest)) with (w2 ++ t2 ++ rest).
    assert (D : dropWhile isWhiteSpace (w2 ++ t2 ++ rest) = t2 ++ rest).
    { rewrite E2. cbn [app].
      apply dropWhile_white_app; [exact W2|exact (proj1 (digit_facts g1 Hg1))]. }
    rewrite D.
    assert (F2 : firstn 12 (t2 ++ rest) = t2) by (rewrite E2; reflexivity).
    rewrite F2, T2. reflexivity. }
  destruct (t1 ++ tail) as [|c r] eqn:E.
  - rewrite E1 in E. discriminate E.
  - cbn [SrtService.timeMatch]. rewrite H. reflexivity.
Qed.

Lemma time_line_spacing_witness :
  SrtService.timeMatch
    (str "00:00:01,000" ++ [] ++ str "-->" ++ [" "%char; CR] ++ str "00:00:02,500"
     ++ str " X1:10")
  = Some (str "00:00:01,000", str "00:00:02,500").
Proof.
  apply (time_line_spacing (str "00:00:01,000") (str "00:00:02,500") []
           [" "%char; CR] (str " X1:10")); reflexivity.
Defined.

Lemma startsWith_app (p s : jsstring) :
  startsWith p s = true -> exists q, s = p ++ q.
Proof.
  revert s. induction p as [|a p IH]; intros s H.
  - exists s. reflexivity.
  - destruct s as [|b s]; [discriminate H|]. cbn [startsWith] in H.
    apply andb_prop in H. destruct H as [Hab H]. apply Ascii.eqb_eq in Hab. subst b.
    destruct (IH s H) as (q & ->). exists q. reflexivity.
Qed.

Lemma src_timeMatchHere_shape (s t1 t2 : jsstring) :
  SrcSrtService.timeMatchHere s = Some (t1, t2) ->
  isTimestamp t1 = true /\ isTimestamp t2 = true
  /\ exists q, s = t1 ++ str " --> " ++ t2 ++ q.
Proof.
  unfold SrcSrtService.timeMatchHere. cbv zeta.
  destruct (isTimestamp (firstn 12 s)) eqn:T1; [|discriminate].
  destruct (startsWith (str " --> ") (skipn 12 s)) eqn:A; [|discriminate].
  destruct (isTimestamp (firstn 12 (skipn 17 s))) eqn:T2; [|discriminate].
  cbn [andb]. intros H.
  assert (E1 : t1 = firstn 12 s) by congruence.
  assert (E2 : t2 = firstn 12 (skipn 17 s)) by congruence.
  clear H. subst t1 t2. split; [exact T1|]. split; [exact T2|].
  destruct (startsWith_app _ _ A) as (q & Eq).
  exists (skipn 12 q).
  assert (K : skipn 17 s = skipn 5 (skipn 12 s)) by (rewrite skipn_skipn; reflexivity).
  transitivity (firstn 12 s ++ skipn 12 s); [symmetry; apply firstn_skipn|].
  rewrite K, Eq.
  change (skipn 5 (str " --> " ++ q)) with q.
  rewrite (firstn_skipn 12 q). reflexivity.
Qed.

(** The line-by-line parser takes a time line only where the two
    timestamps stand with one space, the arrow and one space between
    them; it takes the leftmost such place and keeps the two timestamps
    as written. *)
Theorem src_time_line_shape (line t1 t2 : jsstring) :
  SrcSrtService.timeMatch line = Some (t1, t2) ->
  isTimestamp t1 = true /\ isTimestamp t2 = true
  /\ exists p q, line = p ++ t1 ++ str " --> " ++ t2 ++ q
                 /\ forall p' q', p = p' ++ q' -> q' <> [] ->
                      SrcSrtService.timeMatchHere (q' ++ t1 ++ str " --> " ++ t2 ++ q) = None.
Proof.
  induction line as [|c line IH]; cbn [SrcSrtService.timeMatch].
  - destruct (SrcSrtService.timeMatchHere []) as [[a b]|] eqn:E; [|discriminate].
    intros [= <- <-]. destruct (src_timeMatchHere_shape _ _ _ E) as (T1 & T2 & q & Eq).
    split; [exact T1|]. split; [exact T2|]. exists [], q. split; [exact Eq|].
    intros p' q' Hp Hq. symmetry in Hp. apply app_eq_nil in Hp. destruct Hp; contradiction.
  - destruct (SrcSrtService.timeMatchHere (c :: line)) as [[a b]|] eqn:E.
    + intros [= <- <-]. destruct (src_timeMatchHere_shape _ _ _ E) as (T1 & T2 & q & Eq).
      split; [exact T1|]. split; [exact T2|]. exists [], q. split; [exact Eq|].
      intros p' q' Hp Hq. symmetry in Hp. apply app_eq_nil in Hp. destruct Hp; contradiction.
    + intros H. destruct (IH H) as (T1 & T2 & p & q & Eq & Hmin).
      split; [exact T1|]. split; [exact T2|]. exists (c :: p), q.
      split; [rewrite Eq; reflexivity|].
      intros p' q' Hp Hq. destruct p' as [|d p'].
      * cbn [app] in Hp. subst q'. cbn [app]. rewrite <- Eq. exact E.
      * cbn [app] in Hp. injection Hp as _ Hp. apply (Hmin p' q' Hp Hq).
Qed.

Lemma src_time_line_shape_witness :
  isTimestamp (str "00:00:01,000") = true /\ isTimestamp (str "00:00:02,500") = true
  /\ exists p q, str "at 00:00:01,000 --> 00:00:02,500 --> 00:00:03,000"
                 = p ++ str "00:00:01,000" ++ str " --> " ++ str "00:00:02,500" ++ q
                 /\ forall p' q', p = p' ++ q' -> q' <> [] ->
                      SrcSrtService.timeMatchHere
                        (q' ++ str "00:00:01,000" ++ str " --> " ++ str "00:00:02,500" ++ q)
                      = None.
Proof.
  apply (src_time_line_shape (str "at 00:00:01,000 --> 00:00:02,500 --> 00:00:03,000")
           (str "00:00:01,000") (str "00:00:02,500")).
  reflexivity.
Defined.

(** ** Files put together *)

Lemma solid_not_CR (c : ascii) : isWhiteSpace c = false -> Ascii.eqb c CR = false.
Proof.
  intros H. destruct (Ascii.eqb c CR) eqn:E; [|reflexivity].
  apply Ascii.eqb_eq in E. subst c. discriminate H.
Qed.

Lemma solid_not_LF (c : ascii) : isWhiteSpace c = false -> Ascii.eqb c LF = false.
Proof.
  intros H. destruct (Ascii.eqb c LF) eqn:E; [|reflexivity].
  apply Ascii.eqb_eq in E. subst c. discriminate H.
Qed.

(** The replacement goes through a place where no carriage return meets
    a line feed. *)
Lemma replaceCRLF_apart (t b : jsstring) :
  (forall q r, t = q ++ [CR] -> b = LF :: r -> False) ->
  replaceCRLF (t ++ b) = replaceCRLF t ++ replaceCRLF b.
Proof.
  induction t as [t IH] using (well_founded_induction
    (Wf_nat.well_founded_ltof _ (@length ascii))).
  intros H. destruct t as [|c [|d r']].
  - reflexivity.
  - destruct b as [|d r]; [reflexivity|].
    cbn [app]. rewrite replaceCRLF_two.
    destruct (Ascii.eqb c CR && Ascii.eqb d LF)%bool eqn:E; [|reflexivity].
    apply andb_prop in E. destruct E as [Ec Ed].
    apply Ascii.eqb_eq in Ec. apply Ascii.eqb_eq in Ed. subst c d.
    exfalso. apply (H [] r); reflexivity.
  - cbn [app]. rewrite !replaceCRLF_two.
    destruct (Ascii.eqb c CR && Ascii.eqb d LF)%bool.
    + cbn [app]. f_equal. apply IH; [unfold Wf_nat.ltof; cbn; lia|].
      intros q r -> Hb. apply (H (c :: d :: q) r); [reflexivity|exact Hb].
    + cbn [app]. f_equal. change (d :: r' ++ b) with ((d :: r') ++ b).
      apply IH; [unfold Wf_nat.ltof; cbn; lia|].
      intros q r Hq Hb. apply (H (c :: q) r); [rewrite Hq; reflexivity|exact Hb].
Qed.

Lemma trimmed_spec (s : jsstring) :
  trimmed s = true -> exists c r, s = c :: r /\ isWhiteSpace c = false /\ endsSolid s.
Proof.
  destruct s as [|c r]; [discriminate|]. unfold trimmed. intros H.
  apply andb_prop in H. destruct H as [Hc He].
  apply negb_true_iff in Hc. apply negb_true_iff in He.
  exists c, r. split; [reflexivity|]. split; [exact Hc|].
  apply last_endsSolid with c; [discriminate|exact He].
Qed.

Lemma endsSolid_not_CR (s q : jsstring) : endsSolid s -> s <> q ++ [CR].
Proof.
  intros (p & c & -> & Hc) E. apply app_inj_tail in E. destruct E as [_ ->].
  discriminate Hc.
Qed.

(** The replacement keeps a first and a last code unit that are not white
    space. *)
Lemma replaceCRLF_edges (c : ascii) (r : jsstring) :
  isWhiteSpace c = false -> endsSolid (c :: r) ->
  (exists r', replaceCRLF (c :: r) = c :: r') /\ endsSolid (replaceCRLF (c :: r)).
Proof.
  intros Hc He. split.
  - exists (replaceCRLF r). apply replaceCRLF_cons. apply solid_not_CR. exact Hc.
  - destruct He as (q & d & E & Hd). rewrite E.
    rewrite replaceCRLF_apart.
    + apply endsSolid_app. exists [], d. split; [reflexivity|exact Hd].
    + intros q' r' _ Hb. injection Hb as -> _. discriminate Hd.
Qed.

Lemma replaceCRLF_white_line (w : jsstring) :
  Forall (fun c => isWhiteSpace c = true) w ->
  exists w', replaceCRLF (w ++ [LF]) = w' ++ [LF]
             /\ Forall (fun c => isWhiteSpace c = true) w'.
Proof.
  induction w as [w IH] using (well_founded_induction
    (Wf_nat.well_founded_ltof _ (@length ascii))).
  intros H. destruct w as [|c [|d r]].
  - exists []. split; [reflexivity|constructor].
  - cbn [app]. rewrite replaceCRLF_two.
    change (Ascii.eqb LF LF) with true. rewrite andb_true_r.
    destruct (Ascii.eqb c CR).
    + exists []. split; [reflexivity|constructor].
    + exists [c]. split; [reflexivity|exact H].
  - inversion H as [|? ? Hc H']; subst. inversion H' as [|? ? Hd H'']; subst.
    cbn [app]. rewrite replaceCRLF_two.
    destruct (Ascii.eqb c CR && Ascii.eqb d LF)%bool.
    + destruct (IH r) as (w' & E & Hw'); [unfold Wf_nat.ltof; cbn; lia|exact H''|].
      rewrite E. exists (LF :: w'). split; [reflexivity|].
      constructor; [reflexivity|exact Hw'].
    + change (d :: r ++ [LF]) with ((d :: r) ++ [LF]).
      destruct (IH (d :: r)) as (w' & E & Hw'); [unfold Wf_nat.ltof; cbn; lia|exact H'|].
      rewrite E. exists (c :: w'). split; [reflexivity|].
      constructor; [exact Hc|exact Hw'].
Qed.

Lemma afterLastLF_end (w : jsstring) : afterLastLF (w ++ [LF]) = Some (S (length w)).
Proof.
  induction w as [|c w IH]; [reflexivity|].
  cbn [app afterLastLF length]. rewrite IH. reflexivity.
Qed.

Lemma afterLastLF_le (w : jsstring) (k : nat) :
  afterLastLF w = Some k -> (k <= length w)%nat.
Proof.
  revert k. induction w as [|c w IH]; intros k; cbn [afterLastLF length]; [discriminate|].
  destruct (afterLastLF w) as [j|].
  - intros [= <-]. specialize (IH j eq_refl). lia.
  - destruct (isLF c); [|discriminate]. intros [= <-]. lia.
Qed.

Lemma takeWhile_shorter {A} (f : A -> bool) (l : list A) :
  Exists (fun x => f x = false) l -> (length (takeWhile f l) < length l)%nat.
Proof.
  induction 1 as [x l Hx|x l _ IH]; cbn [takeWhile length].
  - rewrite Hx. cbn. lia.
  - destruct (f x); cbn [length]; lia.
Qed.

(** The pattern matches on a line feed, white space and a line feed
    before a code unit that is not white space, and takes all of them. *)
Lemma blankLineHere_gap (w : jsstring) (c : ascii) (r : jsstring) :
  Forall (fun c => isWhiteSpace c = true) w -> isWhiteSpace c = false ->
  blankLineHere (LF :: w ++ LF :: c :: r) = Some (c :: r).
Proof.
  intros Hw Hc. cbn [blankLineHere]. change (isLF LF) with true. cbv iota.
  rewrite (takeWhile_all _ w (LF :: c :: r) Hw). cbn [takeWhile].
  change (isWhiteSpace LF) with true. cbv iota. rewrite Hc.
  rewrite afterLastLF_end.
  replace (w ++ LF :: c :: r) with ((w ++ [LF]) ++ c :: r)
    by (rewrite <- List.app_assoc; reflexivity).
  rewrite skipn_app. rewrite skipn_all2 by (rewrite length_app; cbn; lia).
  rewrite length_app. cbn [length app].
  replace (S (length w) - (length w + 1))%nat with 0%nat by lia. reflexivity.
Qed.

(** Inside a text that ends with a code unit that is not white space the
    pattern matches as it does when more text follows, and what is left
    after a match ends as the text does. *)
Lemma blankLineHere_inside (s v : jsstring) :
  endsSolid s ->
  match blankLineHere s with
  | Some r => blankLineHere (s ++ v) = Some (r ++ v) /\ endsSolid r
  | None => blankLineHere (s ++ v) = None
  end.
Proof.
  intros He. destruct s as [|d t].
  - destruct He as (q & c & E & _). destruct q; discriminate E.
  - cbn [app blankLineHere]. destruct (isLF d) eqn:Ed; [|reflexivity].
    assert (Hd : isWhiteSpace d = true)
      by (apply Ascii.eqb_eq in Ed; subst d; reflexivity).
    assert (Ht : t <> []).
    { intros ->. destruct He as (q & c & E & Hc).
      destruct q as [|x q]; [injection E as ->; congruence|].
      injection E as _ E. destruct q; discriminate E. }
    assert (Et : endsSolid t) by (apply (endsSolid_tail [d] t Ht); exact He).
    pose proof (endsSolid_exists t Et) as X.
    rewrite (takeWhile_stops _ t v X).
    destruct (afterLastLF (takeWhile isWhiteSpace t)) as [k|] eqn:Ek; [|reflexivity].
    pose proof (afterLastLF_le _ _ Ek) as Lk.
    pose proof (takeWhile_shorter isWhiteSpace t X) as Lt.
    split.
    + rewrite skipn_app. replace (k - length t)%nat with 0%nat by lia. reflexivity.
    + apply (endsSolid_tail (firstn k t)).
      * intros E. apply (f_equal (@length ascii)) in E. rewrite length_skipn in E.
        cbn [length] in E. lia.
      * rewrite firstn_skipn. exact Et.
Qed.

(** Two texts with a blank line between them split into the blocks of the
    first and the blocks of the second. *)
Lemma splitBlocksFrom_gap (w : jsstring) (c : ascii) (r : jsstring) :
  Forall (fun c => isWhiteSpace c = true) w -> isWhiteSpace c = false ->
  forall s, s = [] \/ endsSolid s ->
    splitBlocksFrom (s ++ LF :: w ++ LF :: c :: r)
    = (fst (splitBlocksFrom s),
       snd (splitBlocksFrom s) ++ splitBlocks (c :: r)).
Proof.
  intros Hw Hc s. induction s as [s IH] using (well_founded_induction
    (Wf_nat.well_founded_ltof _ (@length ascii))).
  intros [->|He].
  - cbn [app]. rewrite splitBlocksFrom_eq, (blankLineHere_gap w c r Hw Hc).
    rewrite splitBlocksFrom_nil. unfold splitBlocks.
    destruct (splitBlocksFrom (c :: r)). reflexivity.
  - rewrite splitBlocksFrom_eq. rewrite (splitBlocksFrom_eq s).
    pose proof (blankLineHere_inside s (LF :: w ++ LF :: c :: r) He) as B.
    destruct (blankLineHere s) as [t|] eqn:E.
    + destruct B as [-> Et].
      rewrite (IH t) by (first [apply blankLineHere_shorter; exact E|right; exact Et]).
      destruct (splitBlocksFrom t). reflexivity.
    + rewrite B. destruct s as [|d t].
      * destruct He as (q & x & Eq & _). destruct q; discriminate Eq.
      * cbn [app].
        assert (Ht : t = [] \/ endsSolid t).
        { destruct t as [|y t']; [left; reflexivity|right].
          apply (endsSolid_tail [d]); [discriminate|exact He]. }
        rewrite (IH t) by (first [unfold Wf_nat.ltof; cbn; lia|exact Ht]).
        destruct (splitBlocksFrom t). reflexivity.
Qed.

Lemma trim_white_around (a b : jsstring) (c : ascii) (r : jsstring) :
  Forall (fun c => isWhiteSpace c = true) a ->
  Forall (fun c => isWhiteSpace c = true) b ->
  isWhiteSpace c = false -> endsSolid (c :: r) ->
  trim (a ++ (c :: r) ++ b) = c :: r.
Proof.
  intros Ha Hb Hc He. unfold trim.
  assert (E : trimStart (a ++ (c :: r) ++ b) = (c :: r) ++ b).
  { unfold trimStart. clear Hb He. induction Ha as [|x a Hx _ IH].
    - cbn [app dropWhile]. rewrite Hc. reflexivity.
    - cbn [app dropWhile]. rewrite Hx. exact IH. }
  rewrite E. apply trimEnd_app_white; assumption.
Qed.

(** What [parseSrt] splits into blocks when the file has white space
    around a text with no white space at its ends. *)
Lemma blocksOf_white_around (a b : jsstring) (c : ascii) (r : jsstring) :
  Forall (fun c => isWhiteSpace c = true) a ->
  Forall (fun c => isWhiteSpace c = true) b ->
  isWhiteSpace c = false -> endsSolid (c :: r) ->
  trim (replaceCRLF (a ++ (c :: r) ++ b)) = replaceCRLF (c :: r).
Proof.
  intros Ha Hb Hc He.
  rewrite replaceCRLF_apart.
  2:{ intros q r' _ E. injection E as -> _. discriminate Hc. }
  rewrite replaceCRLF_apart.
  2:{ intros q r' E _. exact (endsSolid_not_CR _ q He E). }
  destruct (replaceCRLF_edges c r Hc He) as [(r' & E) He']. rewrite E in *.
  apply trim_white_around; try assumption; apply replaceCRLF_white; assumption.
Qed.

Lemma white_prefix (s : jsstring) :
  exists w, s = w ++ trimStart s /\ Forall (fun c => isWhiteSpace c = true) w.
Proof.
  unfold trimStart. induction s as [|c s (w & E & Hw)].
  - exists []. split; [reflexivity|constructor].
  - cbn [dropWhile]. destruct (isWhiteSpace c) eqn:Hc.
    + exists (c :: w). split; [cbn [app]; rewrite <- E; reflexivity|].
      constructor; assumption.
    + exists []. split; [reflexivity|constructor].
Qed.

Lemma white_suffix (s : jsstring) :
  exists w, s = trimEnd s ++ w /\ Forall (fun c => isWhiteSpace c = true) w.
Proof.
  induction s as [|c s (w & E & Hw)].
  - exists []. split; [reflexivity|constructor].
  - cbn [trimEnd]. destruct (trimEnd s) as [|d r] eqn:T.
    + cbn [app] in E. subst w. destruct (isWhiteSpace c) eqn:Hc.
      * exists (c :: s). split; [reflexivity|]. constructor; assumption.
      * exists s. split; [reflexivity|exact Hw].
    + exists w. split; [cbn [app] in *; rewrite <- E; reflexivity|exact Hw].
Qed.

(** White space before and after a file changes nothing of what
    [parseSrt] returns. *)
Theorem parse_ignores_white_space_around (w1 w2 x : jsstring) :
  forallb isWhiteSpace w1 = true -> forallb isWhiteSpace w2 = true ->
  parseSrt (w1 ++ x ++ w2) = parseSrt x.
Proof.
  intros H1 H2.
  assert (W1 : Forall (fun c => isWhiteSpace c = true) w1)
    by (apply Forall_forall; apply forallb_forall; exact H1).
  assert (W2 : Forall (fun c => isWhiteSpace c = true) w2)
    by (apply Forall_forall; apply forallb_forall; exact H2).
  unfold parseSrt. cbv zeta. f_equal. f_equal.
  destruct (white_prefix x) as (p & Ep & Hp).
  destruct (white_suffix (trimStart x)) as (s & Es & Hs).
  fold (trim x) in Es. rewrite Es in Ep.
  destruct (trim_result x) as [N|(He & c & r & Ec & Hc)].
  - rewrite N in Ep. cbn [app] in Ep.
    assert (Wx : Forall (fun c => isWhiteSpace c = true) x)
      by (rewrite Ep; apply Forall_app; split; assumption).
    rewrite (trim_white _ (replaceCRLF_white x Wx)).
    apply trim_white. apply replaceCRLF_white.
    apply Forall_app. split; [exact W1|]. apply Forall_app. split; assumption.
  - rewrite Ec in Ep, He.
    rewrite Ep at 2. rewrite (blocksOf_white_around p s c r Hp Hs Hc He).
    rewrite Ep.
    replace (w1 ++ (p ++ (c :: r) ++ s) ++ w2)
      with ((w1 ++ p) ++ (c :: r) ++ (s ++ w2))
      by (rewrite <- !List.app_assoc; reflexivity).
    apply blocksOf_white_around; try assumption; apply Forall_app; split; assumption.
Qed.

Lemma parse_ignores_white_space_around_witness :
  parseSrt ([LF; CR; " "%char] ++ backwardBlock ++ [CR; LF; LF])
  = parseSrt backwardBlock.
Proof.
  apply (parse_ignores_white_space_around [LF; CR; " "%char] [CR; LF; LF] backwardBlock);
    reflexivity.
Defined.

(** Two files, each without white space at its ends, put together with
    a blank line between them give the entries of the first followed by
    the entries of the second. *)
Theorem parse_of_two_files (x w y : jsstring) :
  trimmed x = true -> trimmed y = true -> forallb isWhiteSpace w = true ->
  parseSrt (x ++ LF :: w ++ LF :: y) = parseSrt x ++ parseSrt y.
Proof.
  intros Hx Hy Hw.
  assert (W : Forall (fun c => isWhiteSpace c = true) w)
    by (apply Forall_forall; apply forallb_forall; exact Hw).
  destruct (trimmed_spec x Hx) as (c & r & -> & Hc & He).
  destruct (trimmed_spec y Hy) as (d & t & -> & Hd & Hf).
  destruct (replaceCRLF_edges c r Hc He) as [(r' & Ex) Ex'].
  destruct (replaceCRLF_edges d t Hd Hf) as [(t' & Ey) Ey'].
  destruct (replaceCRLF_white_line w W) as (w' & Ew & W').
  assert (E : replaceCRLF ((c :: r) ++ LF :: w ++ LF :: d :: t)
              = (c :: r') ++ LF :: w' ++ LF :: d :: t').
  { rewrite replaceCRLF_apart.
    2:{ intros q r0 E _. exact (endsSolid_not_CR _ q He E). }
    rewrite Ex. f_equal.
    rewrite replaceCRLF_cons by reflexivity. f_equal.
    replace (w ++ LF :: d :: t) with ((w ++ [LF]) ++ d :: t)
      by (rewrite <- List.app_assoc; reflexivity).
    rewrite replaceCRLF_apart.
    2:{ intros q r0 _ E0. injection E0 as -> _. discriminate Hd. }
    rewrite Ew, Ey, <- List.app_assoc. reflexivity. }
  unfold parseSrt. cbv zeta. rewrite E, Ex, Ey. rewrite Ex in Ex'. rewrite Ey in Ey'.
  rewrite (trim_id (c :: r') c r' eq_refl Hc Ex').
  rewrite (trim_id (d :: t') d t' eq_refl Hd Ey').
  rewrite (trim_id ((c :: r') ++ LF :: w' ++ LF :: d :: t') c
             (r' ++ LF :: w' ++ LF :: d :: t') eq_refl Hc).
  2:{ apply endsSolid_app.
      replace (LF :: w' ++ LF :: d :: t') with ((LF :: w' ++ [LF]) ++ d :: t')
        by (cbn [app]; rewrite <- List.app_assoc; reflexivity).
      apply endsSolid_app. exact Ey'. }
  rewrite <- flat_map_app. f_equal.
  unfold splitBlocks.
  rewrite (splitBlocksFrom_gap w' d t' W' Hd (c :: r') (or_intror Ex')).
  unfold splitBlocks.
  destruct (splitBlocksFrom (c :: r')). destruct (splitBlocksFrom (d :: t')).
  reflexivity.
Qed.

Lemma parse_of_two_files_witness :
  parseSrt (backwardBlock ++ LF :: [" "%char; CR] ++ LF :: zeroBlock)
  = parseSrt backwardBlock ++ parseSrt zeroBlock.
Proof.
  apply (parse_of_two_files backwardBlock [" "%char; CR] zeroBlock); reflexivity.
Defined.

(* ================================================================== *)
(** * More on the line-by-line parser *)
(* ================================================================== *)

Lemma splitLines_lfFree (s : jsstring) : Forall lfFree (SrcSrtService.splitLines s).
Proof.
  unfold SrcSrtService.splitLines.
  induction s as [s IH] using (well_founded_induction
    (Wf_nat.well_founded_ltof _ (@length ascii))).
  destruct s as [|c r]; [repeat constructor|].
  cbn [SrcSrtService.splitLinesFrom]. destruct (isLF c) eqn:Ec.
  - specialize (IH r ltac:(unfold Wf_nat.ltof; cbn; lia)).
    destruct (SrcSrtService.splitLinesFrom r). constructor; [constructor|exact IH].
  - destruct r as [|d r']; [repeat constructor; exact Ec|].
    destruct (Ascii.eqb c CR && isLF d)%bool.
    + specialize (IH r' ltac:(unfold Wf_nat.ltof; cbn; lia)).
      destruct (SrcSrtService.splitLinesFrom r'). constructor; [constructor|exact IH].
    + specialize (IH (d :: r') ltac:(unfold Wf_nat.ltof; cbn; lia)).
      destruct (SrcSrtService.splitLinesFrom (d :: r')) as [l ls].
      inversion IH as [|? ? Hl Hls]; subst.
      constructor; [constructor; assumption|exact Hls].
Qed.

Lemma trim_sub (P : ascii -> Prop) (s : jsstring) : Forall P s -> Forall P (trim s).
Proof.
  intros H. destruct (white_prefix s) as (p & Ep & _).
  destruct (white_suffix (trimStart s)) as (q & Eq & _). fold (trim s) in Eq.
  rewrite Ep, Eq in H. apply Forall_app in H. destruct H as [_ H].
  apply Forall_app in H. destruct H as [H _]. exact H.
Qed.

Lemma trimmed_intro (c : ascii) (r : jsstring) :
  isWhiteSpace c = false -> endsSolid (c :: r) -> trimmed (c :: r) = true.
Proof.
  intros Hc (q & d & E & Hd). unfold trimmed. rewrite Hc, E, last_last, Hd. reflexivity.
Qed.

Lemma trim_kept (line : jsstring) :
  lfFree line -> (0 <? length (trim line))%nat = true -> keptLine (trim line).
Proof.
  intros Hl Hn. split; [|apply trim_sub; exact Hl].
  destruct (trim_result line) as [N|(He & c & r & E & Hc)].
  - rewrite N in Hn. discriminate Hn.
  - rewrite E in *. apply trimmed_intro; assumption.
Qed.

Lemma kept_lines_text (ls : list jsstring) :
  Forall keptLine ls ->
  match join [LF] ls with
  | [] => true
  | _ :: _ => forallb trimmed (split isLF (join [LF] ls))
  end = true.
Proof.
  intros H. destruct ls as [|l ls']; [reflexivity|].
  rewrite split_join.
  - assert (F : forallb trimmed (l :: ls') = true).
    { apply forallb_forall. intros x Hx. rewrite Forall_forall in H.
      exact (proj1 (H x Hx)). }
    rewrite F. destruct (join [LF] (l :: ls')); reflexivity.
  - discriminate.
  - apply Forall_forall. intros x Hx. rewrite Forall_forall in H. exact (proj2 (H x Hx)).
Qed.

Lemma src_timeMatch_timestamps (line t1 t2 : jsstring) :
  SrcSrtService.timeMatch line = Some (t1, t2) ->
  isTimestamp t1 = true /\ isTimestamp t2 = true.
Proof.
  induction line as [|c line IH]; cbn [SrcSrtService.timeMatch].
  - destruct (SrcSrtService.timeMatchHere []) as [[a b]|] eqn:E; [|discriminate].
    intros [= <- <-]. destruct (src_timeMatchHere_shape _ _ _ E) as (T1 & T2 & _).
    split; assumption.
  - destruct (SrcSrtService.timeMatchHere (c :: line)) as [[a b]|] eqn:E; [|exact IH].
    intros [= <- <-]. destruct (src_timeMatchHere_shape _ _ _ E) as (T1 & T2 & _).
    split; assumption.
Qed.

Lemma isDigits_truthy (i : jsstring) :
  SrcSrtService.isDigits i = true -> SrcSrtService.truthy (Some i) = true.
Proof. destruct i; [discriminate|reflexivity]. Qed.

Lemma isTimestamp_truthy (t : jsstring) :
  isTimestamp t = true -> SrcSrtService.truthy (Some t) = true.
Proof. destruct t; [discriminate|reflexivity]. Qed.

Lemma withText_wellFormed (i t1 t2 : jsstring) (ls : list jsstring) :
  SrcSrtService.isDigits i = true -> isTimestamp t1 = true -> isTimestamp t2 = true ->
  Forall keptLine ls ->
  srcWellFormed
    (SrcSrtService.withText (SrcSrtService.mkEntry (Some i) (Some t1) (Some t2) None) ls)
  = true.
Proof.
  intros Hi T1 T2 Hl. unfold srcWellFormed, SrcSrtService.withText.
  cbn [SrcSrtService.id SrcSrtService.startTime SrcSrtService.endTime SrcSrtService.text].
  rewrite Hi, T1, T2, (kept_lines_text ls Hl). reflexivity.
Qed.

(** One turn of the loop keeps what holds of its state. *)
Lemma step_srcInv (st : SrcSrtService.parserState) (line : jsstring) :
  lfFree line -> srcInv st -> srcInv (SrcSrtService.step st line).
Proof.
  intros Hl (He & Ht & Hc). unfold SrcSrtService.step. cbv zeta.
  destruct Hc as [Ec|[(i & Ec & Hi)|(i & t1 & t2 & Ec & Hi & T1 & T2)]]; rewrite Ec.
  - cbn [SrcSrtService.emptyEntry SrcSrtService.id SrcSrtService.truthy negb
         SrcSrtService.startTime SrcSrtService.endTime SrcSrtService.text].
    destruct (SrcSrtService.isDigits line) eqn:D.
    + split; [exact He|]. split; [exact Ht|]. right. left. exists line.
      split; [reflexivity|exact D].
    + split; [exact He|]. split; [exact Ht|]. left. exact Ec.
  - cbn [SrcSrtService.id SrcSrtService.startTime SrcSrtService.endTime SrcSrtService.text].
    rewrite (isDigits_truthy i Hi). cbn [negb SrcSrtService.truthy].
    destruct (SrcSrtService.timeMatch line) as [[t1 t2]|] eqn:M.
    + destruct (src_timeMatch_timestamps _ _ _ M) as [T1 T2].
      split; [exact He|]. split; [exact Ht|]. right. right. exists i, t1, t2.
      repeat split; assumption.
    + split; [exact He|]. split; [exact Ht|]. left. reflexivity.
  - cbn [SrcSrtService.id SrcSrtService.startTime SrcSrtService.endTime SrcSrtService.text].
    rewrite (isDigits_truthy i Hi), (isTimestamp_truthy t1 T1). cbn [negb].
    destruct (0 <? length (trim line))%nat eqn:N.
    + split; [exact He|]. split.
      * apply Forall_app. split; [exact Ht|]. constructor; [|constructor].
        apply trim_kept; assumption.
      * right. right. exists i, t1, t2. repeat split; assumption.
    + split.
      * cbn [SrcSrtService.entries]. rewrite forallb_app, He.
        cbn [forallb]. rewrite (withText_wellFormed i t1 t2 _ Hi T1 T2 Ht). reflexivity.
      * split; [constructor|]. left. reflexivity.
Qed.

Lemma fold_srcInv (lines : list jsstring) (st : SrcSrtService.parserState) :
  Forall lfFree lines -> srcInv st -> srcInv (fold_left SrcSrtService.step lines st).
Proof.
  intros H. revert st. induction H as [|l ls Hl _ IH]; intros st Hs; [exact Hs|].
  cbn [fold_left]. apply IH. apply step_srcInv; assumption.
Qed.

(** Every entry the line-by-line parser returns is whole: its id is a
    run of digits, its two times are timestamps, and its text is empty or
    made of lines that are not empty and have no white space at their
    ends. *)
Theorem src_parse_returns_whole_entries (x : jsstring) (l : list SrcSrtService.SrtEntry) :
  SrcSrtService.parseSrt x = SrcSrtService.Returns l ->
  forallb srcWellFormed l = true.
Proof.
  unfold SrcSrtService.parseSrt. cbv zeta.
  pose proof (fold_srcInv (SrcSrtService.splitLines (trim x))
                (SrcSrtService.mkState [] SrcSrtService.emptyEntry [])
                (splitLines_lfFree (trim x))) as I.
  destruct I as (He & Ht & Hc).
  { split; [reflexivity|]. split; [constructor|]. left. reflexivity. }
  set (st := fold_left SrcSrtService.step (SrcSrtService.splitLines (trim x))
               (SrcSrtService.mkState [] SrcSrtService.emptyEntry [])) in *.
  assert (W : forallb srcWellFormed
                (if (SrcSrtService.truthy (SrcSrtService.id (SrcSrtService.currentEntry st))
                     && SrcSrtService.truthy
                          (SrcSrtService.startTime (SrcSrtService.currentEntry st)))%bool
                 then SrcSrtService.entries st
                      ++ [SrcSrtService.withText (SrcSrtService.currentEntry st)
                            (SrcSrtService.textLines st)]
                 else SrcSrtService.entries st) = true).
  { destruct Hc as [Ec|[(i & Ec & Hi)|(i & t1 & t2 & Ec & Hi & T1 & T2)]]; rewrite Ec.
    - exact He.
    - cbn [SrcSrtService.id SrcSrtService.startTime SrcSrtService.truthy].
      rewrite andb_false_r. exact He.
    - cbn [SrcSrtService.id SrcSrtService.startTime].
      rewrite (isDigits_truthy i Hi), (isTimestamp_truthy t1 T1). cbn [andb].
      rewrite forallb_app, He. cbn [forallb].
      rewrite (withText_wellFormed i t1 t2 _ Hi T1 T2 Ht). reflexivity. }
  match goal with |- (if ?b then _ else _) = _ -> _ => destruct b end.
  - discriminate.
  - intros [= <-]. exact W.
Qed.

Lemma src_parse_returns_whole_entries_witness :
  forallb srcWellFormed
    [SrcSrtService.mkEntry (Some (str "1")) (Some (str "00:00:01,000"))
       (Some (str "00:00:02,500")) (Some (str "Hello" ++ [LF] ++ str "world"));
     SrcSrtService.mkEntry (Some (str "2")) (Some (str "00:00:03,000"))
       (Some (str "00:00:02,000")) (Some [])] = true.
Proof.
  apply (src_parse_returns_whole_entries srcSample). reflexivity.
Defined.

(** ** Printed and read again *)

Lemma splitLines_line (a b : jsstring) :
  wholeLine a ->
  SrcSrtService.splitLines (a ++ LF :: b) = a :: SrcSrtService.splitLines b.
Proof.
  unfold SrcSrtService.splitLines. intros [Hl Hc].
  induction a as [|c a IH].
  - cbn [app SrcSrtService.splitLinesFrom]. change (isLF LF) with true. cbv iota.
    destruct (SrcSrtService.splitLinesFrom b). reflexivity.
  - inversion Hl as [|? ? Hc0 Hl']; subst.
    assert (Ha : forall q, a <> q ++ [CR]).
    { intros q E. apply (Hc (c :: q)). rewrite E. reflexivity. }
    specialize (IH Hl' Ha).
    cbn [app SrcSrtService.splitLinesFrom]. rewrite Hc0.
    destruct (a ++ LF :: b) as [|d r'] eqn:R.
    + apply app_eq_nil in R. destruct R as [_ R]. discriminate R.
    + assert (N : (Ascii.eqb c CR && isLF d)%bool = false).
      { destruct (Ascii.eqb c CR) eqn:Ec; [|reflexivity]. cbn [andb].
        apply Ascii.eqb_eq in Ec. subst c. destruct a as [|x a'].
        - exfalso. apply (Hc []). reflexivity.
        - cbn [app] in R. injection R as -> _. inversion Hl'; subst. assumption. }
      rewrite N. destruct (SrcSrtService.splitLinesFrom (d :: r')) as [l ls].
      destruct (SrcSrtService.splitLinesFrom b) as [l' ls'].
      injection IH as -> ->. reflexivity.
Qed.

Lemma splitLines_last (a : jsstring) :
  lfFree a -> SrcSrtService.splitLines a = [a].
Proof.
  unfold SrcSrtService.splitLines. intros Hl. induction Hl as [|c a Hc Hl IH].
  - reflexivity.
  - cbn [SrcSrtService.splitLinesFrom]. rewrite Hc. destruct a as [|d r']; [reflexivity|].
    inversion Hl as [|? ? Hd _]; subst. rewrite Hd, andb_false_r.
    destruct (SrcSrtService.splitLinesFrom (d :: r')) as [l ls].
    injection IH as -> ->. reflexivity.
Qed.

Lemma splitLines_text (ls : list jsstring) (b : jsstring) :
  ls <> [] -> Forall wholeLine ls ->
  SrcSrtService.splitLines (join [LF] ls ++ LF :: b) = ls ++ SrcSrtService.splitLines b.
Proof.
  induction ls as [|l ls IH]; intros Hne H; [contradiction|].
  inversion H as [|? ? Hl Hls]; subst. destruct ls as [|l' ls'].
  - cbn [join app]. apply splitLines_line. exact Hl.
  - change (join [LF] (l :: l' :: ls')) with (l ++ LF :: join [LF] (l' :: ls')).
    rewrite <- List.app_assoc. cbn [app].
    rewrite splitLines_line by exact Hl. rewrite IH by (first [discriminate|exact Hls]).
    reflexivity.
Qed.

Lemma splitLines_text_last (ls : list jsstring) :
  ls <> [] -> Forall wholeLine ls ->
  SrcSrtService.splitLines (join [LF] ls) = ls.
Proof.
  induction ls as [|l ls IH]; intros Hne H; [contradiction|].
  inversion H as [|? ? Hl Hls]; subst. destruct ls as [|l' ls'].
  - cbn [join]. apply splitLines_last. exact (proj1 Hl).
  - change (join [LF] (l :: l' :: ls')) with (l ++ LF :: join [LF] (l' :: ls')).
    rewrite splitLines_line by exact Hl. rewrite IH by (first [discriminate|exact Hls]).
    reflexivity.
Qed.

Lemma plain_wholeLine (a : jsstring) : Forall plain a -> wholeLine a.
Proof.
  intros H. split; [apply plain_lfFree; exact H|].
  intros q E. rewrite E in H. apply Forall_app in H. destruct H as [_ H].
  inversion H as [|? ? [_ Hc] _]; subst. discriminate Hc.
Qed.

Lemma trimmed_wholeLine (a : jsstring) : lfFree a -> trimmed a = true -> wholeLine a.
Proof.
  intros Hl Ht. split; [exact Hl|]. intros q.
  destruct (trimmed_spec a Ht) as (c & r & _ & _ & He).
  apply endsSolid_not_CR. exact He.
Qed.

Lemma isDigits_plain (i : jsstring) :
  SrcSrtService.isDigits i = true ->
  Forall plain i /\ exists c r, i = c :: r /\ isWhiteSpace c = false.
Proof.
  destruct i as [|c r]; [discriminate|]. unfold SrcSrtService.isDigits. intros H.
  split.
  - apply Forall_forall. intros x Hx. apply digit_plain.
    rewrite forallb_forall in H. apply H. exact Hx.
  - exists c, r. split; [reflexivity|]. cbn [forallb] in H.
    apply andb_prop in H. exact (proj1 (digit_facts c (proj1 H))).
Qed.

Lemma srcTimeLine_plain (t1 t2 : jsstring) :
  isTimestamp t1 = true -> isTimestamp t2 = true ->
  Forall plain (t1 ++ str " --> " ++ t2) /\ endsSolid (t1 ++ str " --> " ++ t2).
Proof.
  intros T1 T2. split.
  - apply Forall_app. split; [apply timestamp_plain; exact T1|].
    apply Forall_app. split; [repeat constructor|apply timestamp_plain; exact T2].
  - apply endsSolid_app. apply endsSolid_app. exact (proj1 (timestamp_ends t2 T2)).
Qed.

Lemma src_timeMatch_printed (t1 t2 : jsstring) :
  isTimestamp t1 = true -> isTimestamp t2 = true ->
  SrcSrtService.timeMatch (t1 ++ str " --> " ++ t2) = Some (t1, t2).
Proof.
  intros T1 T2.
  destruct (isTimestamp_shape t1 T1)
    as (h1 & h2 & m1 & m2 & s1 & s2 & f1 & f2 & f3 & E1 & _).
  destruct (isTimestamp_shape t2 T2)
    as (g1 & g2 & n1 & n2 & u1 & u2 & k1 & k2 & k3 & E2 & _).
  assert (H : SrcSrtService.timeMatchHere (t1 ++ str " --> " ++ t2) = Some (t1, t2)).
  { unfold SrcSrtService.timeMatchHere. cbv zeta.
    assert (F1 : firstn 12 (t1 ++ str " --> " ++ t2) = t1) by (rewrite E1; reflexivity).
    assert (S1 : skipn 12 (t1 ++ str " --> " ++ t2) = str " --> " ++ t2)
      by (rewrite E1; reflexivity).
    assert (S2 : skipn 17 (t1 ++ str " --> " ++ t2) = t2) by (rewrite E1; reflexivity).
    assert (F2 : firstn 12 t2 = t2) by (rewrite E2; reflexivity).
    rewrite F1, S1, S2, F2, T1, T2. reflexivity. }
  destruct (t1 ++ str " --> " ++ t2) as [|c r] eqn:E.
  - rewrite E1 in E. discriminate E.
  - cbn [SrcSrtService.timeMatch]. rewrite H. reflexivity.
Qed.

Lemma srcWellFormed_inv (e : SrcSrtService.SrtEntry) :
  srcWellFormed e = true ->
  exists i t1 t2 t,
    e = SrcSrtService.mkEntry (Some i) (Some t1) (Some t2) (Some t)
    /\ SrcSrtService.isDigits i = true
    /\ isTimestamp t1 = true /\ isTimestamp t2 = true
    /\ Forall keptLine (textLinesOf t)
    /\ join [LF] (textLinesOf t) = t.
Proof.
  destruct e as [[i|] [t1|] [t2|] [t|]]; unfold srcWellFormed;
    cbn [SrcSrtService.id SrcSrtService.startTime SrcSrtService.endTime SrcSrtService.text];
    try discriminate.
  intros H. apply andb_prop in H. destruct H as [H Ht].
  apply andb_prop in H. destruct H as [H T2]. apply andb_prop in H. destruct H as [Hi T1].
  exists i, t1, t2, t. repeat (split; [first [reflexivity|assumption]|]).
  destruct t as [|c r]; [split; [constructor|reflexivity]|].
  cbn [textLinesOf]. split; [|apply join_split].
  pose proof (split_lines_lfFree (c :: r)) as F.
  apply Forall_forall. intros x Hx. split.
  - rewrite forallb_forall in Ht. apply Ht. exact Hx.
  - rewrite Forall_forall in F. apply F. exact Hx.
Qed.

Lemma kept_wholeLines (ls : list jsstring) : Forall keptLine ls -> Forall wholeLine ls.
Proof.
  apply Forall_impl. intros a [Ht Hl]. apply trimmed_wholeLine; assumption.
Qed.

Lemma text_wholeLines (t : jsstring) :
  Forall keptLine (textLinesOf t) -> Forall wholeLine (split isLF t).
Proof.
  destruct t as [|c r]; cbn [textLinesOf].
  - intros _. constructor; [|constructor]. split; [constructor|].
    intros q E. destruct q; discriminate E.
  - apply kept_wholeLines.
Qed.

Lemma kept_text_ends (t : jsstring) :
  t <> [] -> Forall keptLine (textLinesOf t) -> endsSolid t.
Proof.
  intros Hne H. destruct t as [|c r]; [contradiction|]. cbn [textLinesOf] in H.
  rewrite <- (join_split (c :: r)).
  pose proof (split_not_nil isLF (c :: r)) as N.
  induction H as [|l ls [Hl _] Hls IH]; [contradiction|].
  destruct ls as [|l' ls'].
  - cbn [join]. destruct (trimmed_spec l Hl) as (x & y & _ & _ & He). exact He.
  - change (join [LF] (l :: l' :: ls')) with (l ++ LF :: join [LF] (l' :: ls')).
    apply endsSolid_app. apply (endsSolid_app [LF]). apply IH. discriminate.
Qed.

(** The lines the loop goes over when it reads what was printed. *)
Lemma printed_lines (l : list SrcSrtService.SrtEntry) :
  l <> [] -> forallb srcWellFormed l = true ->
  exists b, trimEnd (SrcGeminiService.formatEntries l) = b
            /\ b <> []
            /\ SrcSrtService.splitLines b = srcLines l.
Proof.
  induction l as [|e l IH]; intros Hne H; [contradiction|].
  cbn [forallb] in H. apply andb_prop in H. destruct H as [He H].
  destruct (srcWellFormed_inv e He) as (i & t1 & t2 & t & -> & Hi & T1 & T2 & Hk & Hj).
  destruct (isDigits_plain i Hi) as [Pi (c & r & Ei & Hc)].
  destruct (srcTimeLine_plain t1 t2 T1 T2) as [Pt Et].
  pose proof (plain_wholeLine i Pi) as Wi.
  pose proof (plain_wholeLine _ Pt) as Wt.
  destruct l as [|e' l'].
  - clear IH. unfold SrcGeminiService.formatEntries. cbn [map join srcLines].
    unfold SrcGeminiService.formatEntry, srcTimeLine.
    cbn [SrcSrtService.id SrcSrtService.startTime SrcSrtService.endTime
         SrcSrtService.text ToString].
    destruct t as [|x y] eqn:Et0.
    + exists (i ++ LF :: t1 ++ str " --> " ++ t2).
      split.
      * replace (i ++ [LF] ++ t1 ++ str " --> " ++ t2 ++ [LF] ++ [] ++ [LF])
          with ((i ++ LF :: t1 ++ str " --> " ++ t2) ++ [LF; LF])
          by (rewrite <- !List.app_assoc; cbn [app]; rewrite <- !List.app_assoc;
              reflexivity).
        apply trimEnd_app_white; [|repeat constructor].
        apply endsSolid_app. apply (endsSolid_app [LF]). exact Et.
      * split; [rewrite Ei; discriminate|].
        rewrite splitLines_line by exact Wi.
        rewrite splitLines_last by exact (proj1 Wt). reflexivity.
    + rewrite <- Et0 in *. assert (Tn : t <> []) by (rewrite Et0; discriminate).
      exists (i ++ LF :: (t1 ++ str " --> " ++ t2) ++ LF :: t).
      split.
      * replace (i ++ [LF] ++ t1 ++ str " --> " ++ t2 ++ [LF] ++ t ++ [LF])
          with ((i ++ LF :: (t1 ++ str " --> " ++ t2) ++ LF :: t) ++ [LF])
          by (rewrite <- !List.app_assoc; cbn [app]; rewrite <- !List.app_assoc;
              reflexivity).
        apply trimEnd_app_white; [|repeat constructor].
        apply endsSolid_app. apply (endsSolid_app [LF]). apply endsSolid_app.
        apply (endsSolid_app [LF]). apply kept_text_ends; assumption.
      * split; [rewrite Ei; discriminate|].
        rewrite splitLines_line by exact Wi.
        rewrite splitLines_line by exact Wt.
        rewrite <- Hj at 1.
        assert (Nl : textLinesOf t <> []).
        { rewrite Et0. cbn [textLinesOf]. apply split_not_nil. }
        rewrite splitLines_text_last by (first [exact Nl|apply kept_wholeLines; exact Hk]).
        cbn [app]. reflexivity.
  - destruct (IH ltac:(discriminate) H) as (b' & Eb & Nb & Lb).
    unfold SrcGeminiService.formatEntries in *.
    change (join [LF] (map SrcGeminiService.formatEntry
              (SrcSrtService.mkEntry (Some i) (Some t1) (Some t2) (Some t) :: e' :: l')))
      with (SrcGeminiService.formatEntry
              (SrcSrtService.mkEntry (Some i) (Some t1) (Some t2) (Some t))
            ++ LF :: join [LF] (map SrcGeminiService.formatEntry (e' :: l'))).
    exists (SrcGeminiService.formatEntry
              (SrcSrtService.mkEntry (Some i) (Some t1) (Some t2) (Some t))
            ++ LF :: b').
    split.
    + change (LF :: join [LF] (map SrcGeminiService.formatEntry (e' :: l')))
        with ([LF] ++ join [LF] (map SrcGeminiService.formatEntry (e' :: l'))).
      rewrite List.app_assoc. rewrite trimEnd_app by (rewrite Eb; exact Nb).
      rewrite Eb, <- List.app_assoc. reflexivity.
    + split; [intros E; apply app_eq_nil in E; destruct E as [_ E]; discriminate E|].
      unfold SrcGeminiService.formatEntry, srcTimeLine.
      cbn [SrcSrtService.id SrcSrtService.startTime SrcSrtService.endTime
           SrcSrtService.text ToString].
      replace ((i ++ [LF] ++ t1 ++ str " --> " ++ t2 ++ [LF] ++ t ++ [LF]) ++ LF :: b')
        with (i ++ LF :: (t1 ++ str " --> " ++ t2) ++ LF :: t ++ LF :: LF :: b')
        by (rewrite <- ?List.app_assoc; cbn [app]; rewrite <- ?List.app_assoc;
            reflexivity).
      rewrite splitLines_line by exact Wi.
      rewrite splitLines_line by exact Wt.
      rewrite <- (join_split t) at 1.
      rewrite splitLines_text by (first [apply split_not_nil|apply text_wholeLines; exact Hk]).
      change (SrcSrtService.splitLines (LF :: b'))
        with (SrcSrtService.splitLines ([] ++ LF :: b')).
      rewrite (splitLines_line [] b')
        by (split; [constructor|intros q E; destruct q; discriminate E]).
      rewrite Lb.
      change (srcLines (SrcSrtService.mkEntry (Some i) (Some t1) (Some t2) (Some t) :: e' :: l'))
        with ([i; t1 ++ str " --> " ++ t2] ++ split isLF t ++ [[]] ++ srcLines (e' :: l')).
      cbn [app]. reflexivity.
Qed.

Lemma run_text (E : list SrcSrtService.SrtEntry) (i t1 t2 : jsstring)
      (ls tls : list jsstring) :
  SrcSrtService.isDigits i = true -> isTimestamp t1 = true ->
  Forall keptLine ls ->
  fold_left SrcSrtService.step ls
    (SrcSrtService.mkState E (SrcSrtService.mkEntry (Some i) (Some t1) (Some t2) None) tls)
  = SrcSrtService.mkState E (SrcSrtService.mkEntry (Some i) (Some t1) (Some t2) None)
      (tls ++ ls).
Proof.
  intros Hi T1 H. revert tls. induction H as [|l ls [Hl _] _ IH]; intros tls.
  - rewrite List.app_nil_r. reflexivity.
  - cbn [fold_left]. unfold SrcSrtService.step at 2. cbv zeta.
    cbn [SrcSrtService.currentEntry SrcSrtService.id SrcSrtService.startTime
         SrcSrtService.entries SrcSrtService.textLines].
    rewrite (isDigits_truthy i Hi), (isTimestamp_truthy t1 T1). cbn [negb].
    destruct (trimmed_spec l Hl) as (c & r & El & Hc & He).
    rewrite (trim_id l c r El Hc He). rewrite El at 1. cbn [length Nat.ltb Nat.leb].
    rewrite IH, <- List.app_assoc. reflexivity.
Qed.

Lemma run_head (E : list SrcSrtService.SrtEntry) (i t1 t2 : jsstring)
      (rest : list jsstring) :
  SrcSrtService.isDigits i = true -> isTimestamp t1 = true -> isTimestamp t2 = true ->
  fold_left SrcSrtService.step (i :: (t1 ++ str " --> " ++ t2) :: rest)
    (SrcSrtService.mkState E SrcSrtService.emptyEntry [])
  = fold_left SrcSrtService.step rest
      (SrcSrtService.mkState E (SrcSrtService.mkEntry (Some i) (Some t1) (Some t2) None) []).
Proof.
  intros Hi T1 T2. cbn [fold_left]. f_equal.
  unfold SrcSrtService.step. cbv zeta.
  cbn [SrcSrtService.currentEntry SrcSrtService.emptyEntry SrcSrtService.id
       SrcSrtService.startTime SrcSrtService.endTime SrcSrtService.text
       SrcSrtService.entries SrcSrtService.textLines SrcSrtService.truthy negb].
  rewrite Hi.
  cbn [SrcSrtService.currentEntry SrcSrtService.id
       SrcSrtService.startTime SrcSrtService.endTime SrcSrtService.text
       SrcSrtService.entries SrcSrtService.textLines].
  rewrite (isDigits_truthy i Hi). cbn [negb SrcSrtService.truthy].
  rewrite (src_timeMatch_printed t1 t2 T1 T2). reflexivity.
Qed.

(** Read from what was printed, the loop ends in a state that gives the
    entries that were printed. *)
Lemma run_printed (l : list SrcSrtService.SrtEntry) :
  l <> [] -> forallb srcWellFormed l = true ->
  forall E,
    srcOutcome (fold_left SrcSrtService.step (srcLines l)
                  (SrcSrtService.mkState E SrcSrtService.emptyEntry []))
    = E ++ l.
Proof.
  induction l as [|e l IH]; intros Hne H E; [contradiction|].
  cbn [forallb] in H. apply andb_prop in H. destruct H as [He H].
  destruct (srcWellFormed_inv e He) as (i & t1 & t2 & t & -> & Hi & T1 & T2 & Hk & Hj).
  destruct l as [|e' l'].
  - clear IH. cbn [srcLines]. unfold srcTimeLine.
    cbn [SrcSrtService.id SrcSrtService.startTime SrcSrtService.endTime
         SrcSrtService.text ToString app].
    rewrite (run_head E i t1 t2 _ Hi T1 T2).
    rewrite (run_text E i t1 t2 _ [] Hi T1 Hk). cbn [app].
    unfold srcOutcome.
    cbn [SrcSrtService.currentEntry SrcSrtService.id SrcSrtService.startTime
         SrcSrtService.entries SrcSrtService.textLines].
    rewrite (isDigits_truthy i Hi), (isTimestamp_truthy t1 T1). cbn [andb].
    unfold SrcSrtService.withText.
    cbn [SrcSrtService.id SrcSrtService.startTime SrcSrtService.endTime].
    rewrite Hj. reflexivity.
  - change (srcLines (SrcSrtService.mkEntry (Some i) (Some t1) (Some t2) (Some t) :: e' :: l'))
      with ([i; t1 ++ str " --> " ++ t2] ++ split isLF t ++ [[]] ++ srcLines (e' :: l')).
    cbn [app]. rewrite (run_head E i t1 t2 _ Hi T1 T2).
    rewrite fold_left_app.
    assert (R : fold_left SrcSrtService.step (split isLF t)
                  (SrcSrtService.mkState E
                     (SrcSrtService.mkEntry (Some i) (Some t1) (Some t2) None) [])
                = if SrcSrtService.truthy (Some t)
                  then SrcSrtService.mkState E
                         (SrcSrtService.mkEntry (Some i) (Some t1) (Some t2) None)
                         (split isLF t)
                  else SrcSrtService.mkState
                         (E ++ [SrcSrtService.mkEntry (Some i) (Some t1) (Some t2) (Some t)])
                         SrcSrtService.emptyEntry []).
    { destruct t as [|x y].
      - cbn [SrcSrtService.truthy]. change (split isLF []) with [@nil ascii].
        cbn [fold_left]. unfold SrcSrtService.step. cbv zeta.
        cbn [SrcSrtService.currentEntry SrcSrtService.id SrcSrtService.startTime
             SrcSrtService.entries SrcSrtService.textLines].
        rewrite (isDigits_truthy i Hi), (isTimestamp_truthy t1 T1). reflexivity.
      - cbn [SrcSrtService.truthy]. cbn [textLinesOf] in Hk.
        rewrite (run_text E i t1 t2 _ [] Hi T1 Hk). reflexivity. }
    rewrite R. cbn [fold_left].
    assert (S : SrcSrtService.step
                  (if SrcSrtService.truthy (Some t)
                   then SrcSrtService.mkState E
                          (SrcSrtService.mkEntry (Some i) (Some t1) (Some t2) None)
                          (split isLF t)
                   else SrcSrtService.mkState
                          (E ++ [SrcSrtService.mkEntry (Some i) (Some t1) (Some t2) (Some t)])
                          SrcSrtService.emptyEntry []) []
                = SrcSrtService.mkState
                    (E ++ [SrcSrtService.mkEntry (Some i) (Some t1) (Some t2) (Some t)])
                    SrcSrtService.emptyEntry []).
    { destruct t as [|x y].
      - reflexivity.
      - cbn [SrcSrtService.truthy]. unfold SrcSrtService.step. cbv zeta.
        cbn [SrcSrtService.currentEntry SrcSrtService.id SrcSrtService.startTime
             SrcSrtService.entries SrcSrtService.textLines].
        rewrite (isDigits_truthy i Hi), (isTimestamp_truthy t1 T1).
        cbn [negb trim trimStart dropWhile trimEnd length Nat.ltb Nat.leb].
        unfold SrcSrtService.withText.
        cbn [SrcSrtService.id SrcSrtService.startTime SrcSrtService.endTime].
        cbn [textLinesOf] in Hj. rewrite Hj. reflexivity. }
    rewrite S. rewrite (IH ltac:(discriminate) H). rewrite <- List.app_assoc. reflexivity.
Qed.

Lemma formatEntries_head (e : SrcSrtService.SrtEntry) (l : list SrcSrtService.SrtEntry) :
  srcWellFormed e = true ->
  exists c r, SrcGeminiService.formatEntries (e :: l) = c :: r /\ isWhiteSpace c = false.
Proof.
  intros He.
  destruct (srcWellFormed_inv e He) as (i & t1 & t2 & t & -> & Hi & _).
  destruct (isDigits_plain i Hi) as [_ (c & r & Ei & Hc)].
  assert (J : exists tail,
             SrcGeminiService.formatEntries
               (SrcSrtService.mkEntry (Some i) (Some t1) (Some t2) (Some t) :: l)
             = i ++ tail).
  { unfold SrcGeminiService.formatEntries.
    change (map SrcGeminiService.formatEntry
              (SrcSrtService.mkEntry (Some i) (Some t1) (Some t2) (Some t) :: l))
      with ((i ++ [LF] ++ t1 ++ str " --> " ++ t2 ++ [LF] ++ t ++ [LF])
            :: map SrcGeminiService.formatEntry l).
    destruct (map SrcGeminiService.formatEntry l) as [|x xs].
    - eexists. reflexivity.
    - change (join [LF] ((i ++ [LF] ++ t1 ++ str " --> " ++ t2 ++ [LF] ++ t ++ [LF])
                         :: x :: xs))
        with ((i ++ [LF] ++ t1 ++ str " --> " ++ t2 ++ [LF] ++ t ++ [LF])
              ++ [LF] ++ join [LF] (x :: xs)).
      rewrite <- List.app_assoc. eexists. reflexivity. }
  destruct J as (tail & ->). rewrite Ei. exists c, (r ++ tail).
  split; [reflexivity|exact Hc].
Qed.

(** What [geminiProcessSrt] prints for whole entries is read back by the
    line-by-line parser as these entries, field for field. *)
Theorem src_format_then_parse (l : list SrcSrtService.SrtEntry) :
  forallb srcWellFormed l = true ->
  SrcSrtService.parseSrt (SrcGeminiService.formatEntries l) = SrcSrtService.Returns l.
Proof.
  intros H. destruct l as [|e l']; [reflexivity|].
  assert (Hne : e :: l' <> []) by discriminate.
  destruct (printed_lines (e :: l') Hne H) as (b & Eb & Nb & Lb).
  assert (He : srcWellFormed e = true).
  { cbn [forallb] in H. apply andb_prop in H. exact (proj1 H). }
  assert (Ht : trim (SrcGeminiService.formatEntries (e :: l')) = b).
  { unfold trim. rewrite <- Eb. f_equal.
    destruct (formatEntries_head e l' He) as (c & r & -> & Hc).
    apply trimStart_solid. exact Hc. }
  unfold SrcSrtService.parseSrt. cbv zeta. rewrite Ht, Lb.
  pose proof (run_printed (e :: l') Hne H []) as R. unfold srcOutcome in R. rewrite R.
  reflexivity.
Qed.

Lemma src_format_then_parse_witness :
  SrcSrtService.parseSrt
    (SrcGeminiService.formatEntries
       [SrcSrtService.mkEntry (Some (str "1")) (Some (str "00:00:01,000"))
          (Some (str "00:00:02,500")) (Some []);
        SrcSrtService.mkEntry (Some (str "007")) (Some (str "99:99:99,999"))
          (Some (str "00:00:00,000")) (Some (str "a b" ++ [LF] ++ str "c"))])
  = SrcSrtService.Returns
      [SrcSrtService.mkEntry (Some (str "1")) (Some (str "00:00:01,000"))
         (Some (str "00:00:02,500")) (Some []);
       SrcSrtService.mkEntry (Some (str "007")) (Some (str "99:99:99,999"))
         (Some (str "00:00:00,000")) (Some (str "a b" ++ [LF] ++ str "c"))].
Proof.
  apply (src_format_then_parse
           [SrcSrtService.mkEntry (Some (str "1")) (Some (str "00:00:01,000"))
              (Some (str "00:00:02,500")) (Some []);
            SrcSrtService.mkEntry (Some (str "007")) (Some (str "99:99:99,999"))
              (Some (str "00:00:00,000")) (Some (str "a b" ++ [LF] ++ str "c"))]).
  reflexivity.
Defined.

(* ================================================================== *)
(** * The name of the file *)
(* ================================================================== *)

Lemma startsWith_refl (x : jsstring) : startsWith x x = true.
Proof.
  induction x as [|c x IH]; [reflexivity|].
  cbn [startsWith]. rewrite Ascii.eqb_refl, IH. reflexivity.
Qed.

Lemma endsWith_app (a x : jsstring) : AppFile.endsWith x (a ++ x) = true.
Proof.
  unfold AppFile.endsWith. rewrite length_app.
  replace (length x <=? length a + length x)%nat with true
    by (symmetry; apply Nat.leb_le; lia).
  replace (length a + length x - length x)%nat with (length a + 0)%nat by lia.
  rewrite skipn_app, skipn_all2 by lia.
  replace (length a + 0 - length a)%nat with 0%nat by lia.
  cbn [app skipn]. rewrite startsWith_refl. reflexivity.
Qed.

Lemma replace_absent (pattern replacement s : jsstring) :
  occurs pattern s = false -> AppFile.replace pattern replacement s = s.
Proof.
  induction s as [|c s IH]; cbn [occurs AppFile.replace]; intros H;
    apply orb_false_iff in H; destruct H as [H1 H2]; rewrite H1.
  - reflexivity.
  - rewrite (IH H2). reflexivity.
Qed.

(** A window of four code units that starts inside [q] does not reach the
    last code unit of what follows. *)
Lemma startsWith_window (q : jsstring) (a b c d x y z w : ascii) :
  q <> [] ->
  startsWith [a; b; c; d] (q ++ [x; y; z; w])
  = startsWith [a; b; c; d] (q ++ [x; y; z]).
Proof.
  intros Hq. destruct q as [|q1 [|q2 [|q3 [|q4 q']]]]; [contradiction| | | |];
    cbn [app startsWith]; rewrite ?andb_true_r; reflexivity.
Qed.

Lemma replace_first (base : jsstring) :
  occurs (str ".srt") (base ++ str ".sr") = false ->
  AppFile.replace (str ".srt") (str "_processed.srt") (base ++ str ".srt")
  = base ++ str "_processed.srt".
Proof.
  induction base as [|c base IH]; [reflexivity|].
  intros H. cbn [app occurs] in H. apply orb_false_iff in H. destruct H as [H1 H2].
  cbn [app AppFile.replace].
  change (c :: base ++ str ".srt") with ((c :: base) ++ str ".srt").
  change (str ".srt") with ["."; "s"; "r"; "t"]%char in *.
  rewrite (startsWith_window (c :: base)) by discriminate.
  change (str ".sr") with ["."; "s"; "r"]%char in *.
  cbn [app]. rewrite H1. f_equal. apply IH. exact H2.
Qed.

(** A file whose name ends with [.srt] in lower case, and has no [.srt]
    before that, is taken, and the new file is named with [_processed]
    put before the extension. *)
Theorem processed_name_of_lower_case (base : jsstring) :
  occurs (str ".srt") (base ++ str ".sr") = false ->
  AppFile.handleFileChange (base ++ str ".srt")
  = Some (base ++ str "_processed.srt").
Proof.
  intros H. unfold AppFile.handleFileChange, AppFile.toLowerCase.
  rewrite map_app. change (map AppFile.lowerUnit (str ".srt")) with (str ".srt").
  rewrite endsWith_app. cbn [negb]. rewrite (replace_first base H). reflexivity.
Qed.

Lemma processed_name_of_lower_case_witness :
  AppFile.handleFileChange (str "my.SRT.film" ++ str ".srt")
  = Some (str "my.SRT.film" ++ str "_processed.srt").
Proof. apply (processed_name_of_lower_case (str "my.SRT.film")). reflexivity. Defined.

(** A file that is taken and has no [.srt] in lower case in its name, as
    when the extension is written in capitals, gives a new file of the
    same name. *)
Theorem processed_name_of_other_case (name : jsstring) :
  AppFile.endsWith (str ".srt") (AppFile.toLowerCase name) = true ->
  occurs (str ".srt") name = false ->
  AppFile.handleFileChange name = Some name.
Proof.
  intros A H. unfold AppFile.handleFileChange. rewrite A. cbn [negb].
  rewrite (replace_absent _ _ name H). reflexivity.
Qed.

Lemma processed_name_of_other_case_witness :
  AppFile.handleFileChange (str "MOVIE.SRT") = Some (str "MOVIE.SRT").
Proof. apply (processed_name_of_other_case (str "MOVIE.SRT")); reflexivity. Defined.
